(** * FSBO scraper: address normalisation, fingerprint store, throttling,
      retry policy and the per-source orchestration run.

    A shallow embedding of
      - [utils/address_normalizer.py]  (module [PyStr], [AddressNormalizer]),
      - [storage/database.py]          (module [MD5], [FSBODatabase]),
      - [utils/rate_limiter.py]        (module [RateLimit]),
      - [scrapers/base_scraper.py] and the per-source body of
        [main.scrape]                  (modules [Orchestrator], [Effects]),
      - [config/__init__.py] and the [scrape] command of [main.py]
                                       (modules [SiteConfig], [Main]).

    Conventions.
      - A Python [str] of ASCII text is a [string]; the case and class
        predicates of module [PyStr] are the ASCII ones ([str.lower],
        [str.isspace], regex [\w], [\d] on ASCII text), and
        [str.encode()] is then the identity on the bytes.  Python's own
        functions are Unicode-wide: a statement that is about the code
        only on ASCII text says so with [isascii].  Module [Unicode]
        gives the city path and the fingerprint on text with two more
        code points, whose case mappings change the length of the text.
      - Wall-clock instants ([time.time()]) are exact rationals, and the
        clock reading is an explicit argument.
      - [CURRENT_TIMESTAMP] is an explicit clock reading, one per SQL
        statement.
      - An exception is a value of [exn]; a call that may raise returns a
        [result]. *)

From stdpp Require Import base gmap strings list.
From Stdlib Require Import ZArith QArith Lqa Lia Ascii String List Bool.
From Stdlib Require Import Sorted Permutation.
Import ListNotations.

Open Scope string_scope.

(* ===================================================================== *)
(** ** Python string primitives (ASCII) *)
(* ===================================================================== *)

Module PyStr.

Definition code (c : ascii) : nat := nat_of_ascii c.

Definition in_range (lo hi : nat) (c : ascii) : bool :=
  Nat.leb lo (code c) && Nat.leb (code c) hi.

Definition is_upper_char (c : ascii) : bool := in_range 65 90 c.
Definition is_lower_char (c : ascii) : bool := in_range 97 122 c.
Definition is_alpha (c : ascii) : bool := is_upper_char c || is_lower_char c.
Definition is_digit (c : ascii) : bool := in_range 48 57 c.

(** [str.isspace] on ASCII: TAB..CR, FS..US and the space. *)
Definition is_space (c : ascii) : bool :=
  in_range 9 13 c || in_range 28 32 c.

(** Regex [\w] on ASCII: letters, digits and the underscore. *)
Definition is_word_char (c : ascii) : bool :=
  is_alpha c || is_digit c || Nat.eqb (code c) 95.

Definition lower_char (c : ascii) : ascii :=
  if is_upper_char c then ascii_of_nat (code c + 32) else c.

Definition upper_char (c : ascii) : ascii :=
  if is_lower_char c then ascii_of_nat (code c - 32) else c.

Fixpoint smap (f : ascii -> ascii) (s : string) : string :=
  match s with
  | EmptyString => EmptyString
  | String c s' => String (f c) (smap f s')
  end.

(** [s.lower()], [s.upper()] *)
Definition lower (s : string) : string := smap lower_char s.
Definition upper (s : string) : string := smap upper_char s.

(** [bool(s)] *)
Definition nonempty (s : string) : bool :=
  match s with EmptyString => false | String _ _ => true end.

(** [s.isascii()] *)
Fixpoint isascii (s : string) : bool :=
  match s with
  | EmptyString => true
  | String c s' => Nat.ltb (code c) 128 && isascii s'
  end.

Fixpoint sexists (p : ascii -> bool) (s : string) : bool :=
  match s with
  | EmptyString => false
  | String c s' => p c || sexists p s'
  end.

(** [s.isupper()]: at least one cased character and no lowercase one. *)
Definition isupper (s : string) : bool :=
  sexists is_upper_char s && negb (sexists is_lower_char s).

Fixpoint lstrip (s : string) : string :=
  match s with
  | EmptyString => EmptyString
  | String c s' => if is_space c then lstrip s' else s
  end.

Fixpoint rstrip (s : string) : string :=
  match s with
  | EmptyString => EmptyString
  | String c s' =>
      let r := rstrip s' in
      if is_space c && negb (nonempty r) then EmptyString else String c r
  end.

(** [s.strip()] *)
Definition strip (s : string) : string := lstrip (rstrip s).

Definition starts_word (s : string) : bool :=
  match s with
  | EmptyString => false
  | String c _ => negb (is_space c)
  end.

Definition cons_head (c : ascii) (ws : list string) : list string :=
  match ws with
  | [] => [String c EmptyString]
  | w :: ws' => String c w :: ws'
  end.

(** [s.split()]: the maximal runs of non-whitespace characters. *)
Fixpoint split (s : string) : list string :=
  match s with
  | EmptyString => []
  | String c s' =>
      if is_space c then split s'
      else if starts_word s' then cons_head c (split s')
      else String c EmptyString :: split s'
  end.

(** [sep.join(parts)] *)
Fixpoint join (sep : string) (parts : list string) : string :=
  match parts with
  | [] => EmptyString
  | [w] => w
  | w :: rest => w ++ sep ++ join sep rest
  end.

(** [s.title()]: a letter is upper-cased when the previous character is
    not a letter and lower-cased when it is. *)
Fixpoint title_from (prev_cased : bool) (s : string) : string :=
  match s with
  | EmptyString => EmptyString
  | String c s' =>
      if is_alpha c
      then String (if prev_cased then lower_char c else upper_char c)
                  (title_from true s')
      else String c (title_from false s')
  end.

Definition title (s : string) : string := title_from false s.

Fixpoint sfilter (p : ascii -> bool) (s : string) : string :=
  match s with
  | EmptyString => EmptyString
  | String c s' => if p c then String c (sfilter p s') else sfilter p s'
  end.

(** [s[:n]] and [s[a:b]] for in-range or clipped bounds. *)
Definition prefix (n : nat) (s : string) : string := substring 0 n s.
Definition slice (a b : nat) (s : string) : string := substring a (b - a) s.

(** *** Whole-word substitution, [re.sub(r'\b(alt1|alt2|...)\b', repl, s)] *)

Definition head_char (s : string) : option ascii :=
  match s with EmptyString => None | String c _ => Some c end.

Definition is_word_opt (o : option ascii) : bool :=
  match o with None => false | Some c => is_word_char c end.

(** [\b] holds between two positions when exactly one side is a word
    character; the outside of the string counts as a non-word side. *)
Definition at_boundary (before after : option ascii) : bool :=
  xorb (is_word_opt before) (is_word_opt after).

Definition char_eqb (ignorecase : bool) (a b : ascii) : bool :=
  if ignorecase then Ascii.eqb (lower_char a) (lower_char b)
  else Ascii.eqb a b.

(** Match the literal [pat] at the head of [s]; on success give the
    matched text, its last character and the unread rest. *)
Fixpoint match_literal (ignorecase : bool) (pat s : string)
         (last : option ascii) : option (string * option ascii * string) :=
  match pat with
  | EmptyString => Some (EmptyString, last, s)
  | String p pat' =>
      match s with
      | EmptyString => None
      | String c s' =>
          if char_eqb ignorecase p c then
            match match_literal ignorecase pat' s' (Some c) with
            | Some (m, l, rest) => Some (String c m, l, rest)
            | None => None
            end
          else None
      end
  end.

(** The alternatives are tried in order; an alternative succeeds when
    its literal matches and a [\b] follows it. *)
Fixpoint match_alternatives (ignorecase : bool) (alts : list string)
         (s : string) : option string :=
  match alts with
  | [] => None
  | a :: alts' =>
      match match_literal ignorecase a s None with
      | Some (m, l, rest) =>
          if at_boundary l (head_char rest) then Some m
          else match_alternatives ignorecase alts' s
      | None => match_alternatives ignorecase alts' s
      end
  end.

(** Left-to-right scan for non-overlapping matches.  [before] is the
    character just left of the scan position, [skip] the number of
    characters of the current match still to be consumed. *)
Fixpoint sub_from (ignorecase : bool) (alts : list string)
         (repl : string -> string) (before : option ascii) (skip : nat)
         (s : string) : string :=
  match s with
  | EmptyString => EmptyString
  | String c s' =>
      match skip with
      | S k => sub_from ignorecase alts repl (Some c) k s'
      | O =>
          match (if at_boundary before (Some c)
                 then match_alternatives ignorecase alts s else None) with
          | Some m =>
              repl m ++ sub_from ignorecase alts repl (Some c)
                                 (String.length m - 1) s'
          | None => String c (sub_from ignorecase alts repl (Some c) 0 s')
          end
      end
  end.

Definition re_sub_words (ignorecase : bool) (alts : list string)
           (repl : string -> string) (s : string) : string :=
  sub_from ignorecase alts repl None 0 s.

End PyStr.

(* ===================================================================== *)
(** ** utils/address_normalizer.py *)
(* ===================================================================== *)

Module AddressNormalizer.
Import PyStr.

(** The class constant [STATE_ABBREV]. *)
Definition STATE_ABBREV : list (string * string) :=
  [ ("alabama", "AL"); ("alaska", "AK"); ("arizona", "AZ"); ("arkansas", "AR");
    ("california", "CA"); ("colorado", "CO"); ("connecticut", "CT"); ("delaware", "DE");
    ("florida", "FL"); ("georgia", "GA"); ("hawaii", "HI"); ("idaho", "ID");
    ("illinois", "IL"); ("indiana", "IN"); ("iowa", "IA"); ("kansas", "KS");
    ("kentucky", "KY"); ("louisiana", "LA"); ("maine", "ME"); ("maryland", "MD");
    ("massachusetts", "MA"); ("michigan", "MI"); ("minnesota", "MN"); ("mississippi", "MS");
    ("missouri", "MO"); ("montana", "MT"); ("nebraska", "NE"); ("nevada", "NV");
    ("new hampshire", "NH"); ("new jersey", "NJ"); ("new mexico", "NM"); ("new york", "NY");
    ("north carolina", "NC"); ("north dakota", "ND"); ("ohio", "OH"); ("oklahoma", "OK");
    ("oregon", "OR"); ("pennsylvania", "PA"); ("rhode island", "RI"); ("south carolina", "SC");
    ("south dakota", "SD"); ("tennessee", "TN"); ("texas", "TX"); ("utah", "UT");
    ("vermont", "VT"); ("virginia", "VA"); ("washington", "WA"); ("west virginia", "WV");
    ("wisconsin", "WI"); ("wyoming", "WY"); ("district of columbia", "DC") ].

(** The class constant [STREET_TYPES], in the iteration order of the
    dict literal (its repeated key ['way'] keeps its first position). *)
Definition STREET_TYPES : list (string * string) :=
  [ ("street", "St"); ("st", "St"); ("avenue", "Ave"); ("ave", "Ave");
    ("road", "Rd"); ("rd", "Rd"); ("drive", "Dr"); ("dr", "Dr");
    ("boulevard", "Blvd"); ("blvd", "Blvd"); ("court", "Ct"); ("ct", "Ct");
    ("lane", "Ln"); ("ln", "Ln"); ("way", "Way");
    ("circle", "Cir"); ("cir", "Cir"); ("trail", "Trl"); ("trl", "Trl");
    ("parkway", "Pkwy"); ("pkwy", "Pkwy"); ("plaza", "Plz"); ("plz", "Plz");
    ("terrace", "Ter"); ("ter", "Ter"); ("highway", "Hwy"); ("hwy", "Hwy") ].

(** The alternation of the direction pattern, in source order. *)
Definition DIRECTIONS : list string :=
  [ "North"; "South"; "East"; "West";
    "Northeast"; "Northwest"; "Southeast"; "Southwest" ].

(** [dict.get]-style lookup by key. *)
Fixpoint lookup_table (k : string) (t : list (string * string)) : option string :=
  match t with
  | [] => None
  | (k', v) :: t' => if String.eqb k k' then Some v else lookup_table k t'
  end.

Definition normalize_street (street : string) : string :=
  if negb (nonempty street) then ""
  else
    let street := join " " (split street) in
    let street := title street in
    let street := re_sub_words false DIRECTIONS (fun m => prefix 1 m) street in
    let street :=
      fold_left (fun acc (fa : string * string) =>
                   re_sub_words true [fst fa] (fun _ => snd fa) acc)
                STREET_TYPES street in
    strip street.

Definition normalize_city (city : string) : string :=
  if negb (nonempty city) then ""
  else
    let city := join " " (split city) in
    strip (title city).

Definition normalize_state (state : string) : string :=
  if negb (nonempty state) then ""
  else
    let state := lower (strip state) in
    if Nat.eqb (String.length state) 2 && isupper state then upper state
    else match lookup_table state STATE_ABBREV with
         | Some abbrev => abbrev
         | None => upper state
         end.

Definition normalize_zip (zip_code : string) : string :=
  if negb (nonempty zip_code) then ""
  else
    let digits := sfilter is_digit zip_code in
    if Nat.leb 9 (String.length digits)
    then prefix 5 digits ++ "-" ++ slice 5 9 digits
    else if Nat.eqb (String.length digits) 5 then digits
    else "".

Record Address := {
  street : string;
  city : string;
  state : string;
  zip_code : string
}.

Definition normalize_address (street city state zip_code : string) : Address :=
  {| street := normalize_street street;
     city := normalize_city city;
     state := normalize_state state;
     zip_code := normalize_zip zip_code |}.

Definition is_valid_address (street city state zip_code : string) : bool :=
  nonempty street && nonempty city && nonempty state && nonempty zip_code.

(** *** [extract_zip_from_string]:
    [re.search(r'\b(\d{5})(?:-(\d{4}))?\b', text)] *)

(** Exactly [n] digits at the head of [s]: the digits and the rest. *)
Fixpoint take_digits (n : nat) (s : string) : option (string * string) :=
  match n with
  | O => Some (EmptyString, s)
  | S n' =>
      match s with
      | EmptyString => None
      | String c s' =>
          if is_digit c then
            match take_digits n' s' with
            | Some (d, rest) => Some (String c d, rest)
            | None => None
            end
          else None
      end
  end.

Fixpoint last_char (s : string) : option ascii :=
  match s with
  | EmptyString => None
  | String c EmptyString => Some c
  | String _ s' => last_char s'
  end.

(** The pattern tried at one position, [before] being the character to
    its left: the optional group is tried first, and given up when the
    closing [\b] fails after it. *)
Definition match_zip (before : option ascii) (s : string) : option string :=
  if at_boundary before (head_char s) then
    match take_digits 5 s with
    | Some (d5, rest) =>
        let with_plus4 :=
          match rest with
          | String c rest' =>
              if Ascii.eqb c "-" then
                match take_digits 4 rest' with
                | Some (d4, rest'') =>
                    if at_boundary (last_char d4) (head_char rest'')
                    then Some (d5 ++ "-" ++ d4) else None
                | None => None
                end
              else None
          | EmptyString => None
          end in
        match with_plus4 with
        | Some m => Some m
        | None =>
            if at_boundary (last_char d5) (head_char rest) then Some d5 else None
        end
    | None => None
    end
  else None.

(** The leftmost position where the pattern matches. *)
Fixpoint search_zip (before : option ascii) (s : string) : option string :=
  match match_zip before s with
  | Some m => Some m
  | None =>
      match s with
      | EmptyString => None
      | String c s' => search_zip (Some c) s'
      end
  end.

Definition extract_zip_from_string (text : string) : option string :=
  search_zip None text.

End AddressNormalizer.

(* ===================================================================== *)
(** ** hashlib.md5 (RFC 1321), as used by [_generate_hash] *)
(* ===================================================================== *)

Module MD5.
Local Open Scope Z_scope.

Definition mask32 : Z := 0xffffffff.
Definition add32 (x y : Z) : Z := Z.land (x + y) mask32.
Definition not32 (x : Z) : Z := Z.lxor x mask32.
Definition rotl32 (x : Z) (n : Z) : Z :=
  Z.lor (Z.land (Z.shiftl x n) mask32) (Z.shiftr x (32 - n)).

Definition K : list Z :=
  [ 0xd76aa478; 0xe8c7b756; 0x242070db; 0xc1bdceee;
    0xf57c0faf; 0x4787c62a; 0xa8304613; 0xfd469501;
    0x698098d8; 0x8b44f7af; 0xffff5bb1; 0x895cd7be;
    0x6b901122; 0xfd987193; 0xa679438e; 0x49b40821;
    0xf61e2562; 0xc040b340; 0x265e5a51; 0xe9b6c7aa;
    0xd62f105d; 0x02441453; 0xd8a1e681; 0xe7d3fbc8;
    0x21e1cde6; 0xc33707d6; 0xf4d50d87; 0x455a14ed;
    0xa9e3e905; 0xfcefa3f8; 0x676f02d9; 0x8d2a4c8a;
    0xfffa3942; 0x8771f681; 0x6d9d6122; 0xfde5380c;
    0xa4beea44; 0x4bdecfa9; 0xf6bb4b60; 0xbebfbc70;
    0x289b7ec6; 0xeaa127fa; 0xd4ef3085; 0x04881d05;
    0xd9d4d039; 0xe6db99e5; 0x1fa27cf8; 0xc4ac5665;
    0xf4292244; 0x432aff97; 0xab9423a7; 0xfc93a039;
    0x655b59c3; 0x8f0ccc92; 0xffeff47d; 0x85845dd1;
    0x6fa87e4f; 0xfe2ce6e0; 0xa3014314; 0x4e0811a1;
    0xf7537e82; 0xbd3af235; 0x2ad7d2bb; 0xeb86d391 ].

Definition S : list Z :=
  [ 7; 12; 17; 22; 7; 12; 17; 22; 7; 12; 17; 22; 7; 12; 17; 22;
    5; 9; 14; 20; 5; 9; 14; 20; 5; 9; 14; 20; 5; 9; 14; 20;
    4; 11; 16; 23; 4; 11; 16; 23; 4; 11; 16; 23; 4; 11; 16; 23;
    6; 10; 15; 21; 6; 10; 15; 21; 6; 10; 15; 21; 6; 10; 15; 21 ].

Definition bytes_of_string (s : string) : list Z :=
  List.map (fun c => Z.of_nat (nat_of_ascii c)) (list_ascii_of_string s).

(** [n] little-endian bytes of [x]. *)
Fixpoint le_bytes (n : nat) (x : Z) : list Z :=
  match n with
  | O => []
  | Datatypes.S n' => Z.land x 0xff :: le_bytes n' (Z.shiftr x 8)
  end.

Fixpoint le_word (bs : list Z) : Z :=
  match bs with
  | [] => 0
  | b :: bs' => Z.lor b (Z.shiftl (le_word bs') 8)
  end.

(** Padding: a 1 bit, zeros up to 56 mod 64, the bit length on 64 bits. *)
Definition pad (msg : list Z) : list Z :=
  let len := Z.of_nat (List.length msg) in
  let zeros := Z.to_nat ((55 - len) mod 64) in
  msg ++ [0x80] ++ List.repeat 0 zeros ++ le_bytes 8 (8 * len).

Fixpoint words (n : nat) (bs : list Z) : list Z :=
  match n with
  | O => []
  | Datatypes.S n' => le_word (firstn 4 bs) :: words n' (skipn 4 bs)
  end.

Fixpoint blocks (n : nat) (bs : list Z) : list (list Z) :=
  match n with
  | O => []
  | Datatypes.S n' => words 16 (firstn 64 bs) :: blocks n' (skipn 64 bs)
  end.

Definition state : Type := Z * Z * Z * Z.

Definition round (M : list Z) (st : state) (i : nat) : state :=
  let '(A, B, C, D) := st in
  let iz := Z.of_nat i in
  let '(F, g) :=
    if iz <? 16 then (Z.lor (Z.land B C) (Z.land (not32 B) D), iz)
    else if iz <? 32 then (Z.lor (Z.land D B) (Z.land (not32 D) C), (5 * iz + 1) mod 16)
    else if iz <? 48 then (Z.lxor (Z.lxor B C) D, (3 * iz + 5) mod 16)
    else (Z.lxor C (Z.lor B (not32 D)), (7 * iz) mod 16) in
  let F := add32 (add32 (add32 F A) (nth i K 0)) (nth (Z.to_nat g) M 0) in
  (D, add32 B (rotl32 F (nth i S 0)), B, C).

Definition compress (st : state) (M : list Z) : state :=
  let '(a0, b0, c0, d0) := st in
  let '(A, B, C, D) := fold_left (round M) (seq 0 64) st in
  (add32 a0 A, add32 b0 B, add32 c0 C, add32 d0 D).

Definition init : state := (0x67452301, 0xefcdab89, 0x98badcfe, 0x10325476).

Definition digest (msg : list Z) : list Z :=
  let p := pad msg in
  let '(a, b, c, d) :=
    fold_left compress (blocks (Nat.div (List.length p) 64) p) init in
  le_bytes 4 a ++ le_bytes 4 b ++ le_bytes 4 c ++ le_bytes 4 d.

Definition hex_digit (n : Z) : ascii :=
  if n <? 10 then ascii_of_nat (Z.to_nat (48 + n))
  else ascii_of_nat (Z.to_nat (87 + n)).

Fixpoint hex (bs : list Z) : string :=
  match bs with
  | [] => EmptyString
  | b :: bs' => String (hex_digit (Z.shiftr b 4)) (String (hex_digit (Z.land b 15)) (hex bs'))
  end.

(** [hashlib.md5(s.encode()).hexdigest()] *)
Definition hexdigest (s : string) : string := hex (digest (bytes_of_string s)).

End MD5.

(* ===================================================================== *)
(** ** storage/database.py *)
(* ===================================================================== *)

Module FSBODatabase.
Import PyStr.
Local Open Scope Z_scope.

(** A reading of [CURRENT_TIMESTAMP], in seconds. *)
Definition timestamp : Type := Z.

(** A row of table [listings]. *)
Record ListingRow := {
  id : Z;
  street : string;
  city : string;
  state : string;
  zip_code : string;
  listing_url : option string;
  source_website : string;
  scraped_at : timestamp;
  last_updated : timestamp;
  listing_hash : string;
  is_exported : Z;
  notes : option string
}.

(** A row of table [scrape_history]. *)
Record SessionRow := {
  session_id : Z;
  session_source : string;
  scrape_start : timestamp;
  scrape_end : timestamp;
  listings_found : Z;
  listings_new : Z;
  listings_duplicates : Z;
  errors : Z;
  status : string;
  error_message : option string
}.

(** The database file: the two tables in rowid order and their
    AUTOINCREMENT counters. *)
Record DB := {
  listings : list ListingRow;
  listings_seq : Z;
  scrape_history : list SessionRow;
  history_seq : Z
}.

(** State after [_init_database] on a fresh file. *)
Definition empty_db : DB :=
  {| listings := []; listings_seq := 0; scrape_history := []; history_seq := 0 |}.

(** A listing dict as passed to [bulk_add_listings]; the two keys read
    with [dict.get] may be absent. *)
Record Listing := {
  l_street : string;
  l_city : string;
  l_state : string;
  l_zip_code : string;
  l_listing_url : option string;
  l_source_website : string;
  l_notes : option string
}.

Definition _generate_hash (street city state zip_code : string) : string :=
  let address_string := lower street ++ lower city ++ lower state ++ zip_code in
  MD5.hexdigest address_string.

Definition fingerprint (l : Listing) : string :=
  _generate_hash (l_street l) (l_city l) (l_state l) (l_zip_code l).

(** Does a row carry this [listing_hash]?  The UNIQUE constraint makes
    the [INSERT] raise [IntegrityError] exactly then. *)
Definition hash_stored (h : string) (db : DB) : bool :=
  existsb (fun r => String.eqb h (listing_hash r)) (listings db).

Definition add_listing (now : timestamp)
           (street city state zip_code : string) (listing_url : option string)
           (source_website : string) (notes : option string)
           (db : DB) : option Z * DB :=
  let listing_hash := _generate_hash street city state zip_code in
  if hash_stored listing_hash db then
    (* sqlite3.IntegrityError, caught: nothing written *)
    (None, db)
  else
    let listing_id := listings_seq db + 1 in
    (Some listing_id,
     {| listings := listings db ++
          [ {| id := listing_id; street := street; city := city; state := state;
               zip_code := zip_code; listing_url := listing_url;
               source_website := source_website;
               scraped_at := now; last_updated := now;
               listing_hash := listing_hash; is_exported := 0;
               notes := notes |} ];
        listings_seq := listing_id;
        scrape_history := scrape_history db;
        history_seq := history_seq db |}).

Definition add_listing_dict (now : timestamp) (l : Listing) (db : DB) : option Z * DB :=
  add_listing now (l_street l) (l_city l) (l_state l) (l_zip_code l)
              (l_listing_url l) (l_source_website l) (l_notes l) db.

(** The loop of [bulk_add_listings]; the [i]-th insert reads
    [clock i]. *)
Fixpoint bulk_add_loop (clock : nat -> timestamp) (i : nat)
         (batch : list Listing) (new_count duplicate_count : Z) (db : DB)
  : (Z * Z) * DB :=
  match batch with
  | [] => ((new_count, duplicate_count), db)
  | listing :: rest =>
      let '(result, db') := add_listing_dict (clock i) listing db in
      match result with
      | Some _ => bulk_add_loop clock (S i) rest (new_count + 1) duplicate_count db'
      | None => bulk_add_loop clock (S i) rest new_count (duplicate_count + 1) db'
      end
  end.

Definition bulk_add_listings (clock : nat -> timestamp) (batch : list Listing)
           (db : DB) : (Z * Z) * DB :=
  bulk_add_loop clock 0 batch 0 0 db.

(** [ORDER BY scraped_at DESC], as an insertion sort that keeps rows
    with equal stamps in rowid order (SQL leaves their order open). *)
Fixpoint insert_desc (r : ListingRow) (rows : list ListingRow) : list ListingRow :=
  match rows with
  | [] => [r]
  | r' :: rows' =>
      if scraped_at r' <=? scraped_at r then r :: rows
      else r' :: insert_desc r rows'
  end.

Definition order_by_scraped_at_desc (rows : list ListingRow) : list ListingRow :=
  fold_right insert_desc [] rows.

(** Python truthiness of an optional string / integer argument. *)
Definition truthy_str (o : option string) : bool :=
  match o with Some s => nonempty s | None => false end.

Definition truthy_int (o : option Z) : bool :=
  match o with Some n => negb (n =? 0) | None => false end.

(** [LIMIT ? OFFSET ?]: a negative limit is no limit, a negative offset
    is zero. *)
Definition limit_offset {A} (limit offset : Z) (rows : list A) : list A :=
  let rows := skipn (Z.to_nat offset) rows in
  if limit <? 0 then rows else firstn (Z.to_nat limit) rows.

Definition get_listings (limit : option Z) (offset : Z) (source : option string)
           (exported : bool) (db : DB) : list ListingRow * DB :=
  let rows := listings db in
  let rows :=
    if truthy_str source
    then List.filter (fun r => String.eqb (source_website r) (default "" source)) rows
    else rows in
  let rows :=
    List.filter (fun r => is_exported r =? (if exported then 1 else 0)) rows in
  let rows := order_by_scraped_at_desc rows in
  let rows :=
    if truthy_int limit then limit_offset (default 0 limit) offset rows else rows in
  (rows, db).

Definition get_listing_count (source : option string) (db : DB) : Z * DB :=
  (Z.of_nat
     (List.length
        (if truthy_str source
         then List.filter (fun r => String.eqb (source_website r) (default "" source))
                          (listings db)
         else listings db)),
   db).

(** [UPDATE listings SET is_exported = 1, last_updated = CURRENT_TIMESTAMP
    WHERE id = ?] *)
Definition update_exported (now : timestamp) (listing_id : Z) (r : ListingRow)
  : ListingRow :=
  if id r =? listing_id then
    {| id := id r; street := street r; city := city r; state := state r;
       zip_code := zip_code r; listing_url := listing_url r;
       source_website := source_website r; scraped_at := scraped_at r;
       last_updated := now; listing_hash := listing_hash r;
       is_exported := 1; notes := notes r |}
  else r.

Fixpoint mark_loop (clock : nat -> timestamp) (i : nat) (listing_ids : list Z)
         (rows : list ListingRow) : list ListingRow :=
  match listing_ids with
  | [] => rows
  | listing_id :: rest =>
      mark_loop clock (S i) rest (List.map (update_exported (clock i) listing_id) rows)
  end.

Definition mark_as_exported (clock : nat -> timestamp) (listing_ids : list Z)
           (db : DB) : unit * DB :=
  (tt,
   {| listings := mark_loop clock 0 listing_ids (listings db);
      listings_seq := listings_seq db;
      scrape_history := scrape_history db;
      history_seq := history_seq db |}).

Definition record_scrape_session (now : timestamp) (source_website : string)
           (listings_found listings_new listings_duplicates : Z)
           (errors : Z) (error_message : option string) (status : string)
           (db : DB) : Z * DB :=
  let session_id := history_seq db + 1 in
  (session_id,
   {| listings := listings db;
      listings_seq := listings_seq db;
      scrape_history := scrape_history db ++
        [ {| session_id := session_id; session_source := source_website;
             scrape_start := now; scrape_end := now;
             listings_found := listings_found; listings_new := listings_new;
             listings_duplicates := listings_duplicates; errors := errors;
             status := status; error_message := error_message |} ];
      history_seq := session_id |}).

Fixpoint insert_session_desc (r : SessionRow) (rows : list SessionRow) : list SessionRow :=
  match rows with
  | [] => [r]
  | r' :: rows' =>
      if scrape_start r' <=? scrape_start r then r :: rows
      else r' :: insert_session_desc r rows'
  end.

Definition get_scrape_history (source : option string) (limit : Z) (db : DB)
  : list SessionRow * DB :=
  let rows := scrape_history db in
  let rows :=
    if truthy_str source
    then List.filter (fun r => String.eqb (session_source r) (default "" source)) rows
    else rows in
  (limit_offset limit 0 (fold_right insert_session_desc [] rows), db).

(** [DELETE FROM listings; DELETE FROM scrape_history].  The
    AUTOINCREMENT counters are kept by SQLite. *)
Definition clear_all_data (db : DB) : unit * DB :=
  (tt,
   {| listings := []; listings_seq := listings_seq db;
      scrape_history := []; history_seq := history_seq db |}).

(** *** CSV export *)

Inductive cell :=
| CInt (n : Z)
| CText (s : string)
| CTime (t : timestamp)
| CNull.

Definition fieldnames : list string :=
  [ "id"; "street"; "city"; "state"; "zip_code";
    "listing_url"; "source_website"; "scraped_at" ].

Definition opt_cell (o : option string) : cell :=
  match o with Some s => CText s | None => CNull end.

(** [listing.get(key, '')] on the dict of a row. *)
Definition row_get (r : ListingRow) (key : string) : cell :=
  if String.eqb key "id" then CInt (id r)
  else if String.eqb key "street" then CText (street r)
  else if String.eqb key "city" then CText (city r)
  else if String.eqb key "state" then CText (state r)
  else if String.eqb key "zip_code" then CText (zip_code r)
  else if String.eqb key "listing_url" then opt_cell (listing_url r)
  else if String.eqb key "source_website" then CText (source_website r)
  else if String.eqb key "scraped_at" then CTime (scraped_at r)
  else if String.eqb key "last_updated" then CTime (last_updated r)
  else if String.eqb key "listing_hash" then CText (listing_hash r)
  else if String.eqb key "is_exported" then CInt (is_exported r)
  else if String.eqb key "notes" then opt_cell (notes r)
  else CText "".

(** The file written by [export_to_csv]: its path, the header row and
    the data rows; [None] when nothing is written. *)
Record CsvFile := {
  csv_path : string;
  csv_header : list string;
  csv_rows : list (list cell)
}.

Definition export_to_csv (output_path : string) (source : option string)
           (exported_only : bool) (db : DB) : option CsvFile * DB :=
  let '(rows, db) := get_listings None 0 source exported_only db in
  match rows with
  | [] => (None, db)
  | _ =>
      let filtered_listings :=
        List.map (fun r => List.map (row_get r) fieldnames) rows in
      (Some {| csv_path := output_path; csv_header := fieldnames;
               csv_rows := filtered_listings |}, db)
  end.

(** The public methods, as calls with their arguments. *)
Inductive call :=
| AddListing (now : timestamp) (l : Listing)
| BulkAddListings (clock : nat -> timestamp) (batch : list Listing)
| GetListings (limit : option Z) (offset : Z) (source : option string) (exported : bool)
| GetListingCount (source : option string)
| MarkAsExported (clock : nat -> timestamp) (listing_ids : list Z)
| RecordScrapeSession (now : timestamp) (source_website : string)
    (found new dups errs : Z) (error_message : option string) (status : string)
| GetScrapeHistory (source : option string) (limit : Z)
| ClearAllData
| ExportToCsv (output_path : string) (source : option string) (exported_only : bool).

(** The database state after a call. *)
Definition exec (c : call) (db : DB) : DB :=
  match c with
  | AddListing now l => snd (add_listing_dict now l db)
  | BulkAddListings clock batch => snd (bulk_add_listings clock batch db)
  | GetListings limit offset source exported =>
      snd (get_listings limit offset source exported db)
  | GetListingCount source => snd (get_listing_count source db)
  | MarkAsExported clock ids => snd (mark_as_exported clock ids db)
  | RecordScrapeSession now src found new dups errs msg st =>
      snd (record_scrape_session now src found new dups errs msg st db)
  | GetScrapeHistory source limit => snd (get_scrape_history source limit db)
  | ClearAllData => snd (clear_all_data db)
  | ExportToCsv path source exported_only =>
      snd (export_to_csv path source exported_only db)
  end.

End FSBODatabase.

(* ===================================================================== *)
(** ** Text beyond ASCII *)
(* ===================================================================== *)

(** A Python [str] is a sequence of code points.  This module follows
    [normalize_city] and [_generate_hash] on text made of the ASCII
    code points and of U+00DF (small sharp s) and U+1E9E (capital sharp
    s); a function that meets any other code point gives [None].  On
    ASCII code points every function is the one of [PyStr]. *)
Module Unicode.
Import PyStr.
Local Open Scope N_scope.
Local Open Scope list_scope.

Definition text : Type := list N.

Definition SHARP_S : N := 223.
Definition CAPITAL_SHARP_S : N := 7838.

Definition is_ascii (c : N) : bool := c <? 128.

Definition known (c : N) : bool :=
  is_ascii c || (c =? SHARP_S) || (c =? CAPITAL_SHARP_S).

Definition of_str (s : string) : text :=
  List.map N_of_ascii (list_ascii_of_string s).

Definition to_str (s : text) : option string :=
  if forallb is_ascii s
  then Some (string_of_list_ascii (List.map ascii_of_N s))
  else None.

(** [c.isspace()]: neither sharp s is white space. *)
Definition isspace (c : N) : bool := is_ascii c && is_space (ascii_of_N c).

(** The cased characters (Unicode property Cased): the letters. *)
Definition iscased (c : N) : bool :=
  (is_ascii c && is_alpha (ascii_of_N c))
  || (c =? SHARP_S) || (c =? CAPITAL_SHARP_S).

(** The full lower-case mapping of one character: U+1E9E maps to
    U+00DF, which is its own lower case. *)
Definition lower_char (c : N) : option text :=
  if is_ascii c then Some [N_of_ascii (PyStr.lower_char (ascii_of_N c))]
  else if c =? SHARP_S then Some [SHARP_S]
  else if c =? CAPITAL_SHARP_S then Some [SHARP_S]
  else None.

(** The full title-case mapping of one character: U+00DF maps to the
    two letters Ss (SpecialCasing), U+1E9E has no mapping and stays. *)
Definition title_char (c : N) : option text :=
  if is_ascii c then Some [N_of_ascii (PyStr.upper_char (ascii_of_N c))]
  else if c =? SHARP_S then Some [83; 115]
  else if c =? CAPITAL_SHARP_S then Some [CAPITAL_SHARP_S]
  else None.

(** [s.lower()] *)
Fixpoint lower (s : text) : option text :=
  match s with
  | [] => Some []
  | c :: s' =>
      match lower_char c, lower s' with
      | Some x, Some r => Some (x ++ r)
      | _, _ => None
      end
  end.

(** [s.title()]: a character after a cased character gets its lower
    case, any other character its title case. *)
Fixpoint title_from (prev_cased : bool) (s : text) : option text :=
  match s with
  | [] => Some []
  | c :: s' =>
      match (if prev_cased then lower_char c else title_char c),
            title_from (iscased c) s' with
      | Some x, Some r => Some (x ++ r)
      | _, _ => None
      end
  end.

Definition title (s : text) : option text := title_from false s.

Fixpoint lstrip (s : text) : text :=
  match s with
  | [] => []
  | c :: s' => if isspace c then lstrip s' else s
  end.

Definition nonempty (s : text) : bool :=
  match s with [] => false | _ :: _ => true end.

Fixpoint rstrip (s : text) : text :=
  match s with
  | [] => []
  | c :: s' =>
      let r := rstrip s' in
      if isspace c && negb (nonempty r) then [] else c :: r
  end.

(** [s.strip()] *)
Definition strip (s : text) : text := lstrip (rstrip s).

Definition starts_word (s : text) : bool :=
  match s with
  | [] => false
  | c :: _ => negb (isspace c)
  end.

Definition cons_head (c : N) (ws : list text) : list text :=
  match ws with
  | [] => [[c]]
  | w :: ws' => (c :: w) :: ws'
  end.

(** [s.split()] *)
Fixpoint split (s : text) : list text :=
  match s with
  | [] => []
  | c :: s' =>
      if isspace c then split s'
      else if starts_word s' then cons_head c (split s')
      else [c] :: split s'
  end.

(** [sep.join(parts)] *)
Fixpoint join (sep : text) (parts : list text) : text :=
  match parts with
  | [] => []
  | [w] => w
  | w :: rest => w ++ sep ++ join sep rest
  end.

(** [AddressNormalizer.normalize_city] *)
Definition normalize_city (city : text) : option text :=
  if negb (forallb known city) then None
  else
    if negb (nonempty city) then Some []
    else
      let city := join [32] (split city) in
      option_map strip (title city).

(** The street patterns, the state table and the zip pattern are
    followed on ASCII text only, through [AddressNormalizer]. *)
Definition on_ascii (f : string -> string) (s : text) : option text :=
  option_map (fun x => of_str (f x)) (to_str s).

Record Address := {
  street : text;
  city : text;
  state : text;
  zip_code : text
}.

Definition normalize_address (street city state zip_code : text) : option Address :=
  match on_ascii AddressNormalizer.normalize_street street,
        normalize_city city,
        on_ascii AddressNormalizer.normalize_state state,
        on_ascii AddressNormalizer.normalize_zip zip_code with
  | Some street, Some city, Some state, Some zip_code =>
      Some {| street := street; city := city; state := state;
              zip_code := zip_code |}
  | _, _, _, _ => None
  end.

(** [s.encode()]: UTF-8. *)
Definition utf8 (c : N) : list N :=
  if c <? 128 then [c]
  else if c <? 2048 then [192 + c / 64; 128 + c mod 64]
  else if c <? 65536
       then [224 + c / 4096; 128 + (c / 64) mod 64; 128 + c mod 64]
       else [240 + c / 262144; 128 + (c / 4096) mod 64;
             128 + (c / 64) mod 64; 128 + c mod 64].

Definition encode (s : text) : string :=
  string_of_list_ascii (List.map ascii_of_N (flat_map utf8 s)).

(** [FSBODatabase._generate_hash] *)
Definition _generate_hash (street city state zip_code : text) : option string :=
  match lower street, lower city, lower state with
  | Some street, Some city, Some state =>
      let address_string := street ++ city ++ state ++ zip_code in
      Some (MD5.hexdigest (encode address_string))
  | _, _, _ => None
  end.

(** The fingerprint of a raw candidate: [normalize_address], then
    [_generate_hash] on the normalised fields. *)
Definition fingerprint (street city state zip_code : text) : option string :=
  match normalize_address street city state zip_code with
  | Some a => _generate_hash (Unicode.street a) (Unicode.city a)
                             (Unicode.state a) (Unicode.zip_code a)
  | None => None
  end.

End Unicode.

(* ===================================================================== *)
(** ** utils/rate_limiter.py *)
(* ===================================================================== *)

Module RateLimit.
Local Open Scope Z_scope.

(** Exceptions derived from [Exception], by the classes the retry
    policy speaks of; [HTTPError] is what [raise_for_status] raises. *)
Inductive exn :=
| ConnectionError (msg : string)
| Timeout (msg : string)
| HTTPError (status_code : Z) (msg : string)
| OtherError (msg : string).

(** [str(e)] *)
Definition exn_str (e : exn) : string :=
  match e with
  | ConnectionError msg | Timeout msg | HTTPError _ msg | OtherError msg => msg
  end.

Inductive result (A : Type) :=
| Ok (a : A)
| Raise (e : exn).
Arguments Ok {A} a.
Arguments Raise {A} e.

Record RetryConfig := {
  max_retries : Z;
  backoff_factor : Q;
  retry_on_status : list Z
}.

(** [RetryConfig.__init__]; [retry_on_status or [...]] replaces [None]
    and the empty list by the default. *)
Definition RetryConfig_init (max_retries : Z) (backoff_factor : Q)
           (retry_on_status : option (list Z)) : RetryConfig :=
  {| max_retries := max_retries;
     backoff_factor := backoff_factor;
     retry_on_status :=
       match retry_on_status with
       | Some (c :: cs) => c :: cs
       | _ => [408; 429; 500; 502; 503; 504]
       end |}.

(** [RetryConfig()] *)
Definition default_config : RetryConfig := RetryConfig_init 3 2 None.

(** What the wrapper does, in order. *)
Inductive event :=
| Call (attempt : nat)
| Sleep (seconds : Q).

(** How the wrapper ends; it falls off its end, returning [None], when
    the loop body never ran. *)
Inductive outcome (A : Type) :=
| Returned (a : A)
| ReturnedNone
| Raised (e : exn).
Arguments Returned {A} a.
Arguments ReturnedNone {A}.
Arguments Raised {A} e.

(** The [for attempt in range(max_retries + 1)] loop of [wrapper];
    [func attempt] is the outcome of the call made on that attempt.
    The waiting time is the exact power, and [time.sleep] is taken to
    return: it does for a time that is not negative and not beyond the
    range of the platform's timer. *)
Fixpoint retry_loop {A} (config : RetryConfig) (func : nat -> result A)
         (attempts : list nat) (last_exception : option exn)
         (trace : list event) : outcome A * list event :=
  match attempts with
  | [] =>
      (match last_exception with
       | Some e => Raised e
       | None => ReturnedNone
       end, trace)
  | attempt :: rest =>
      match func attempt with
      | Ok a => (Returned a, (trace ++ [Call attempt])%list)
      | Raise e =>
          if Z.of_nat attempt <? max_retries config then
            let wait_time := Qpower (backoff_factor config) (Z.of_nat attempt) in
            retry_loop config func rest (Some e)
                       (trace ++ [Call attempt; Sleep wait_time])%list
          else
            retry_loop config func rest (Some e) (trace ++ [Call attempt])%list
      end
  end.

Definition retry_with_backoff {A} (config : RetryConfig) (func : nat -> result A)
  : outcome A * list event :=
  retry_loop config func (seq 0 (Z.to_nat (max_retries config + 1))) None [].

(** *** RequestThrottler *)

Record RequestThrottler := {
  max_requests_per_minute : Z;
  request_times : gmap string (list Q)
}.

Definition RequestThrottler_init (max_requests_per_minute : Z) : RequestThrottler :=
  {| max_requests_per_minute := max_requests_per_minute; request_times := ∅ |}.

(** [t > cutoff] *)
Definition Qgtb (t cutoff : Q) : bool := negb (Qle_bool t cutoff).

(** [if domain not in self.request_times: self.request_times[domain] = []] *)
Definition ensure_domain (domain : string) (times : gmap string (list Q))
  : gmap string (list Q) :=
  match times !! domain with
  | Some _ => times
  | None => <[domain := []]> times
  end.

Definition should_throttle (now : Q) (domain : string) (self : RequestThrottler)
  : bool * RequestThrottler :=
  let cutoff := (now - 60)%Q in
  let times := ensure_domain domain (request_times self) in
  let recent := List.filter (fun t => Qgtb t cutoff) (default [] (times !! domain)) in
  let times := <[domain := recent]> times in
  (max_requests_per_minute self <=? Z.of_nat (List.length recent),
   {| max_requests_per_minute := max_requests_per_minute self;
      request_times := times |}).

Definition record_request (now : Q) (domain : string) (self : RequestThrottler)
  : RequestThrottler :=
  let times := ensure_domain domain (request_times self) in
  {| max_requests_per_minute := max_requests_per_minute self;
     request_times := <[domain := (default [] (times !! domain) ++ [now])%list]> times |}.

(** A history of calls on one throttler, each at its clock reading. *)
Inductive op :=
| RecordRequest (domain : string) (now : Q)
| ShouldThrottle (domain : string) (now : Q).

Definition step (self : RequestThrottler) (o : op) : RequestThrottler :=
  match o with
  | RecordRequest domain now => record_request now domain self
  | ShouldThrottle domain now => snd (should_throttle now domain self)
  end.

Definition run (ops : list op) (self : RequestThrottler) : RequestThrottler :=
  fold_left step ops self.

(** The instants recorded for [domain] in a history, oldest first. *)
Fixpoint recorded (domain : string) (ops : list op) : list Q :=
  match ops with
  | [] => []
  | RecordRequest d t :: rest =>
      if String.eqb d domain then t :: recorded domain rest else recorded domain rest
  | ShouldThrottle _ _ :: rest => recorded domain rest
  end.

Definition op_time (o : op) : Q :=
  match o with
  | RecordRequest _ now | ShouldThrottle _ now => now
  end.

(** Every call of the history was made no later than [now]. *)
Definition calls_before (now : Q) (ops : list op) : Prop :=
  Forall (fun o => (op_time o <= now)%Q) ops.

(** The instants of a list inside the 60 seconds that trail [now]. *)
Definition in_window (now : Q) (instants : list Q) : list Q :=
  List.filter (fun t => Qgtb t (now - 60)%Q && Qle_bool t now) instants.

(** [get_wait_time]; indexing the empty list of recent requests raises
    [IndexError]. *)
Definition get_wait_time (now : Q) (domain : string) (self : RequestThrottler)
  : result Q :=
  let cutoff := (now - 60)%Q in
  match request_times self !! domain with
  | None => Ok 0%Q
  | Some [] => Ok 0%Q
  | Some times =>
      let recent_requests := List.filter (fun t => Qgtb t cutoff) times in
      if Z.of_nat (List.length recent_requests) <? max_requests_per_minute self
      then Ok 0%Q
      else match recent_requests with
           | oldest :: _ => Ok ((oldest + 60) - now)%Q
           | [] => Raise (OtherError "list index out of range")
           end
  end.

Definition op_domain (o : op) : string :=
  match o with
  | RecordRequest domain _ | ShouldThrottle domain _ => domain
  end.

(** *** RateLimiter *)

Record RateLimiter := {
  min_delay : Q;
  max_delay : Q;
  jitter : bool;
  last_request_time : Q
}.

Definition RateLimiter_init (min_delay max_delay : Q) (jitter : bool) : RateLimiter :=
  {| min_delay := min_delay; max_delay := max_delay; jitter := jitter;
     last_request_time := 0 |}.

(** [random.uniform(a, b)] is [a + (b - a) * random()]; [u] is the value
    drawn by [random()]. *)
Definition uniform (a b u : Q) : Q := (a + (b - a) * u)%Q.

(** [wait]: [now] is the clock reading on entry, [u] the random draw,
    [woke] the clock reading stored on exit.  Gives the time slept, if
    any. *)
Definition wait (now u woke : Q) (self : RateLimiter) : option Q * RateLimiter :=
  let elapsed := (now - last_request_time self)%Q in
  let delay :=
    if jitter self then uniform (min_delay self) (max_delay self) u
    else min_delay self in
  let self' :=
    {| min_delay := min_delay self; max_delay := max_delay self;
       jitter := jitter self; last_request_time := woke |} in
  if Qgtb delay elapsed then (Some (delay - elapsed)%Q, self') else (None, self').

End RateLimit.

(* ===================================================================== *)
(** ** scrapers/base_scraper.py and the per-source body of main.scrape *)
(* ===================================================================== *)

Module Orchestrator.
Import PyStr RateLimit.
Local Open Scope Z_scope.

(** A raw candidate as returned by [parse_listings]; a key that is
    absent reads as [''] through [listing.get(key, '')]. *)
Record RawListing := {
  raw_street : string;
  raw_city : string;
  raw_state : string;
  raw_zip_code : string;
  raw_listing_url : string
}.

(** One source: its name and the outcomes of its overridable methods
    and of the network.  [fetch url attempt] is the outcome of the body
    of [get_page] (GET, [raise_for_status], [response.text]) on that
    attempt. *)
Record Scraper := {
  source_name : string;
  get_listing_urls : result (list string);
  fetch : string -> nat -> result string;
  parse_listings : string -> result (list RawListing)
}.

(** [get_page] is decorated with [retry_with_backoff(RetryConfig())]. *)
Definition get_page (s : Scraper) (url : string) : outcome string * list event :=
  retry_with_backoff default_config (fetch s url).

Definition _normalize_listing (s : Scraper) (listing : RawListing)
  : option FSBODatabase.Listing :=
  let normalized :=
    AddressNormalizer.normalize_address
      (raw_street listing) (raw_city listing)
      (raw_state listing) (raw_zip_code listing) in
  if negb (AddressNormalizer.is_valid_address
             (AddressNormalizer.street normalized)
             (AddressNormalizer.city normalized)
             (AddressNormalizer.state normalized)
             (AddressNormalizer.zip_code normalized))
  then None
  else Some {| FSBODatabase.l_street := AddressNormalizer.street normalized;
               FSBODatabase.l_city := AddressNormalizer.city normalized;
               FSBODatabase.l_state := AddressNormalizer.state normalized;
               FSBODatabase.l_zip_code := AddressNormalizer.zip_code normalized;
               FSBODatabase.l_listing_url := Some (raw_listing_url listing);
               FSBODatabase.l_source_website := source_name s;
               FSBODatabase.l_notes := None |}.

(** The [for url in listing_urls] loop of [scrape]: an exception of
    [get_page] or [parse_listings] is logged and the target skipped
    (a [None] response fails at [response.text]). *)
Fixpoint scrape_loop (s : Scraper) (listing_urls : list string)
         (all_listings : list RawListing) : list RawListing :=
  match listing_urls with
  | [] => all_listings
  | url :: rest =>
      match fst (get_page s url) with
      | Returned text =>
          match parse_listings s text with
          | Ok listings => scrape_loop s rest (all_listings ++ listings)%list
          | Raise _ => scrape_loop s rest all_listings
          end
      | ReturnedNone | Raised _ => scrape_loop s rest all_listings
      end
  end.

Definition scrape (s : Scraper) : result (list FSBODatabase.Listing) :=
  match get_listing_urls s with
  | Raise e => Raise e
  | Ok listing_urls =>
      let all_listings := scrape_loop s listing_urls [] in
      Ok (omap (_normalize_listing s) all_listings)
  end.

(** What one pass of the [for scraper_name in scrapers_to_run] body adds
    to the totals of [main.scrape]. *)
Record RunTotals := {
  new_count : Z;
  dup_count : Z;
  error_count : Z;
  addresses : list string
}.

Definition address_line (l : FSBODatabase.Listing) : string :=
  FSBODatabase.l_street l ++ ", " ++ FSBODatabase.l_city l ++ ", " ++
  FSBODatabase.l_state l ++ " " ++ FSBODatabase.l_zip_code l.

(** The [except Exception as e] handler. *)
Definition record_failure (now : FSBODatabase.timestamp) (scraper_name : string)
           (e : exn) (db : FSBODatabase.DB) : RunTotals * FSBODatabase.DB :=
  let '(_, db) :=
    FSBODatabase.record_scrape_session now scraper_name 0 0 0 1
      (Some (exn_str e)) "failed" db in
  ({| new_count := 0; dup_count := 0; error_count := 1; addresses := [] |}, db).

(** The [try] block of one source and its handler (main.py, lines
    86-176) when only building the scraper and [scraper.scrape()] can
    raise; module [Effects] below has the pass when the console, the
    database and [scraper.close()] can raise too.  [construct] is the
    outcome of building the scraper object.  The database statements
    read [clock 0], [clock 1], ... in order. *)
Definition run_source (clock : nat -> FSBODatabase.timestamp)
           (scraper_name : string) (construct : result Scraper)
           (db : FSBODatabase.DB) : RunTotals * FSBODatabase.DB :=
  match construct with
  | Raise e => record_failure (clock O) scraper_name e db
  | Ok scraper =>
      match scrape scraper with
      | Raise e => record_failure (clock O) scraper_name e db
      | Ok listings =>
          let '((new_count, dup_count), db) :=
            FSBODatabase.bulk_add_listings clock listings db in
          let '(_, db) :=
            FSBODatabase.record_scrape_session
              (clock (List.length listings)) (source_name scraper)
              (Z.of_nat (List.length listings)) new_count dup_count 0
              None "completed" db in
          ({| new_count := new_count; dup_count := dup_count; error_count := 0;
              addresses := List.map address_line listings |}, db)
      end
  end.

End Orchestrator.

(* ===================================================================== *)
(** ** The per-source body of main.scrape when its statements raise *)
(* ===================================================================== *)

(** [Orchestrator.run_source] follows the [try] block and its handler
    when only building the scraper and [scraper.scrape()] can raise.
    Here every statement of the block and of the handler that writes to
    the console, to the database or to the network session can raise
    too.  The [logger] calls do not: the logging module reports a
    failing handler itself. *)
Module Effects.
Import PyStr RateLimit Orchestrator.
Local Open Scope Z_scope.

(** The statements that can raise, besides building the scraper and
    [scraper.scrape()]. *)
Inductive point :=
| EchoRateLimit            (* the echo of the rate limits, line 133 *)
| ProgressBar              (* entering [click.progressbar], line 135 *)
| ProgressDone             (* [pbar.update(100)] and leaving the bar *)
| InsertListing (i : nat)  (* [add_listing] of the [i]-th listing *)
| RecordCompleted          (* [record_scrape_session] of the [try] block *)
| Close                    (* [scraper.close()] *)
| EchoComplete             (* the echo of the result line, line 163 *)
| EchoError                (* the handler's echo, line 168 *)
| RecordFailed.            (* [record_scrape_session] of the handler *)

(** For each statement, the exception it raises, if any. *)
Definition Faults : Type := point -> option exn.

Definition no_faults : Faults := fun _ => None.

(** [bulk_add_listings] when an [add_listing] can raise: [get_connection]
    rolls the failed statement back and raises again, the loop ends
    there, and the listings inserted before stay committed.  The last
    component counts the statements run. *)
Fixpoint bulk_add_loop (faults : Faults) (clock : nat -> FSBODatabase.timestamp)
         (i : nat) (batch : list FSBODatabase.Listing)
         (new_count duplicate_count : Z) (db : FSBODatabase.DB)
  : result (Z * Z) * FSBODatabase.DB * nat :=
  match batch with
  | [] => (Ok (new_count, duplicate_count), db, i)
  | listing :: rest =>
      match faults (InsertListing i) with
      | Some e => (Raise e, db, S i)
      | None =>
          let '(result, db') := FSBODatabase.add_listing_dict (clock i) listing db in
          match result with
          | Some _ =>
              bulk_add_loop faults clock (S i) rest (new_count + 1) duplicate_count db'
          | None =>
              bulk_add_loop faults clock (S i) rest new_count (duplicate_count + 1) db'
          end
      end
  end.

Definition bulk_add_listings (faults : Faults) (clock : nat -> FSBODatabase.timestamp)
           (batch : list FSBODatabase.Listing) (db : FSBODatabase.DB)
  : result (Z * Z) * FSBODatabase.DB * nat :=
  bulk_add_loop faults clock 0 batch 0 0 db.

(** The [except Exception as e] handler: [total_errors] is incremented,
    the error is echoed, then the failed session is recorded; an
    exception of either statement leaves the handler and ends the
    command.  [so_far] is what the [try] block had added to the totals
    when it raised. *)
Definition handler (faults : Faults) (now : FSBODatabase.timestamp)
           (scraper_name : string) (so_far : RunTotals) (e : exn)
           (db : FSBODatabase.DB)
  : result RunTotals * FSBODatabase.DB :=
  match faults EchoError with
  | Some e' => (Raise e', db)
  | None =>
      match faults RecordFailed with
      | Some e' => (Raise e', db)
      | None =>
          let '(_, db) :=
            FSBODatabase.record_scrape_session now scraper_name 0 0 0 1
              (Some (exn_str e)) "failed" db in
          (Ok {| new_count := new_count so_far; dup_count := dup_count so_far;
                 error_count := error_count so_far + 1;
                 addresses := addresses so_far |}, db)
      end
  end.

Definition nothing : RunTotals :=
  {| new_count := 0; dup_count := 0; error_count := 0; addresses := [] |}.

(** The [try] block of one source and its handler (main.py, lines
    86-176).  [construct] is the outcome of lines 87-131, which build
    the scraper.  The database statements read [clock 0], [clock 1], ...
    in order.  An exception raised while the progress bar is open is
    replaced by the one that leaving the bar raises, if it does.  The
    counts of [bulk_add_listings] and the addresses are added to the
    totals before the session is recorded. *)
Definition run_source (faults : Faults) (clock : nat -> FSBODatabase.timestamp)
           (scraper_name : string) (construct : result Scraper)
           (db : FSBODatabase.DB) : result RunTotals * FSBODatabase.DB :=
  match construct with
  | Raise e => handler faults (clock O) scraper_name nothing e db
  | Ok scraper =>
      match faults EchoRateLimit with
      | Some e => handler faults (clock O) scraper_name nothing e db
      | None =>
      match faults ProgressBar with
      | Some e => handler faults (clock O) scraper_name nothing e db
      | None =>
      match scrape scraper, faults ProgressDone with
      | _, Some e => handler faults (clock O) scraper_name nothing e db
      | Raise e, None => handler faults (clock O) scraper_name nothing e db
      | Ok listings, None =>
      match bulk_add_listings faults clock listings db with
      | (Raise e, db, k) => handler faults (clock k) scraper_name nothing e db
      | (Ok (new_count, dup_count), db, k) =>
      let so_far :=
        {| new_count := new_count; dup_count := dup_count; error_count := 0;
           addresses := List.map address_line listings |} in
      match faults RecordCompleted with
      | Some e => handler faults (clock (S k)) scraper_name so_far e db
      | None =>
          let '(_, db) :=
            FSBODatabase.record_scrape_session
              (clock k) (source_name scraper)
              (Z.of_nat (List.length listings)) new_count dup_count 0
              None "completed" db in
          match faults Close with
          | Some e => handler faults (clock (S k)) scraper_name so_far e db
          | None =>
          match faults EchoComplete with
          | Some e => handler faults (clock (S k)) scraper_name so_far e db
          | None => (Ok so_far, db)
          end end
      end end end end end
  end.

End Effects.


(* ===================================================================== *)
(** ** config/__init__.py *)
(* ===================================================================== *)

Module SiteConfig.
Import PyStr.

(** One entry of the ['sites'] list of the configuration: the keys the
    code reads, each of which may be absent. *)
Record Site := {
  site_name : option string;
  site_scraper : option string;
  site_enabled : option bool
}.

(** [get_site]: the first entry whose ['scraper'] is the given name. *)
Fixpoint get_site (scraper_name : string) (sites : list Site) : option Site :=
  match sites with
  | [] => None
  | site :: rest =>
      match site_scraper site with
      | Some name =>
          if String.eqb name scraper_name then Some site
          else get_site scraper_name rest
      | None => get_site scraper_name rest
      end
  end.

(** [is_site_enabled]: [site.get('enabled', False) if site else False] *)
Definition is_site_enabled (scraper_name : string) (sites : list Site) : bool :=
  match get_site scraper_name sites with
  | Some site => default false (site_enabled site)
  | None => false
  end.

(** [get_enabled_sites]: [s.get('enabled', True)] *)
Definition get_enabled_sites (sites : list Site) : list Site :=
  List.filter (fun s => default true (site_enabled s)) sites.

End SiteConfig.

(* ===================================================================== *)
(** ** main.py: the [scrape] command *)
(* ===================================================================== *)

Module Main.
Import PyStr RateLimit Orchestrator SiteConfig Effects.
Local Open Scope Z_scope.

(** [ScraperContext]: the store, the site configuration and the registry
    of scraper classes in the order of its dict; a class is modelled by
    the outcome of constructing it for a site entry. *)
Record ScraperContext := {
  db : FSBODatabase.DB;
  site_config : list Site;
  scrapers : list (string * (Site -> result Scraper))
}.

Fixpoint lookup_scraper (name : string)
         (registry : list (string * (Site -> result Scraper)))
  : option (Site -> result Scraper) :=
  match registry with
  | [] => None
  | (key, class) :: rest =>
      if String.eqb key name then Some class else lookup_scraper name rest
  end.

(** The running totals of the command. *)
Record Totals := {
  total_new : Z;
  total_duplicates : Z;
  total_errors : Z;
  all_addresses : list string
}.

Definition no_totals : Totals :=
  {| total_new := 0; total_duplicates := 0; total_errors := 0; all_addresses := [] |}.

Definition add_totals (t : Totals) (r : RunTotals) : Totals :=
  {| total_new := total_new t + new_count r;
     total_duplicates := total_duplicates t + dup_count r;
     total_errors := total_errors t + error_count r;
     all_addresses := (all_addresses t ++ addresses r)%list |}.

(** The statements of the command outside the [try] blocks that can
    raise: the console lines and the export. *)
Inductive command_point :=
| EchoHeader               (* the two opening lines *)
| EchoUnknown              (* the lines for an unknown scraper name *)
| EchoSkip (i : nat)       (* the line for the [i]-th name, disabled *)
| EchoScraping (i : nat)   (* the heading of the [i]-th name *)
| EchoSummary              (* the summary and the list of addresses *)
| EchoExporting            (* the line before the export *)
| Export                   (* [export_to_csv] *)
| EchoExported.            (* the line after the export *)

(** The exceptions of one run of the command: those of its own
    statements and, for the [i]-th name of the loop, those of the
    statements of the [try] block and of the handler. *)
Record CommandFaults := {
  command_faults : command_point -> option exn;
  source_faults : nat -> Faults
}.

Definition no_command_faults : CommandFaults :=
  {| command_faults := fun _ => None; source_faults := fun _ => no_faults |}.

(** The [for scraper_name in scrapers_to_run] loop.  The [i]-th name of
    the loop reads the clock [clock i].  Reading [site_config['name']]
    happens outside the [try] block: when the key is missing the
    [KeyError] ends the command there, as does an exception that leaves
    the handler. *)
Fixpoint run_sources (faults : CommandFaults)
         (clock : nat -> nat -> FSBODatabase.timestamp) (i : nat)
         (scrapers_to_run : list string) (sites : list Site)
         (registry : list (string * (Site -> result Scraper)))
         (totals : Totals) (db : FSBODatabase.DB)
  : result Totals * FSBODatabase.DB :=
  match scrapers_to_run with
  | [] => (Ok totals, db)
  | scraper_name :: rest =>
      if negb (is_site_enabled scraper_name sites)
      then
        match command_faults faults (EchoSkip i) with
        | Some e => (Raise e, db)
        | None => run_sources faults clock (S i) rest sites registry totals db
        end
      else
        match get_site scraper_name sites with
        | None => (Raise (OtherError "'NoneType' object is not subscriptable"), db)
        | Some site =>
            match site_name site with
            | None => (Raise (OtherError "'name'"), db)
            | Some _ =>
                match command_faults faults (EchoScraping i) with
                | Some e => (Raise e, db)
                | None =>
                    let construct :=
                      match lookup_scraper scraper_name registry with
                      | Some class => class site
                      | None => Raise (OtherError scraper_name)
                      end in
                    match Effects.run_source (source_faults faults i) (clock i)
                                             scraper_name construct db with
                    | (Raise e, db) => (Raise e, db)
                    | (Ok r, db) =>
                        run_sources faults clock (S i) rest sites registry
                                    (add_totals totals r) db
                    end
                end
            end
        end
  end.

(** How the command ends. *)
Inductive command_end :=
| UnknownScraper
| Crashed (e : exn)
| Finished (totals : Totals) (export : option FSBODatabase.CsvFile).

(** The export at the end of the command. *)
Definition export_step (faults : CommandFaults) (totals : Totals)
           (export_path : string) (db : FSBODatabase.DB)
  : command_end * FSBODatabase.DB :=
  match command_faults faults EchoExporting with
  | Some e => (Crashed e, db)
  | None =>
      match command_faults faults Export with
      | Some e => (Crashed e, db)
      | None =>
          let '(file, db) := FSBODatabase.export_to_csv export_path None false db in
          match command_faults faults EchoExported with
          | Some e => (Crashed e, db)
          | None => (Finished totals file, db)
          end
      end
  end.

(** The [scrape] command.  [default_path] is the time-stamped path used
    when no [--output] is given.  The export runs when [output] is absent
    or a non-empty string. *)
Definition scrape (faults : CommandFaults)
           (clock : nat -> nat -> FSBODatabase.timestamp)
           (site output : option string) (default_path : string)
           (context : ScraperContext) : command_end * FSBODatabase.DB :=
  match command_faults faults EchoHeader with
  | Some e => (Crashed e, db context)
  | None =>
      if FSBODatabase.truthy_str site
         && negb (existsb (fun kc => String.eqb (fst kc) (default "" site))
                          (scrapers context))
      then
        match command_faults faults EchoUnknown with
        | Some e => (Crashed e, db context)
        | None => (UnknownScraper, db context)
        end
      else
        let scrapers_to_run :=
          if FSBODatabase.truthy_str site then [default "" site]
          else List.map fst (scrapers context) in
        match run_sources faults clock 0 scrapers_to_run (site_config context)
                          (scrapers context) no_totals (db context) with
        | (Raise e, db) => (Crashed e, db)
        | (Ok totals, db) =>
            match command_faults faults EchoSummary with
            | Some e => (Crashed e, db)
            | None =>
                match output with
                | None => export_step faults totals default_path db
                | Some path =>
                    if nonempty path then export_step faults totals path db
                    else (Finished totals None, db)
                end
            end
        end
  end.

End Main.
(* ===================================================================== *)
(** ** Vocabulary of the properties *)
(* ===================================================================== *)

Module Vocabulary.
Import PyStr AddressNormalizer.

(** Two raw fields differ only by letter case or surrounding
    whitespace. *)
Definition same_text (s1 s2 : string) : Prop :=
  lower (strip s1) = lower (strip s2).

(** The part of [normalize_street] after the title-casing. *)
Definition abbreviate_street (titled : string) : string :=
  strip
    (fold_left (fun acc (fa : string * string) =>
                  re_sub_words true [fst fa] (fun _ => snd fa) acc)
               STREET_TYPES
               (re_sub_words false DIRECTIONS (fun m => prefix 1 m) titled)).

(** The part of [normalize_state] after trimming and lower-casing. *)
Definition state_of_folded (state : string) : string :=
  if (Nat.eqb (String.length state) 2 && isupper state)%bool then upper state
  else match lookup_table state STATE_ABBREV with
       | Some abbrev => abbrev
       | None => upper state
       end.

(** Each table entry, checked on its full name and on its code. *)
Definition entry_ok (entry : string * string) : bool :=
  let '(name, abbrev) := entry in
  (String.eqb (state_of_folded (strip name)) abbrev
   && String.eqb (state_of_folded (strip (lower abbrev))) abbrev)%bool.

(** *** Fingerprints in the store *)

Import FSBODatabase.

(** The set of fingerprints held by the rows of the store. *)
Definition stored_fingerprints (db : DB) : gset string :=
  list_to_set (List.map listing_hash (listings db)).

(** The number of listings of a batch whose fingerprint is neither in
    [seen] nor carried by an earlier listing of the batch. *)
Fixpoint count_new (seen : gset string) (batch : list Listing) : nat :=
  match batch with
  | [] => 0
  | l :: rest =>
      if decide (fingerprint l ∈ seen) then count_new seen rest
      else S (count_new ({[fingerprint l]} ∪ seen) rest)
  end.

Definition mk_listing (street city state zip_code : string) : Listing :=
  {| l_street := street; l_city := city; l_state := state;
     l_zip_code := zip_code; l_listing_url := None;
     l_source_website := "fsbo_com"; l_notes := None |}.

(** Two different addresses whose lower-cased fields concatenate to the
    same text, ["12 mainstownil62701"]. *)
Definition listing_main_stown : Listing := mk_listing "12 Main" "Stown" "IL" "62701".
Definition listing_mains_town : Listing := mk_listing "12 Mains" "Town" "IL" "62701".

Definition listing_springfield : Listing :=
  mk_listing "123 Main St" "Springfield" "IL" "62701".
Definition listing_chicago : Listing :=
  mk_listing "9 Oak Ave" "Chicago" "IL" "60601".

(** A row with its exported flag and last-updated stamp replaced and
    every other field kept. *)
Definition with_export (r : ListingRow) (flag : Z) (stamp : timestamp) : ListingRow :=
  {| id := id r; street := street r; city := city r; state := state r;
     zip_code := zip_code r; listing_url := listing_url r;
     source_website := source_website r; scraped_at := scraped_at r;
     last_updated := stamp; listing_hash := listing_hash r;
     is_exported := flag; notes := notes r |}.

(** [listing_id in listing_ids] *)
Definition id_listed (listing_id : Z) (listing_ids : list Z) : bool :=
  existsb (Z.eqb listing_id) listing_ids.

(** What [mark_as_exported] may do to one row: a listed row gets the
    flag and the stamp of one of the statements that name it, any other
    row stays as it is. *)
Definition marked (clock : nat -> timestamp) (listing_ids : list Z)
           (r r' : ListingRow) : Prop :=
  if id_listed (id r) listing_ids
  then exists k, nth_error listing_ids k = Some (id r)
                 /\ r' = with_export r 1 (clock k)
  else r' = r.

(** A clock that advances by one second per statement. *)
Definition tick_clock (start : Z) (i : nat) : timestamp := (start + Z.of_nat i)%Z.

(** *** Retry policy and throttler *)

Import RateLimit.

(** The classification the retry policy is described with: a network
    error, a timeout, or a response status of the configured set. *)
Definition classified_retryable (config : RetryConfig) (e : exn) : bool :=
  match e with
  | ConnectionError _ | Timeout _ => true
  | HTTPError status_code _ =>
      existsb (Z.eqb status_code) (retry_on_status config)
  | OtherError _ => false
  end.

(** An operation that answers 404 on every attempt. *)
Definition always_404 (attempt : nat) : result string :=
  Raise (HTTPError 404 "404 Client Error: Not Found").

(** What [should_throttle] keeps of a list of instants at [now]. *)
Definition recent (now : Q) (instants : list Q) : list Q :=
  List.filter (fun t => Qgtb t (now - 60)%Q) instants.

(** The instants a throttler holds for a domain. *)
Definition times_of (self : RequestThrottler) (domain : string) : list Q :=
  default [] (request_times self !! domain).

(** *** Orchestration *)

Import Orchestrator.

(** The candidates one target contributes: those parsed from its page,
    none when the fetch or the parse fails. *)
Definition target_candidates (s : Scraper) (url : string) : list RawListing :=
  match fst (get_page s url) with
  | Returned text =>
      match parse_listings s text with
      | Ok listings => listings
      | Raise _ => []
      end
  | ReturnedNone | Raised _ => []
  end.

(** The candidates of all targets that survive normalisation and the
    validity filter. *)
Definition valid_candidates (s : Scraper) (urls : list string) : list Listing :=
  omap (_normalize_listing s) (flat_map (target_candidates s) urls).

(** The outcome of the [try] block up to the end of [scraper.scrape()]. *)
Definition run_outcome (construct : result Scraper) : result (list Listing) :=
  match construct with
  | Raise e => Raise e
  | Ok scraper => scrape scraper
  end.

(** The session row written when the [try] block runs to its end. *)
Definition completed_row (clock : nat -> timestamp) (s : Scraper)
           (found : list Listing) (db : DB) : SessionRow :=
  let counts := fst (bulk_add_listings clock found db) in
  {| session_id := (history_seq db + 1)%Z;
     session_source := source_name s;
     scrape_start := clock (List.length found);
     scrape_end := clock (List.length found);
     listings_found := Z.of_nat (List.length found);
     listings_new := fst counts;
     listings_duplicates := snd counts;
     errors := 0;
     status := "completed";
     error_message := None |}.

(** A source with three targets: the second one times out on every
    attempt; the first page holds a complete candidate and one without
    a zip code, the third page one complete candidate. *)
Definition raw (street city state zip_code : string) : RawListing :=
  {| raw_street := street; raw_city := city; raw_state := state;
     raw_zip_code := zip_code; raw_listing_url := "" |}.

Definition three_targets : Scraper :=
  {| source_name := "FSBO.com";
     get_listing_urls := Ok ["https://fsbo.com/p1"; "https://fsbo.com/p2";
                             "https://fsbo.com/p3"];
     fetch := fun url attempt =>
       if String.eqb url "https://fsbo.com/p1" then Ok "page one"
       else if String.eqb url "https://fsbo.com/p3" then Ok "page three"
       else Raise (Timeout "Read timed out.");
     parse_listings := fun text =>
       if String.eqb text "page one"
       then Ok [ raw "123 main street" "springfield" "illinois" "62701";
                 raw "77 elm road" "peoria" "illinois" "" ]
       else Ok [ raw "9 oak avenue" "chicago" "il" "60601" ] |}.

(** *** Shapes of zip codes *)

Fixpoint sforall (p : ascii -> bool) (s : string) : bool :=
  match s with
  | EmptyString => true
  | String c s' => p c && sforall p s'
  end.

(** Five digits. *)
Definition is_zip5 (s : string) : bool :=
  Nat.eqb (String.length s) 5 && sforall is_digit s.

(** Five digits, a hyphen, four digits. *)
Definition is_zip9 (s : string) : bool :=
  Nat.eqb (String.length s) 10 && sforall is_digit (prefix 5 s)
  && String.eqb (slice 5 6 s) "-" && sforall is_digit (slice 6 10 s).

(** A word: a non-empty string without whitespace. *)
Definition is_token (w : string) : bool :=
  nonempty w && negb (sexists is_space w).

(** *** States of the store *)

(** The stores that calls of the public methods can build on a fresh
    database file. *)
Inductive reachable : DB -> Prop :=
| reachable_init : reachable empty_db
| reachable_step (c : call) (db : DB) : reachable db -> reachable (exec c db).

(** The fingerprint of a row is the hash of its own address fields. *)
Definition row_consistent (r : ListingRow) : Prop :=
  listing_hash r = _generate_hash (street r) (city r) (state r) (zip_code r).

(** What holds of every store: fingerprints are unique and computed from
    the row, ids are positive, grow with the rowid order and stay within
    the counter, the exported flag is 0 or 1; session ids likewise. *)
Definition well_formed (db : DB) : Prop :=
  NoDup (List.map listing_hash (listings db))
  /\ Forall row_consistent (listings db)
  /\ StronglySorted Z.lt (List.map id (listings db))
  /\ Forall (fun r => (0 < id r <= listings_seq db)%Z) (listings db)
  /\ Forall (fun r => is_exported r = 0%Z \/ is_exported r = 1%Z) (listings db)
  /\ StronglySorted Z.lt (List.map session_id (scrape_history db))
  /\ Forall (fun s => (0 < session_id s <= history_seq db)%Z) (scrape_history db)
  /\ (0 <= listings_seq db)%Z /\ (0 <= history_seq db)%Z.

(** Newest first. *)
Definition newest_first {A} (key : A -> Z) (rows : list A) : Prop :=
  StronglySorted (fun a b => (key b <= key a)%Z) rows.

(** The rows a query selects, before ordering and paging. *)
Definition selected (source : option string) (exported : bool) (db : DB)
  : list ListingRow :=
  List.filter (fun r => is_exported r =? (if exported then 1 else 0))%Z
    (if truthy_str source
     then List.filter (fun r => String.eqb (source_website r) (default "" source))
                      (listings db)
     else listings db).

(** The store after a sequence of calls. *)
Definition run_calls (calls : list call) (db : DB) : DB :=
  fold_left (fun d c => exec c d) calls db.

Definition csv_row_count (file : option CsvFile) : nat :=
  match file with
  | Some f => List.length (csv_rows f)
  | None => O
  end.

(** *** Traces of the retry wrapper *)

(** The first [k] attempts, each failed and followed by its sleep. *)
Definition failed_attempts (config : RetryConfig) (first k : nat) : list event :=
  flat_map (fun j => [Call j; Sleep (Qpower (backoff_factor config) (Z.of_nat j))])
           (seq first k).

Fixpoint count_calls (trace : list event) : nat :=
  match trace with
  | [] => O
  | Call _ :: rest => S (count_calls rest)
  | Sleep _ :: rest => count_calls rest
  end.

(** The delay [wait] aims at. *)
Definition wait_delay (u : Q) (self : RateLimiter) : Q :=
  if jitter self then uniform (min_delay self) (max_delay self) u
  else min_delay self.

(** The sleep of [wait], when there is one, lasts at least as asked. *)
Definition slept_as_asked (now woke : Q) (slept : option Q) : Prop :=
  match slept with
  | Some s => (now + s <= woke)%Q
  | None => (now <= woke)%Q
  end.

(** A target whose page was fetched and parsed. *)
Definition target_ok (s : Scraper) (url : string) : bool :=
  match fst (get_page s url) with
  | Returned text =>
      match parse_listings s text with
      | Ok _ => true
      | Raise _ => false
      end
  | ReturnedNone | Raised _ => false
  end.

(** *** Runs of word characters *)

(** The maximal runs of word characters and of other characters of a
    string, in order. *)
Fixpoint runs (s : string) : list string :=
  match s with
  | EmptyString => []
  | String c s' =>
      match s' with
      | EmptyString => [String c EmptyString]
      | String c' _ =>
          if Bool.eqb (is_word_char c) (is_word_char c')
          then cons_head c (runs s')
          else String c EmptyString :: runs s'
      end
  end.

Definition sconcat (parts : list string) : string :=
  fold_right String.append EmptyString parts.

(** [a] and [w] are the same word, letter case ignored when asked. *)
Fixpoint same_word (ignorecase : bool) (a w : string) : bool :=
  match a, w with
  | EmptyString, EmptyString => true
  | String p a', String c w' => char_eqb ignorecase p c && same_word ignorecase a' w'
  | _, _ => false
  end.

(** A run that is one of the alternatives is replaced, any other run is
    kept. *)
Definition rewrite_run (ignorecase : bool) (alts : list string)
           (repl : string -> string) (run : string) : string :=
  if existsb (fun a => same_word ignorecase a run) alts then repl run else run.

(** What becomes of one run of the title-cased street: a run that is a
    direction name becomes its first letter; any other run whose
    lower-cased text is a key of [STREET_TYPES] becomes the abbreviation;
    any other run stays. *)
Definition street_word (run : string) : string :=
  if existsb (String.eqb run) DIRECTIONS then prefix 1 run
  else match lookup_table (lower run) STREET_TYPES with
       | Some abbrev => abbrev
       | None => run
       end.

(** No later pass of [t] changes the abbreviation [v] into something
    else. *)
Definition stable (v : string) (t : list (string * string)) : bool :=
  forallb (fun kv : string * string =>
             implb (same_word true (fst kv) v) (String.eqb (snd kv) v)) t.

(** A table of lower-case keys whose abbreviations later passes leave
    alone. *)
Fixpoint table_ok (t : list (string * string)) : bool :=
  match t with
  | [] => true
  | (k, v) :: t' => String.eqb (lower k) k && stable v t' && table_ok t'
  end.

(** The text after a run: empty, or starting with a character that is
    not a word character. *)
Definition ends_word (rest : string) : bool := negb (is_word_opt (head_char rest)).

(** A non-empty run of word characters ([b] true) or of other
    characters ([b] false). *)
Definition run_of (b : bool) (r : string) : bool :=
  nonempty r && sforall (fun c => Bool.eqb (is_word_char c) b) r.

(** Runs of alternating kinds, the first of kind [b]. *)
Fixpoint alternating (b : bool) (rs : list string) : bool :=
  match rs with
  | [] => true
  | r :: rs' => run_of b r && alternating (negb b) rs'
  end.

(** The text after a run of kind [b]: empty, or starting with a
    character of the other kind. *)
Definition other_kind_next (b : bool) (rest : string) : bool :=
  match head_char rest with
  | None => true
  | Some c => Bool.eqb (is_word_char c) (negb b)
  end.

(** The character to the left of the position after [u]. *)
Definition last_or (u : string) (before : option ascii) : option ascii :=
  match last_char u with
  | Some c => Some c
  | None => before
  end.

(** A non-empty string of letters. *)
Definition all_letters (a : string) : bool := nonempty a && sforall is_alpha a.

(** *** Sessions written by the command *)

Definition failed_sessions (rows : list SessionRow) : Z :=
  Z.of_nat (List.length (List.filter (fun r => String.eqb (status r) "failed") rows)).

Definition sum_new (rows : list SessionRow) : Z :=
  fold_right (fun r acc => (listings_new r + acc)%Z) 0%Z rows.

Definition sum_duplicates (rows : list SessionRow) : Z :=
  fold_right (fun r acc => (listings_duplicates r + acc)%Z) 0%Z rows.

(** The names of a list that the configuration enables. *)
Definition enabled_names (sites : list SiteConfig.Site) (names : list string)
  : list string :=
  List.filter (fun name => SiteConfig.is_site_enabled name sites) names.

(** A context with two enabled sources, one of which cannot be built,
    and a disabled one. *)
Definition demo_context : Main.ScraperContext :=
  {| Main.db := empty_db;
     Main.site_config :=
       [ {| SiteConfig.site_name := Some "FSBO.com";
            SiteConfig.site_scraper := Some "fsbo_com";
            SiteConfig.site_enabled := Some true |};
         {| SiteConfig.site_name := Some "Zillow FSBO";
            SiteConfig.site_scraper := Some "zillow_fsbo";
            SiteConfig.site_enabled := Some true |};
         {| SiteConfig.site_name := Some "Craigslist Housing";
            SiteConfig.site_scraper := Some "craigslist_housing";
            SiteConfig.site_enabled := Some false |} ];
     Main.scrapers :=
       [ ("fsbo_com", fun _ => Ok three_targets);
         ("zillow_fsbo", fun _ => Raise (OtherError "browser not installed"));
         ("craigslist_housing", fun _ => Ok three_targets) ] |}.

(** *** Text beyond ASCII *)

(** Two raw fields differ only by letter case or surrounding whitespace,
    on text with the two sharp s. *)
Definition same_unicode_text (s1 s2 : Unicode.text) : Prop :=
  match Unicode.lower (Unicode.strip s1), Unicode.lower (Unicode.strip s2) with
  | Some t1, Some t2 => t1 = t2
  | _, _ => False
  end.

(** The city names U+1E9E x and U+00DF x. *)
Definition city_capital_sharp_s : Unicode.text := [Unicode.CAPITAL_SHARP_S; 120%N].
Definition city_small_sharp_s : Unicode.text := [Unicode.SHARP_S; 120%N].

(** A raw candidate of ASCII text. *)
Definition ascii_candidate (r : RawListing) : bool :=
  isascii (raw_street r) && isascii (raw_city r)
  && isascii (raw_state r) && isascii (raw_zip_code r).

(** *** Sleeps of the retry wrapper *)

(** A length that [time.sleep] accepts on every platform: not negative
    (a negative one raises [ValueError]) and below the 2^32 - 1
    milliseconds of the narrowest timer (a longer one raises
    [OverflowError]). *)
Definition MAX_SLEEP : Q := 4294967.

Definition sleepable (seconds : Q) : Prop := (0 <= seconds <= MAX_SLEEP)%Q.

(** The sleeps before attempt [k] are accepted. *)
Definition sleeps_before (config : RetryConfig) (k : nat) : Prop :=
  forall j, (j < k)%nat -> sleepable (Qpower (backoff_factor config) (Z.of_nat j)).

(** *** Statements that raise *)

Import Effects.

Definition quiet (faults : Faults) (p : point) : bool :=
  match faults p with None => true | Some _ => false end.

(** Nothing raises once the completed session is recorded, and the
    handler can echo and record. *)
Definition session_recordable (faults : Faults) : Prop :=
  faults Close = None /\ faults EchoComplete = None
  /\ faults EchoError = None /\ faults RecordFailed = None.

(** The listings are inserted and the completed session recorded
    without an exception. *)
Definition persisting (faults : Faults) : Prop :=
  faults RecordCompleted = None /\ forall i, faults (InsertListing i) = None.





End Vocabulary.

(* ===================================================================== *)
(** * Properties *)
(* ===================================================================== *)

(** ** The model on known values *)

(** The RFC 1321 test suite and two block-boundary lengths. *)
Example md5_test_suite :
  MD5.hexdigest "" = "d41d8cd98f00b204e9800998ecf8427e"
  /\ MD5.hexdigest "a" = "0cc175b9c0f1b6a831c399e269772661"
  /\ MD5.hexdigest "abc" = "900150983cd24fb0d6963f7d28e17f72"
  /\ MD5.hexdigest "message digest" = "f96b697d7cb7938d525a2f31aaf161d0"
  /\ MD5.hexdigest "abcdefghijklmnopqrstuvwxyz" = "c3fcd3d76192e4007dfb496cca67e13b"
  /\ MD5.hexdigest "aaaaaaaaaaaaaaaaaaaaaaaaaaaaaaaaaaaaaaaaaaaaaaaaaaaaaaaa"
     = "3b0c8ac703f828b04c6c197006d17218"
  /\ MD5.hexdigest "aaaaaaaaaaaaaaaaaaaaaaaaaaaaaaaaaaaaaaaaaaaaaaaaaaaaaaaaaaaaaaaa"
     = "014842d480b571495a4a0363793f7367".
Proof. vm_compute. repeat split. Qed.

Example normalize_zip_values :
  AddressNormalizer.normalize_zip "62701" = "62701"
  /\ AddressNormalizer.normalize_zip "62701-1234" = "62701-1234"
  /\ AddressNormalizer.normalize_zip "627011234" = "62701-1234"
  /\ AddressNormalizer.normalize_zip "62701 " = "62701"
  /\ AddressNormalizer.normalize_zip "62" = "".
Proof. vm_compute. repeat split. Qed.

Example normalize_values :
  AddressNormalizer.normalize_street "123 main street" = "123 Main St"
  /\ AddressNormalizer.normalize_street "  456   oak AVENUE " = "456 Oak Ave"
  /\ AddressNormalizer.normalize_city " new   york city" = "New York City"
  /\ AddressNormalizer.normalize_state "illinois" = "IL"
  /\ AddressNormalizer.normalize_state "ca" = "CA"
  /\ AddressNormalizer.normalize_state "TX" = "TX"
  /\ AddressNormalizer.normalize_state "Atlantis" = "ATLANTIS".
Proof. vm_compute. repeat split. Qed.

(** One candidate through normalisation, validity, insertion and an
    export without filters: a header and one data row. *)
Example springfield_end_to_end :
  let a := AddressNormalizer.normalize_address
             "123 main street" "springfield" "illinois" "62701" in
  let insert :=
    FSBODatabase.add_listing 0%Z
      (AddressNormalizer.street a) (AddressNormalizer.city a)
      (AddressNormalizer.state a) (AddressNormalizer.zip_code a)
      (Some "https://fsbo.com/1") "FSBO.com" None FSBODatabase.empty_db in
  a = {| AddressNormalizer.street := "123 Main St";
         AddressNormalizer.city := "Springfield";
         AddressNormalizer.state := "IL";
         AddressNormalizer.zip_code := "62701" |}
  /\ AddressNormalizer.is_valid_address "123 Main St" "Springfield" "IL" "62701" = true
  /\ fst insert = Some 1%Z
  /\ fst (FSBODatabase.export_to_csv "out.csv" None false (snd insert))
     = Some {| FSBODatabase.csv_path := "out.csv";
               FSBODatabase.csv_header :=
                 ["id"; "street"; "city"; "state"; "zip_code";
                  "listing_url"; "source_website"; "scraped_at"];
               FSBODatabase.csv_rows :=
                 [[FSBODatabase.CInt 1; FSBODatabase.CText "123 Main St";
                   FSBODatabase.CText "Springfield"; FSBODatabase.CText "IL";
                   FSBODatabase.CText "62701";
                   FSBODatabase.CText "https://fsbo.com/1";
                   FSBODatabase.CText "FSBO.com"; FSBODatabase.CTime 0%Z]] |}.
Proof. vm_compute. repeat split. Qed.

(** ** Characters and strings *)

Module PyStrFacts.
Import PyStr.

Ltac by_cases_on_char c :=
  destruct c as [[] [] [] [] [] [] [] []]; vm_compute; reflexivity.

Lemma is_space_lower_char c : is_space (lower_char c) = is_space c.
Proof. by_cases_on_char c. Qed.

Lemma is_alpha_lower_char c : is_alpha (lower_char c) = is_alpha c.
Proof. by_cases_on_char c. Qed.

Lemma lower_char_idem c : lower_char (lower_char c) = lower_char c.
Proof. by_cases_on_char c. Qed.

Lemma upper_lower_char c : upper_char (lower_char c) = upper_char c.
Proof. by_cases_on_char c. Qed.

Lemma lower_char_not_alpha c : is_alpha c = false -> lower_char c = c.
Proof.
  destruct c as [[] [] [] [] [] [] [] []]; vm_compute; congruence.
Qed.

Lemma lower_app s t : lower (s ++ t) = lower s ++ lower t.
Proof.
  unfold lower. induction s as [|c s IH]; simpl; [reflexivity|].
  rewrite IH. reflexivity.
Qed.

Lemma nonempty_lower s : nonempty (lower s) = nonempty s.
Proof. destruct s; reflexivity. Qed.

Lemma starts_word_lower s : starts_word (lower s) = starts_word s.
Proof. destruct s as [|c s]; simpl; [reflexivity | now rewrite is_space_lower_char]. Qed.

Lemma lstrip_lower s : lstrip (lower s) = lower (lstrip s).
Proof.
  induction s as [|c s IH]; simpl; [reflexivity|].
  rewrite is_space_lower_char. destruct (is_space c); [exact IH | reflexivity].
Qed.

Lemma rstrip_lower s : rstrip (lower s) = lower (rstrip s).
Proof.
  induction s as [|c s IH]; simpl; [reflexivity|].
  fold (lower s). rewrite IH, nonempty_lower, is_space_lower_char.
  destruct (is_space c && negb (nonempty (rstrip s)))%bool; reflexivity.
Qed.

Lemma strip_lower s : strip (lower s) = lower (strip s).
Proof. unfold strip. now rewrite rstrip_lower, lstrip_lower. Qed.

Lemma cons_head_lower c ws :
  cons_head (lower_char c) (List.map lower ws) = List.map lower (cons_head c ws).
Proof. destruct ws; reflexivity. Qed.

Lemma split_lower s : split (lower s) = List.map lower (split s).
Proof.
  induction s as [|c s IH]; simpl; [reflexivity|].
  fold (lower s). rewrite is_space_lower_char, starts_word_lower, IH.
  destruct (is_space c); [reflexivity|].
  destruct (starts_word s); [apply cons_head_lower | reflexivity].
Qed.

Lemma join_lower sep ws :
  join (lower sep) (List.map lower ws) = lower (join sep ws).
Proof.
  induction ws as [|w ws IH]; [reflexivity|].
  destruct ws as [|w' ws]; [reflexivity|].
  change (lower w ++ lower sep ++ join (lower sep) (List.map lower (w' :: ws))
          = lower (w ++ sep ++ join sep (w' :: ws))).
  now rewrite IH, !lower_app.
Qed.

Lemma title_from_lower b s : title_from b (lower s) = title_from b s.
Proof.
  revert b; induction s as [|c s IH]; intro b; simpl; [reflexivity|].
  fold (lower s). rewrite is_alpha_lower_char, !IH.
  destruct (is_alpha c) eqn:Ha.
  - now rewrite lower_char_idem, upper_lower_char.
  - now rewrite lower_char_not_alpha.
Qed.

Lemma split_lstrip s : split (lstrip s) = split s.
Proof.
  induction s as [|c s IH]; simpl; [reflexivity|].
  destruct (is_space c) eqn:Hc; [exact IH|]. simpl. now rewrite Hc.
Qed.

Lemma starts_word_rstrip s : starts_word (rstrip s) = starts_word s.
Proof.
  destruct s as [|c s]; simpl; [reflexivity|].
  destruct (is_space c) eqn:Hc; simpl.
  - destruct (nonempty (rstrip s)); simpl; [now rewrite Hc | reflexivity].
  - now rewrite Hc.
Qed.

Lemma split_empty_of_rstrip s : nonempty (rstrip s) = false -> split s = [].
Proof.
  induction s as [|c s IH]; simpl; [reflexivity|].
  destruct (is_space c) eqn:Hc; simpl.
  - destruct (nonempty (rstrip s)) eqn:Hr; simpl; [discriminate | intros _; now apply IH].
  - discriminate.
Qed.

Lemma split_rstrip s : split (rstrip s) = split s.
Proof.
  induction s as [|c s IH]; simpl; [reflexivity|].
  destruct (is_space c) eqn:Hc; simpl.
  - destruct (nonempty (rstrip s)) eqn:Hr; simpl.
    + now rewrite Hc.
    + symmetry. now apply split_empty_of_rstrip.
  - now rewrite Hc, starts_word_rstrip, IH.
Qed.

Lemma split_strip s : split (strip s) = split s.
Proof. unfold strip. now rewrite split_lstrip, split_rstrip. Qed.

(** Whitespace collapsing followed by title-casing sees only the
    trimmed, case-folded text. *)
Lemma title_join_split_fold s :
  title (join " " (split s)) = title (join " " (split (lower (strip s)))).
Proof.
  unfold title.
  rewrite <- strip_lower, split_strip, split_lower.
  change " " with (lower " ") at 2.
  now rewrite join_lower, title_from_lower.
Qed.

End PyStrFacts.

(** ** Address normalisation *)

Module NormalizerFacts.
Import PyStr PyStrFacts AddressNormalizer Vocabulary.

Lemma normalize_street_unfold s :
  normalize_street s = abbreviate_street (title (join " " (split s))).
Proof. destruct s; [vm_compute|]; reflexivity. Qed.

Lemma normalize_city_unfold s :
  normalize_city s = strip (title (join " " (split s))).
Proof. destruct s; [vm_compute|]; reflexivity. Qed.

Lemma normalize_state_unfold s :
  normalize_state s = state_of_folded (lower (strip s)).
Proof. destruct s; [vm_compute|]; reflexivity. Qed.

Lemma normalize_street_same_text s1 s2 :
  same_text s1 s2 -> normalize_street s1 = normalize_street s2.
Proof.
  unfold same_text; intros H.
  rewrite !normalize_street_unfold.
  rewrite (title_join_split_fold s1), (title_join_split_fold s2).
  now rewrite H.
Qed.

Lemma normalize_city_same_text s1 s2 :
  same_text s1 s2 -> normalize_city s1 = normalize_city s2.
Proof.
  unfold same_text; intros H.
  rewrite !normalize_city_unfold.
  rewrite (title_join_split_fold s1), (title_join_split_fold s2).
  now rewrite H.
Qed.

Lemma normalize_state_same_text s1 s2 :
  same_text s1 s2 -> normalize_state s1 = normalize_state s2.
Proof.
  unfold same_text; intros H. rewrite !normalize_state_unfold. now rewrite H.
Qed.

Lemma state_table_ok : forallb entry_ok STATE_ABBREV = true.
Proof. vm_compute. reflexivity. Qed.

End NormalizerFacts.

(** ** The fingerprint store *)

Module DatabaseFacts.
Import PyStr FSBODatabase.
Local Open Scope Z_scope.

Lemma hash_stored_app h db row :
  existsb (fun r => String.eqb h (listing_hash r)) (listings db ++ [row])
  = (hash_stored h db || String.eqb h (listing_hash row))%bool.
Proof. unfold hash_stored. rewrite existsb_app. simpl. now rewrite orb_false_r. Qed.

(** A duplicate insert writes nothing. *)
Lemma add_listing_duplicate now st ci sa zi url src nt db :
  hash_stored (_generate_hash st ci sa zi) db = true ->
  add_listing now st ci sa zi url src nt db = (None, db).
Proof. intros H. unfold add_listing. now rewrite H. Qed.

(** After an insert attempt the fingerprint is stored, new or not. *)
Lemma add_listing_stored now st ci sa zi url src nt db :
  hash_stored (_generate_hash st ci sa zi)
              (snd (add_listing now st ci sa zi url src nt db)) = true.
Proof.
  unfold add_listing.
  destruct (hash_stored (_generate_hash st ci sa zi) db) eqn:H; simpl; [exact H|].
  unfold hash_stored at 1; simpl. rewrite hash_stored_app. simpl.
  rewrite String.eqb_refl. apply orb_true_r.
Qed.

(** Stored fingerprints stay stored. *)
Lemma add_listing_keeps h now st ci sa zi url src nt db :
  hash_stored h db = true ->
  hash_stored h (snd (add_listing now st ci sa zi url src nt db)) = true.
Proof.
  intros Hh. unfold add_listing.
  destruct (hash_stored (_generate_hash st ci sa zi) db); simpl; [exact Hh|].
  unfold hash_stored at 1; simpl. rewrite hash_stored_app, Hh. reflexivity.
Qed.

Lemma add_listing_row_count now st ci sa zi url src nt db :
  List.length (listings (snd (add_listing now st ci sa zi url src nt db)))
  = if hash_stored (_generate_hash st ci sa zi) db
    then List.length (listings db)
    else S (List.length (listings db)).
Proof.
  unfold add_listing.
  destruct (hash_stored (_generate_hash st ci sa zi) db); simpl; [reflexivity|].
  rewrite length_app. simpl. lia.
Qed.

Lemma hash_stored_elem h db :
  hash_stored h db = true <-> h ∈ Vocabulary.stored_fingerprints db.
Proof.
  unfold hash_stored, Vocabulary.stored_fingerprints.
  rewrite elem_of_list_to_set, list_elem_of_In, in_map_iff, existsb_exists.
  split; intros (r & H1 & H2).
  - exists r. apply String.eqb_eq in H2. now split.
  - exists r. split; [exact H2 | now apply String.eqb_eq].
Qed.

Lemma stored_fingerprints_add_new now l db :
  hash_stored (fingerprint l) db = false ->
  Vocabulary.stored_fingerprints (snd (add_listing_dict now l db))
  = {[fingerprint l]} ∪ Vocabulary.stored_fingerprints db.
Proof.
  intros H. unfold add_listing_dict, add_listing. fold (fingerprint l). rewrite H.
  unfold Vocabulary.stored_fingerprints; simpl.
  rewrite List.map_app, list_to_set_app_L. simpl.
  now rewrite (right_id_L ∅ (∪)), (comm_L (∪)).
Qed.

Lemma add_listing_dict_cases now l db :
  (hash_stored (fingerprint l) db = true /\ add_listing_dict now l db = (None, db))
  \/ (hash_stored (fingerprint l) db = false
      /\ exists i db', add_listing_dict now l db = (Some i, db')).
Proof.
  unfold add_listing_dict, add_listing. fold (fingerprint l).
  destruct (hash_stored (fingerprint l) db); [left | right]; eauto.
Qed.

(** In a batch [A, A, B] over nothing seen, A counts once and B counts
    when its fingerprint differs. *)
Lemma count_new_twice_then_other (A B : Listing) :
  fingerprint A <> fingerprint B ->
  Vocabulary.count_new ∅ [A; A; B] = 2%nat.
Proof.
  intros Hne. simpl.
  destruct (decide (fingerprint A ∈ (∅ : gset string))) as [H|_];
    [now apply not_elem_of_empty in H|].
  destruct (decide (fingerprint A ∈ ({[fingerprint A]} ∪ ∅ : gset string))) as [_|H];
    [|exfalso; apply H, elem_of_union_l, elem_of_singleton; reflexivity].
  destruct (decide (fingerprint B ∈ ({[fingerprint A]} ∪ ∅ : gset string))) as [H|_];
    [|reflexivity].
  apply elem_of_union in H as [H|H].
  - apply elem_of_singleton in H. congruence.
  - now apply not_elem_of_empty in H.
Qed.

(** The counters of the loop advance by the fresh and the repeated
    fingerprints of the batch. *)
Lemma bulk_add_loop_counts clock batch :
  forall i n d db,
    fst (bulk_add_loop clock i batch n d db)
    = (n + Z.of_nat (Vocabulary.count_new (Vocabulary.stored_fingerprints db) batch),
       d + (Z.of_nat (List.length batch)
            - Z.of_nat (Vocabulary.count_new (Vocabulary.stored_fingerprints db) batch))).
Proof.
  induction batch as [|l rest IH]; intros i n d db.
  - simpl. f_equal; lia.
  - cbn [bulk_add_loop Vocabulary.count_new List.length].
    destruct (add_listing_dict_cases (clock i) l db)
      as [[Hs Hadd] | [Hs (j & db' & Hadd)]].
    + rewrite Hadd.
      destruct (decide (fingerprint l ∈ Vocabulary.stored_fingerprints db)) as [_|Hn].
      * rewrite IH. f_equal; lia.
      * exfalso. apply Hn. now apply hash_stored_elem.
    + pose proof (stored_fingerprints_add_new (clock i) l db Hs) as Hset.
      rewrite Hadd in *. simpl in Hset.
      destruct (decide (fingerprint l ∈ Vocabulary.stored_fingerprints db)) as [Hin|_].
      * apply hash_stored_elem in Hin. congruence.
      * rewrite IH, Hset. f_equal; lia.
Qed.

End DatabaseFacts.

(** ** Claims on the normaliser and the fingerprint *)

Import PyStr AddressNormalizer Vocabulary NormalizerFacts.

(** C7. For every entry (name, code) of the state table and every input
    that spells the full name or the two-letter code in any letter case,
    [normalize_state] returns the code, and normalising the result again
    changes nothing. *)
Theorem normalize_state_correct_idempotent (name abbrev s : string) :
  In (name, abbrev) STATE_ABBREV ->
  lower s = name \/ lower s = lower abbrev ->
  normalize_state s = abbrev /\
  normalize_state (normalize_state s) = normalize_state s.
Proof.
  intros Hin Hs.
  pose proof state_table_ok as Hall.
  rewrite forallb_forall in Hall. specialize (Hall _ Hin).
  unfold entry_ok in Hall. apply andb_prop in Hall as [Hname Hcode].
  apply String.eqb_eq in Hname, Hcode.
  assert (Hfirst : normalize_state s = abbrev).
  { rewrite normalize_state_unfold, <- PyStrFacts.strip_lower.
    destruct Hs as [-> | ->]; assumption. }
  split; [exact Hfirst|].
  rewrite Hfirst.
  now rewrite normalize_state_unfold, <- PyStrFacts.strip_lower.
Qed.

Lemma normalize_state_correct_idempotent_witness :
  normalize_state "iLLinois" = "IL" /\
  normalize_state (normalize_state "iLLinois") = normalize_state "iLLinois".
Proof.
  apply (normalize_state_correct_idempotent "illinois" "IL" "iLLinois").
  - do 12 right. left. reflexivity.
  - left. reflexivity.
Defined.

(** On the ASCII functions: two raw candidates whose street, city and
    state differ only by letter case or surrounding whitespace, with the
    same zip, normalise to the same fingerprint; inserting the second
    after the first is reported as a duplicate and writes nothing, so
    from an empty store exactly one row results. *)
Lemma same_text_one_row
        (street1 street2 city1 city2 state1 state2 zip : string) :
  same_text street1 street2 ->
  same_text city1 city2 ->
  same_text state1 state2 ->
  let a1 := normalize_address street1 city1 state1 zip in
  let a2 := normalize_address street2 city2 state2 zip in
  let insert a now url src nt db :=
    FSBODatabase.add_listing now (street a) (city a) (state a) (zip_code a)
                             url src nt db in
  FSBODatabase._generate_hash (street a1) (city a1) (state a1) (zip_code a1)
  = FSBODatabase._generate_hash (street a2) (city a2) (state a2) (zip_code a2)
  /\ (forall now1 now2 url1 url2 src1 src2 nt1 nt2 db,
        let db1 := snd (insert a1 now1 url1 src1 nt1 db) in
        insert a2 now2 url2 src2 nt2 db1 = (None, db1))
  /\ (forall now1 now2 url1 url2 src1 src2 nt1 nt2,
        List.length
          (FSBODatabase.listings
             (snd (insert a2 now2 url2 src2 nt2
                     (snd (insert a1 now1 url1 src1 nt1 FSBODatabase.empty_db)))))
        = 1%nat).
Proof.
  intros Hstreet Hcity Hstate a1 a2 insert.
  assert (Heq : a1 = a2).
  { unfold a1, a2, normalize_address.
    now rewrite (normalize_street_same_text _ _ Hstreet),
                (normalize_city_same_text _ _ Hcity),
                (normalize_state_same_text _ _ Hstate). }
  assert (Hdup : forall now1 now2 url1 url2 src1 src2 nt1 nt2 db,
             insert a2 now2 url2 src2 nt2 (snd (insert a1 now1 url1 src1 nt1 db))
             = (None, snd (insert a1 now1 url1 src1 nt1 db))).
  { intros. unfold insert. rewrite <- Heq.
    apply DatabaseFacts.add_listing_duplicate, DatabaseFacts.add_listing_stored. }
  split; [now rewrite Heq|]. split.
  - intros. apply Hdup.
  - intros. rewrite Hdup. reflexivity.
Qed.

(** C2 (as amended). Two raw candidates of ASCII text whose street, city
    and state differ only by letter case or surrounding whitespace, with
    the same zip, normalise to the same fingerprint; inserting the
    second after the first is reported as a duplicate and writes
    nothing, so from an empty store exactly one row results. *)
Theorem same_text_same_fingerprint
        (street1 street2 city1 city2 state1 state2 zip : string) :
  isascii street1 = true -> isascii street2 = true ->
  isascii city1 = true -> isascii city2 = true ->
  isascii state1 = true -> isascii state2 = true ->
  isascii zip = true ->
  same_text street1 street2 ->
  same_text city1 city2 ->
  same_text state1 state2 ->
  let a1 := normalize_address street1 city1 state1 zip in
  let a2 := normalize_address street2 city2 state2 zip in
  let insert a now url src nt db :=
    FSBODatabase.add_listing now (street a) (city a) (state a) (zip_code a)
                             url src nt db in
  FSBODatabase._generate_hash (street a1) (city a1) (state a1) (zip_code a1)
  = FSBODatabase._generate_hash (street a2) (city a2) (state a2) (zip_code a2)
  /\ (forall now1 now2 url1 url2 src1 src2 nt1 nt2 db,
        let db1 := snd (insert a1 now1 url1 src1 nt1 db) in
        insert a2 now2 url2 src2 nt2 db1 = (None, db1))
  /\ (forall now1 now2 url1 url2 src1 src2 nt1 nt2,
        List.length
          (FSBODatabase.listings
             (snd (insert a2 now2 url2 src2 nt2
                     (snd (insert a1 now1 url1 src1 nt1 FSBODatabase.empty_db)))))
        = 1%nat).
Proof.
  intros _ _ _ _ _ _ _. apply same_text_one_row.
Qed.

Lemma same_text_same_fingerprint_witness :
  FSBODatabase._generate_hash "123 Main St" "Springfield" "IL" "62701"
  = FSBODatabase._generate_hash
      (normalize_street "  123 MAIN street ") (normalize_city "SPRINGFIELD")
      (normalize_state " Illinois") (normalize_zip "62701").
Proof.
  exact (proj1 (same_text_same_fingerprint
                  "123 main street" "  123 MAIN street "
                  "springfield" "SPRINGFIELD" "illinois" " Illinois" "62701"
                  eq_refl eq_refl eq_refl eq_refl eq_refl eq_refl eq_refl
                  eq_refl eq_refl eq_refl)).
Defined.

(** ** The functions on code points and the ASCII functions *)

Module UnicodeFacts.
Import PyStr AddressNormalizer Vocabulary.
Local Open Scope list_scope.

Lemma isascii_cons c s :
  isascii (String c s) = (Nat.ltb (code c) 128 && isascii s)%bool.
Proof. reflexivity. Qed.

Lemma isascii_app s t : isascii (s ++ t)%string = (isascii s && isascii t)%bool.
Proof.
  induction s as [|c s IH]; [reflexivity|].
  change (String c s ++ t)%string with (String c (s ++ t)%string).
  rewrite !isascii_cons, IH. now rewrite andb_assoc.
Qed.

(** Character by character. *)
Lemma isspace_of_ascii c : Unicode.isspace (N_of_ascii c) = is_space c.
Proof. destruct c as [[] [] [] [] [] [] [] []]; vm_compute; reflexivity. Qed.

Lemma ascii_char c :
  Nat.ltb (code c) 128 = true ->
  Unicode.is_ascii (N_of_ascii c) = true
  /\ Unicode.iscased (N_of_ascii c) = is_alpha c
  /\ Unicode.lower_char (N_of_ascii c) = Some [N_of_ascii (lower_char c)]
  /\ Unicode.title_char (N_of_ascii c) = Some [N_of_ascii (upper_char c)]
  /\ Unicode.utf8 (N_of_ascii c) = [N_of_ascii c]
  /\ Nat.ltb (code (lower_char c)) 128 = true
  /\ Nat.ltb (code (upper_char c)) 128 = true.
Proof.
  destruct c as [[] [] [] [] [] [] [] []]; vm_compute;
    intros H; try discriminate H; repeat split.
Qed.

Lemma not_alpha_case c :
  is_alpha c = false -> lower_char c = c /\ upper_char c = c.
Proof.
  destruct c as [[] [] [] [] [] [] [] []]; vm_compute;
    intros H; try discriminate H; split; reflexivity.
Qed.

Lemma of_str_cons c s :
  Unicode.of_str (String c s) = N_of_ascii c :: Unicode.of_str s.
Proof. reflexivity. Qed.

Lemma of_str_app s t :
  Unicode.of_str (s ++ t)%string = Unicode.of_str s ++ Unicode.of_str t.
Proof.
  induction s as [|c s IH]; [reflexivity|].
  change (String c s ++ t)%string with (String c (s ++ t)%string).
  now rewrite !of_str_cons, IH.
Qed.

Lemma nonempty_of_str s : Unicode.nonempty (Unicode.of_str s) = nonempty s.
Proof. destruct s; reflexivity. Qed.

Lemma known_of_str s : isascii s = true -> forallb Unicode.known (Unicode.of_str s) = true.
Proof.
  induction s as [|c s IH]; [reflexivity|]. rewrite isascii_cons, of_str_cons.
  intros H. apply andb_prop in H as [Hc Hs]. cbn [forallb].
  rewrite (IH Hs). unfold Unicode.known.
  destruct (ascii_char c Hc) as (-> & _). reflexivity.
Qed.

(** [strip], [split] and [join] *)
Lemma lstrip_of_str s : Unicode.lstrip (Unicode.of_str s) = Unicode.of_str (lstrip s).
Proof.
  induction s as [|c s IH]; [reflexivity|].
  rewrite of_str_cons. cbn [Unicode.lstrip lstrip]. rewrite isspace_of_ascii.
  destruct (is_space c); [exact IH | reflexivity].
Qed.

Lemma rstrip_of_str s : Unicode.rstrip (Unicode.of_str s) = Unicode.of_str (rstrip s).
Proof.
  induction s as [|c s IH]; [reflexivity|].
  rewrite of_str_cons. cbn [Unicode.rstrip rstrip]. cbv zeta.
  rewrite IH, isspace_of_ascii, nonempty_of_str.
  destruct (is_space c && negb (nonempty (rstrip s)))%bool; reflexivity.
Qed.

Lemma strip_of_str s : Unicode.strip (Unicode.of_str s) = Unicode.of_str (strip s).
Proof. unfold Unicode.strip, strip. now rewrite rstrip_of_str, lstrip_of_str. Qed.

Lemma split_of_str s :
  Unicode.split (Unicode.of_str s) = List.map Unicode.of_str (split s).
Proof.
  induction s as [|c s IH]; [reflexivity|].
  rewrite of_str_cons. cbn [Unicode.split split]. rewrite isspace_of_ascii, IH.
  assert (Hsw : Unicode.starts_word (Unicode.of_str s) = starts_word s).
  { destruct s as [|c' s]; [reflexivity|]. simpl. now rewrite isspace_of_ascii. }
  rewrite Hsw. destruct (is_space c); [reflexivity|].
  destruct (starts_word s); [|reflexivity].
  destruct (split s); reflexivity.
Qed.

Lemma join_of_str sep ws :
  Unicode.join (Unicode.of_str sep) (List.map Unicode.of_str ws)
  = Unicode.of_str (join sep ws).
Proof.
  induction ws as [|w ws IH]; [reflexivity|].
  destruct ws as [|w' ws]; [reflexivity|].
  change (join sep (w :: w' :: ws)) with (w ++ sep ++ join sep (w' :: ws))%string.
  rewrite !of_str_app, <- IH. reflexivity.
Qed.

Lemma isascii_split s :
  isascii s = true -> Forall (fun w => isascii w = true) (split s).
Proof.
  induction s as [|c s IH]; [constructor|]. rewrite isascii_cons.
  intros H. apply andb_prop in H as [Hc Hs]. specialize (IH Hs).
  cbn [split]. destruct (is_space c); [exact IH|].
  assert (Hone : isascii (String c "") = true) by now rewrite isascii_cons, Hc.
  destruct (starts_word s).
  - destruct IH as [|w ws Hw Hws]; cbn [cons_head].
    + constructor; [exact Hone | constructor].
    + constructor; [|exact Hws]. cbn beta. now rewrite isascii_cons, Hc, Hw.
  - constructor; [exact Hone | exact IH].
Qed.

Lemma isascii_join sep ws :
  isascii sep = true -> Forall (fun w => isascii w = true) ws ->
  isascii (join sep ws) = true.
Proof.
  intros Hsep. induction 1 as [|w ws Hw Hws IH]; [reflexivity|].
  destruct ws as [|w' ws]; [exact Hw|].
  change (join sep (w :: w' :: ws)) with (w ++ sep ++ join sep (w' :: ws))%string.
  now rewrite !isascii_app, Hw, Hsep, IH.
Qed.

(** [title] and [lower] *)
Lemma title_from_of_str s : forall prev_cased,
  isascii s = true ->
  Unicode.title_from prev_cased (Unicode.of_str s)
  = Some (Unicode.of_str (title_from prev_cased s)).
Proof.
  induction s as [|c s IH]; intros prev_cased; [reflexivity|].
  rewrite isascii_cons, of_str_cons. intros H. apply andb_prop in H as [Hc Hs].
  cbn [Unicode.title_from title_from].
  destruct (ascii_char c Hc) as (_ & Hcased & Hlow & Htitle & _).
  rewrite Hcased, Hlow, Htitle, (IH _ Hs).
  destruct (is_alpha c) eqn:Ha.
  - destruct prev_cased; reflexivity.
  - destruct (not_alpha_case c Ha) as [-> ->]. destruct prev_cased; reflexivity.
Qed.

Lemma lower_of_str s :
  isascii s = true ->
  Unicode.lower (Unicode.of_str s) = Some (Unicode.of_str (lower s))
  /\ isascii (lower s) = true.
Proof.
  induction s as [|c s IH]; [split; reflexivity|].
  rewrite isascii_cons, of_str_cons. intros H. apply andb_prop in H as [Hc Hs].
  destruct (IH Hs) as [IH1 IH2].
  destruct (ascii_char c Hc) as (_ & _ & Hlow & _ & _ & Hlc & _).
  cbn [Unicode.lower]. rewrite Hlow, IH1. split; [reflexivity|].
  change (lower (String c s)) with (String (lower_char c) (lower s)).
  now rewrite isascii_cons, Hlc, IH2.
Qed.

(** [encode] on ASCII text gives the text. *)
Lemma encode_of_str s : isascii s = true -> Unicode.encode (Unicode.of_str s) = s.
Proof.
  unfold Unicode.encode.
  induction s as [|c s IH]; [reflexivity|].
  rewrite isascii_cons, of_str_cons. intros H. apply andb_prop in H as [Hc Hs].
  destruct (ascii_char c Hc) as (_ & _ & _ & _ & Hutf & _).
  cbn [flat_map]. rewrite Hutf. cbn [List.app List.map string_of_list_ascii].
  now rewrite ascii_N_embedding, (IH Hs).
Qed.

(** On ASCII text [Unicode.normalize_city] is
    [AddressNormalizer.normalize_city]. *)
Lemma normalize_city_of_str s :
  isascii s = true ->
  Unicode.normalize_city (Unicode.of_str s)
  = Some (Unicode.of_str (normalize_city s)).
Proof.
  intros Hs. unfold Unicode.normalize_city, normalize_city.
  rewrite (known_of_str s Hs), nonempty_of_str. cbn [negb].
  destruct (nonempty s); [|reflexivity]. cbn [negb]. cbv zeta.
  change [32%N] with (Unicode.of_str " ").
  rewrite split_of_str, join_of_str. unfold Unicode.title, title.
  rewrite title_from_of_str
    by (apply isascii_join; [reflexivity | now apply isascii_split]).
  cbn [option_map]. now rewrite strip_of_str.
Qed.

(** On ASCII text [Unicode._generate_hash] is
    [FSBODatabase._generate_hash]. *)
Lemma generate_hash_of_str street city state zip_code :
  isascii street = true -> isascii city = true ->
  isascii state = true -> isascii zip_code = true ->
  Unicode._generate_hash (Unicode.of_str street) (Unicode.of_str city)
                         (Unicode.of_str state) (Unicode.of_str zip_code)
  = Some (FSBODatabase._generate_hash street city state zip_code).
Proof.
  intros H1 H2 H3 H4. unfold Unicode._generate_hash, FSBODatabase._generate_hash.
  destruct (lower_of_str street H1) as [-> L1].
  destruct (lower_of_str city H2) as [-> L2].
  destruct (lower_of_str state H3) as [-> L3].
  cbv zeta. rewrite <- !of_str_app.
  rewrite encode_of_str; [reflexivity|].
  now rewrite !isascii_app, L1, L2, L3, H4.
Qed.

End UnicodeFacts.

(** C2 as stated fails beyond ASCII.  The cities U+1E9E x and U+00DF x
    differ only by letter case: both lower-case to U+00DF x.
    [str.title] keeps the first and turns the second into Ssx, so the
    hashed texts are 12 main st, U+00DF x, il, 62701 and 12 main st,
    ssx, il, 62701, and the two fingerprints differ. *)
Lemma sharp_s_cities_two_fingerprints :
  let street := Unicode.of_str "12 Main St" in
  let state := Unicode.of_str "IL" in
  let zip := Unicode.of_str "62701" in
  same_unicode_text city_capital_sharp_s city_small_sharp_s
  /\ Unicode.normalize_city city_capital_sharp_s = Some city_capital_sharp_s
  /\ Unicode.normalize_city city_small_sharp_s = Some (Unicode.of_str "Ssx")
  /\ Unicode.fingerprint street city_capital_sharp_s state zip
     = Some "3d42a73e3414874d2aaaaff7a9c3e1a4"
  /\ Unicode.fingerprint street city_small_sharp_s state zip
     = Some "36c70c89f5bd37d3cd9b639626d1848e"
  /\ Unicode.fingerprint street city_capital_sharp_s state zip
     <> Unicode.fingerprint street city_small_sharp_s state zip.
Proof. vm_compute. repeat split. discriminate. Qed.

(** C6 (the code departs from the claim). A compound direction word is
    cut to its first letter: Northeast and Northwest become N, Southeast
    and Southwest become S, where the claim has NE, NW, SE and SW. *)
Theorem normalize_street_compound_direction :
  normalize_street "456 Northeast Oak Avenue" = "456 N Oak Ave" /\
  normalize_street "12 southwest 1st street" = "12 S 1St St" /\
  normalize_street "9 NORTHWEST Elm Road" = "9 N Elm Rd" /\
  normalize_street "7 Southeast Pine Lane" = "7 S Pine Ln" /\
  normalize_street "123 north main street" = "123 N Main St".
Proof. vm_compute. repeat split. Qed.

(** ** Frame properties of the store *)

Module FrameFacts.
Import FSBODatabase Vocabulary.
Local Open Scope Z_scope.
Local Open Scope list_scope.

Lemma update_exported_with_export now j r :
  update_exported now j r = if id r =? j then with_export r 1 now else r.
Proof. reflexivity. Qed.

(** [mark_loop] acts on each row on its own. *)
Lemma mark_loop_cons clock ids : forall i r rows,
  mark_loop clock i ids (r :: rows)
  = mark_loop clock i ids [r] ++ mark_loop clock i ids rows.
Proof.
  induction ids as [|j ids IH]; intros i r rows; simpl; [reflexivity|].
  now rewrite IH.
Qed.

Lemma mark_loop_nil clock ids : forall i, mark_loop clock i ids [] = [].
Proof. induction ids as [|j ids IH]; intros i; simpl; [reflexivity | apply IH]. Qed.

Lemma mark_loop_one clock ids : forall i r,
  exists r', mark_loop clock i ids [r] = [r'] /\
    if id_listed (id r) ids
    then exists k, nth_error ids k = Some (id r)
                   /\ r' = with_export r 1 (clock (i + k)%nat)
    else r' = r.
Proof.
  induction ids as [|j ids IH]; intros i r.
  - exists r. split; reflexivity.
  - cbn [mark_loop List.map id_listed existsb].
    rewrite update_exported_with_export.
    destruct (id r =? j) eqn:Hj.
    + apply Z.eqb_eq in Hj. subst j.
      destruct (IH (S i) (with_export r 1 (clock i))) as (r' & Hrun & Hr').
      exists r'. split; [exact Hrun|]. simpl.
      change (id (with_export r 1 (clock i))) with (id r) in Hr'.
      fold (id_listed (id r) ids).
      destruct (id_listed (id r) ids).
      * destruct Hr' as (k & Hk & ->). exists (S k). split; [exact Hk|].
        replace (i + S k)%nat with (S i + k)%nat by lia. reflexivity.
      * subst r'. exists O. split; [reflexivity|].
        now replace (i + 0)%nat with i by lia.
    + destruct (IH (S i) r) as (r' & Hrun & Hr').
      exists r'. split; [exact Hrun|]. simpl.
      fold (id_listed (id r) ids).
      destruct (id_listed (id r) ids); [|exact Hr'].
      destruct Hr' as (k & Hk & ->). exists (S k). split; [exact Hk|].
      replace (i + S k)%nat with (S i + k)%nat by lia. reflexivity.
Qed.

Lemma mark_loop_marked clock ids rows :
  Forall2 (marked clock ids) rows (mark_loop clock 0 ids rows).
Proof.
  induction rows as [|r rows IH].
  - rewrite mark_loop_nil. constructor.
  - rewrite mark_loop_cons.
    destruct (mark_loop_one clock ids O r) as (r' & -> & Hr').
    constructor; [exact Hr' | exact IH].
Qed.

(** An insert attempt keeps the rows already there and the history. *)
Lemma add_listing_dict_frame now l db :
  (exists added, listings (snd (add_listing_dict now l db)) = listings db ++ added)
  /\ scrape_history (snd (add_listing_dict now l db)) = scrape_history db.
Proof.
  unfold add_listing_dict, add_listing.
  destruct (hash_stored _ db); simpl; split; try reflexivity.
  - exists []. now rewrite app_nil_r.
  - eexists. reflexivity.
Qed.

Lemma bulk_add_loop_frame clock batch : forall i n d db,
  (exists added,
      listings (snd (bulk_add_loop clock i batch n d db)) = listings db ++ added)
  /\ scrape_history (snd (bulk_add_loop clock i batch n d db)) = scrape_history db.
Proof.
  induction batch as [|l rest IH]; intros i n d db.
  - simpl. split; [exists []; now rewrite app_nil_r | reflexivity].
  - cbn [bulk_add_loop].
    destruct (add_listing_dict_frame (clock i) l db) as [[added Hadd] Hhist].
    destruct (add_listing_dict (clock i) l db) as [result db'] eqn:Hstep.
    simpl in Hadd, Hhist.
    destruct result as [j|].
    + destruct (IH (S i) (n + 1) d db') as [[added' Hadd'] Hhist'].
      split; [exists (added ++ added') | congruence].
      now rewrite Hadd', Hadd, <- app_assoc.
    + destruct (IH (S i) n (d + 1) db') as [[added' Hadd'] Hhist'].
      split; [exists (added ++ added') | congruence].
      now rewrite Hadd', Hadd, <- app_assoc.
Qed.

Lemma export_to_csv_db path source exported_only db :
  snd (export_to_csv path source exported_only db) = db.
Proof.
  unfold export_to_csv.
  destruct (get_listings None 0 source exported_only db) as [rows db'] eqn:Hget.
  assert (db' = db) as -> by (unfold get_listings in Hget; now inversion Hget).
  destruct rows; reflexivity.
Qed.

End FrameFacts.

(** ** Claims on the store *)

Import FSBODatabase DatabaseFacts.
Local Open Scope list_scope.

(** X30. The pair returned by [bulk_add_listings] counts as new the
    listings whose fingerprint is neither stored nor carried by an
    earlier listing of the batch, and as duplicates all the others, so
    the two counts add up to the batch length; for a batch [A, A, B]
    with different fingerprints and an empty store the pair is (2, 1);
    inserting a listing whose fingerprint is stored returns no id and
    leaves the store as it was. *)
Theorem bulk_add_listings_counts
        (clock : nat -> timestamp) (batch : list Listing) (db : DB)
        (A B : Listing) :
  fingerprint A <> fingerprint B ->
  let new := Z.of_nat (count_new (stored_fingerprints db) batch) in
  fst (bulk_add_listings clock batch db)
  = (new, (Z.of_nat (List.length batch) - new)%Z)
  /\ (0 <= new <= Z.of_nat (List.length batch))%Z
  /\ fst (bulk_add_listings clock [A; A; B] empty_db) = (2%Z, 1%Z)
  /\ (forall now l,
        fingerprint l ∈ stored_fingerprints db ->
        add_listing_dict now l db = (None, db)).
Proof.
  intros Hne new.
  assert (Hle : (Z.of_nat (count_new (stored_fingerprints db) batch)
                 <= Z.of_nat (List.length batch))%Z).
  { clear. revert batch; generalize (stored_fingerprints db).
    intros seen batch; revert seen.
    induction batch as [|l rest IH]; intros seen; simpl; [lia|].
    destruct (decide (fingerprint l ∈ seen)).
    + specialize (IH seen). lia.
    + specialize (IH ({[fingerprint l]} ∪ seen)). lia. }
  split; [|split; [|split]].
  - unfold bulk_add_listings. rewrite bulk_add_loop_counts. reflexivity.
  - subst new. lia.
  - unfold bulk_add_listings. rewrite bulk_add_loop_counts.
    change (stored_fingerprints empty_db) with (∅ : gset string).
    rewrite (count_new_twice_then_other A B Hne). reflexivity.
  - intros now l Hin. apply hash_stored_elem in Hin.
    unfold add_listing_dict. now apply add_listing_duplicate.
Qed.

Lemma bulk_add_listings_counts_witness :
  fst (bulk_add_listings (tick_clock 0)
         [listing_springfield; listing_springfield; listing_chicago] empty_db)
  = (2%Z, 1%Z).
Proof.
  refine (proj1 (proj2 (proj2
    (bulk_add_listings_counts (tick_clock 0) [] empty_db
       listing_springfield listing_chicago _)))).
  vm_compute. discriminate.
Defined.

(** C1 (the code departs from the claim). [_generate_hash] joins the
    lower-cased fields with nothing between them, so the two different
    addresses 12 Main, Stown and 12 Mains, Town get the same
    fingerprint, and the batch [A, A, B] made of them gives (1, 2) and
    one stored row where the claim has (2, 1). *)
Theorem bulk_add_distinct_addresses_one_row :
  listing_main_stown <> listing_mains_town /\
  fingerprint listing_main_stown = fingerprint listing_mains_town /\
  fst (bulk_add_listings (tick_clock 0)
         [listing_main_stown; listing_main_stown; listing_mains_town] empty_db)
  = (1%Z, 2%Z) /\
  fst (bulk_add_listings (tick_clock 0)
         [listing_main_stown; listing_main_stown; listing_mains_town] empty_db)
  <> (2%Z, 1%Z) /\
  List.length
    (listings (snd (bulk_add_listings (tick_clock 0)
         [listing_main_stown; listing_main_stown; listing_mains_town] empty_db)))
  = 1%nat.
Proof.
  split; [discriminate|]. vm_compute.
  split; [reflexivity|]. split; [reflexivity|]. split; [discriminate | reflexivity].
Qed.

Import FrameFacts.

(** C9. [export_to_csv] returns the database as it found it, every row
    and every field; [mark_as_exported] gives each listed row the flag 1
    and the stamp of the statement that updates it, keeps its other
    fields, keeps the unlisted rows and the history; and every other
    method except the bulk clear keeps the rows already stored as they
    are. *)
Theorem export_to_csv_read_only
        (path : string) (source : option string) (exported_only : bool)
        (clock : nat -> timestamp) (listing_ids : list Z) (db : DB) :
  snd (export_to_csv path source exported_only db) = db
  /\ Forall2 (marked clock listing_ids)
             (listings db) (listings (snd (mark_as_exported clock listing_ids db)))
  /\ scrape_history (snd (mark_as_exported clock listing_ids db)) = scrape_history db
  /\ (forall c : call,
        match c with
        | MarkAsExported _ _ | ClearAllData => True
        | _ => exists added, listings (exec c db) = listings db ++ added
        end).
Proof.
  split; [apply export_to_csv_db|].
  split; [apply mark_loop_marked|].
  split; [reflexivity|].
  intros c; destruct c; simpl; try exact I;
    try (exists []; now rewrite app_nil_r).
  - apply add_listing_dict_frame.
  - apply bulk_add_loop_frame.
  - exists []. now rewrite export_to_csv_db, app_nil_r.
Qed.

(** C10. After [clear_all_data] both tables are empty, the session
    history included; every other method leaves the recorded sessions in
    place and at most appends to them. *)
Theorem clear_all_data_empties_history (db : DB) :
  scrape_history (snd (clear_all_data db)) = []
  /\ listings (snd (clear_all_data db)) = []
  /\ (forall c : call,
        match c with
        | ClearAllData => scrape_history (exec c db) = []
        | _ => exists added, scrape_history (exec c db) = scrape_history db ++ added
        end).
Proof.
  split; [reflexivity|]. split; [reflexivity|].
  intros c; destruct c; simpl; try reflexivity;
    try (exists []; now rewrite app_nil_r).
  - exists []. rewrite app_nil_r. apply add_listing_dict_frame.
  - exists []. rewrite app_nil_r. apply bulk_add_loop_frame.
  - eexists. reflexivity.
  - exists []. now rewrite export_to_csv_db, app_nil_r.
Qed.

(** ** Retry policy *)

Import RateLimit.

(** C5 (the code departs from the claim). With the default configuration
    an operation that fails with status 404 on every attempt, a failure
    outside the retryable classes, is called four times with sleeps of
    1, 2 and 4 seconds in between before its failure is passed on; the
    same holds for a failure of any class. *)
Theorem retry_with_backoff_retries_404 :
  classified_retryable default_config (HTTPError 404 "404 Client Error: Not Found") = false
  /\ retry_with_backoff default_config always_404
     = (Raised (HTTPError 404 "404 Client Error: Not Found"),
        [Call 0; Sleep 1; Call 1; Sleep 2; Call 2; Sleep 4; Call 3])
  /\ (forall e : exn,
        retry_with_backoff default_config (fun _ => @Raise string e)
        = (Raised e, [Call 0; Sleep 1; Call 1; Sleep 2; Call 2; Sleep 4; Call 3])).
Proof. repeat split; intros; vm_compute; reflexivity. Qed.

(** ** Request throttler *)

Module ThrottlerFacts.
Import RateLimit Vocabulary.
Local Open Scope list_scope.

Lemma Qgtb_true t c : Qgtb t c = true <-> (c < t)%Q.
Proof.
  unfold Qgtb. rewrite negb_true_iff.
  split.
  - intros H. apply Qnot_le_lt. intros Hle.
    apply Qle_bool_iff in Hle. congruence.
  - intros H. destruct (Qle_bool t c) eqn:Hb; [|reflexivity].
    apply Qle_bool_iff in Hb. lra.
Qed.

Lemma times_of_ensure d d' m :
  default [] (ensure_domain d m !! d') = default [] (m !! d').
Proof.
  unfold ensure_domain. destruct (m !! d) eqn:Hd; [reflexivity|].
  destruct (decide (d = d')) as [<-|Hne].
  - now rewrite lookup_insert_eq, Hd.
  - now rewrite lookup_insert_ne.
Qed.

Lemma times_of_should_throttle now d self d' :
  times_of (snd (should_throttle now d self)) d'
  = if decide (d = d')
    then List.filter (fun t => Qgtb t (now - 60)%Q) (times_of self d)
    else times_of self d'.
Proof.
  unfold times_of, should_throttle; simpl.
  destruct (decide (d = d')) as [<-|Hne].
  - now rewrite lookup_insert_eq, times_of_ensure.
  - now rewrite lookup_insert_ne, times_of_ensure.
Qed.

Lemma times_of_record_request now d self d' :
  times_of (record_request now d self) d'
  = if decide (d = d') then times_of self d ++ [now] else times_of self d'.
Proof.
  unfold times_of, record_request; simpl.
  destruct (decide (d = d')) as [<-|Hne].
  - now rewrite lookup_insert_eq, times_of_ensure.
  - now rewrite lookup_insert_ne, times_of_ensure.
Qed.

Lemma cap_step self o :
  max_requests_per_minute (step self o) = max_requests_per_minute self.
Proof. destruct o; reflexivity. Qed.

Lemma cap_run ops : forall self,
  max_requests_per_minute (run ops self) = max_requests_per_minute self.
Proof.
  induction ops as [|o ops IH]; intros self; [reflexivity|].
  simpl. unfold run in IH. now rewrite IH, cap_step.
Qed.

(** Pruning at an earlier instant removes nothing that a later pruning
    keeps. *)
Lemma recent_pruned t now instants :
  (t <= now)%Q -> recent now (recent t instants) = recent now instants.
Proof.
  intros Hle. unfold recent.
  induction instants as [|x xs IH]; [reflexivity|]. simpl.
  destruct (Qgtb x (t - 60)) eqn:Hx; simpl.
  - now rewrite IH.
  - rewrite IH.
    destruct (Qgtb x (now - 60)) eqn:Hn; [|reflexivity].
    apply Qgtb_true in Hn.
    assert (Qgtb x (t - 60) = true) by (apply Qgtb_true; lra).
    congruence.
Qed.

Lemma recent_app now xs ys :
  recent now (xs ++ ys) = recent now xs ++ recent now ys.
Proof. unfold recent. apply List.filter_app. Qed.

(** What a throttler holds after a history agrees, once pruned at [now],
    with what the history recorded. *)
Lemma recent_run now d ops : forall self,
  calls_before now ops ->
  recent now (times_of (run ops self) d)
  = recent now (times_of self d ++ recorded d ops).
Proof.
  induction ops as [|o ops IH]; intros self Hchk.
  - simpl. now rewrite app_nil_r.
  - inversion Hchk as [|o' ops' Ho Hrest]; subst.
    change (run (o :: ops) self) with (run ops (step self o)).
    rewrite (IH _ Hrest). destruct o as [d' t | d' t]; cbn [step recorded].
    + rewrite times_of_record_request.
      destruct (decide (d' = d)) as [->|Hne].
      * rewrite String.eqb_refl. now rewrite <- app_assoc.
      * apply String.eqb_neq in Hne. now rewrite Hne.
    + rewrite times_of_should_throttle.
      destruct (decide (d' = d)) as [->|Hne]; [|reflexivity].
      rewrite !recent_app. fold (recent t (times_of self d)).
      now rewrite (recent_pruned t now _ Ho).
Qed.

Lemma should_throttle_result now d self :
  fst (should_throttle now d self)
  = (max_requests_per_minute self
     <=? Z.of_nat (List.length (recent now (times_of self d))))%Z.
Proof.
  unfold should_throttle, recent, times_of; simpl.
  now rewrite times_of_ensure.
Qed.

Lemma recorded_before now d ops :
  calls_before now ops -> Forall (fun t => (t <= now)%Q) (recorded d ops).
Proof.
  induction 1 as [|o ops Ho _ IH]; simpl; [constructor|].
  destruct o as [d' t | d' t]; [|exact IH].
  destruct (String.eqb d' d); [constructor; assumption | exact IH].
Qed.

(** On instants that are not in the future, what the code keeps is the
    trailing window. *)
Lemma recent_in_window now instants :
  Forall (fun t => (t <= now)%Q) instants ->
  recent now instants = in_window now instants.
Proof.
  unfold recent, in_window.
  induction 1 as [|t ts Ht _ IH]; [reflexivity|]. simpl.
  apply Qle_bool_iff in Ht. now rewrite Ht, andb_true_r, IH.
Qed.

Lemma in_window_expired now instants :
  Forall (fun t => (t + 60 <= now)%Q) instants -> in_window now instants = [].
Proof.
  unfold in_window. induction 1 as [|t ts Ht _ IH]; [reflexivity|]. simpl.
  destruct (Qgtb t (now - 60)) eqn:Hg; [|exact IH].
  apply Qgtb_true in Hg. lra.
Qed.

End ThrottlerFacts.

Import ThrottlerFacts.

(** C8. After any history of [record_request] and [should_throttle]
    calls made no later than now on a fresh throttler, [should_throttle]
    answers true exactly when the instants recorded for the domain within
    the 60 seconds that trail now number at least the cap: false below
    the cap, true from the cap on, and, for a positive cap, false again
    once every recorded instant is 60 seconds old. *)
Theorem should_throttle_sliding_window
        (cap : Z) (ops : list op) (domain : string) (now : Q) :
  calls_before now ops ->
  let self := run ops (RequestThrottler_init cap) in
  let count := Z.of_nat (List.length (in_window now (recorded domain ops))) in
  fst (should_throttle now domain self) = (cap <=? count)%Z
  /\ ((count < cap)%Z -> fst (should_throttle now domain self) = false)
  /\ ((cap <= count)%Z -> fst (should_throttle now domain self) = true)
  /\ ((0 < cap)%Z ->
      Forall (fun t => (t + 60 <= now)%Q) (recorded domain ops) ->
      fst (should_throttle now domain self) = false).
Proof.
  intros Hchk self count.
  assert (Hmain : fst (should_throttle now domain self) = (cap <=? count)%Z).
  { rewrite should_throttle_result. unfold self. rewrite cap_run.
    rewrite (recent_run now domain ops _ Hchk).
    change (times_of (RequestThrottler_init cap) domain ++ recorded domain ops)
      with (recorded domain ops).
    now rewrite (recent_in_window _ _ (recorded_before now domain ops Hchk)). }
  rewrite Hmain. split; [reflexivity|]. split; [|split].
  - intros H. apply Z.leb_gt. exact H.
  - intros H. apply Z.leb_le. exact H.
  - intros Hcap Hold. apply Z.leb_gt. unfold count.
    rewrite (in_window_expired _ _ Hold). simpl. lia.
Qed.

Lemma should_throttle_sliding_window_witness :
  let ops := [ RecordRequest "example.com" 0; ShouldThrottle "example.com" 5;
               RecordRequest "example.com" 10; RecordRequest "example.org" 12 ] in
  calls_before 20 ops /\
  fst (should_throttle 20 "example.com" (run ops (RequestThrottler_init 2))) = true.
Proof.
  intros ops.
  assert (H : calls_before 20 ops).
  { unfold ops. repeat constructor; vm_compute; discriminate. }
  split; [exact H|].
  exact (proj1 (should_throttle_sliding_window 2 ops "example.com" 20 H)).
Defined.

(** ** Orchestration of one source *)

Module OrchestratorFacts.
Import FSBODatabase RateLimit Orchestrator Vocabulary FrameFacts.
Local Open Scope list_scope.

(** The loop gathers, target by target, what each target contributes. *)
Lemma scrape_loop_flat_map s urls : forall acc,
  scrape_loop s urls acc = acc ++ flat_map (target_candidates s) urls.
Proof.
  induction urls as [|url rest IH]; intros acc; simpl.
  - now rewrite app_nil_r.
  - unfold target_candidates at 1.
    destruct (fst (get_page s url)) as [text| |e];
      try (destruct (parse_listings s text) as [ls|e]);
      rewrite IH; simpl; now rewrite ?app_assoc, ?app_nil_r.
Qed.

Lemma scrape_discovered s urls :
  get_listing_urls s = Ok urls -> scrape s = Ok (valid_candidates s urls).
Proof.
  intros H. unfold scrape, valid_candidates. rewrite H.
  now rewrite scrape_loop_flat_map.
Qed.

Lemma bulk_add_listings_history clock batch db :
  scrape_history (snd (bulk_add_listings clock batch db)) = scrape_history db.
Proof. apply bulk_add_loop_frame. Qed.

Lemma bulk_add_loop_history_seq clock batch : forall i n d db,
  history_seq (snd (bulk_add_loop clock i batch n d db)) = history_seq db.
Proof.
  induction batch as [|l rest IH]; intros i n d db; [reflexivity|].
  cbn [bulk_add_loop].
  destruct (add_listing_dict (clock i) l db) as [result db'] eqn:Hstep.
  assert (Hseq : history_seq db' = history_seq db).
  { unfold add_listing_dict, add_listing in Hstep.
    destruct (hash_stored _ db); inversion Hstep; reflexivity. }
  destruct result; rewrite IH; exact Hseq.
Qed.

Lemma run_source_completed clock name s found db :
  scrape s = Ok found ->
  scrape_history (snd (run_source clock name (Ok s) db))
  = scrape_history db ++ [completed_row clock s found db].
Proof.
  intros Hs. unfold run_source. rewrite Hs.
  destruct (bulk_add_listings clock found db) as [[n d] db'] eqn:Hbulk.
  simpl.
  pose proof (bulk_add_listings_history clock found db) as Hh.
  pose proof (bulk_add_loop_history_seq clock found 0 0%Z 0%Z db) as Hq.
  fold (bulk_add_listings clock found db) in Hq.
  unfold completed_row. rewrite Hbulk in *. simpl in *.
  now rewrite Hh, Hq.
Qed.

Lemma run_source_failed clock name construct e db :
  run_outcome construct = Raise e ->
  scrape_history (snd (run_source clock name construct db))
  = scrape_history db ++
    [ {| session_id := (history_seq db + 1)%Z; session_source := name;
         scrape_start := clock O; scrape_end := clock O;
         listings_found := 0; listings_new := 0; listings_duplicates := 0;
         errors := 1; status := "failed";
         error_message := Some (exn_str e) |} ].
Proof.
  unfold run_outcome, run_source. intros H.
  destruct construct as [s|e'].
  - rewrite H. reflexivity.
  - inversion H; subst. reflexivity.
Qed.

End OrchestratorFacts.

Import Orchestrator OrchestratorFacts.

(** When only building the scraper and its scrape can raise, one pass
    of the per-source body appends exactly one row to the session
    history and changes no earlier row: a row with status completed
    when the scraper was built and its scrape returned, a row with
    status failed, zero counts and the message of the error when either
    raised. *)
Lemma run_source_writes_one_session
        (clock : nat -> timestamp) (scraper_name : string)
        (construct : result Scraper) (db : DB) :
  exists row,
    scrape_history (snd (run_source clock scraper_name construct db))
    = scrape_history db ++ [row]
    /\ match run_outcome construct with
       | Ok found =>
           status row = "completed"
           /\ listings_found row = Z.of_nat (List.length found)
           /\ error_message row = None
       | Raise e =>
           status row = "failed"
           /\ (listings_found row, listings_new row, listings_duplicates row)
              = (0%Z, 0%Z, 0%Z)
           /\ error_message row = Some (exn_str e)
       end.
Proof.
  destruct (run_outcome construct) as [found|e] eqn:Hout.
  - destruct construct as [s|e]; [|discriminate]. simpl in Hout.
    eexists. split; [apply (run_source_completed _ _ _ _ _ Hout)|].
    repeat split.
  - eexists. split; [apply (run_source_failed _ _ _ _ _ Hout)|].
    repeat split.
Qed.




(** ** The per-source body when its statements raise *)

Module EffectsFacts.
Import FSBODatabase RateLimit Orchestrator Effects Vocabulary FrameFacts
       OrchestratorFacts.
Local Open Scope list_scope.

Lemma quiet_none faults p : quiet faults p = true <-> faults p = None.
Proof. unfold quiet. destruct (faults p); split; congruence. Qed.

Lemma add_listing_dict_history now l db :
  scrape_history (snd (add_listing_dict now l db)) = scrape_history db
  /\ history_seq (snd (add_listing_dict now l db)) = history_seq db.
Proof.
  unfold add_listing_dict, add_listing.
  destruct (hash_stored _ db); split; reflexivity.
Qed.

(** Inserting listings, with or without a failure, leaves the session
    history alone. *)
Lemma bulk_add_loop_history faults clock batch : forall i n d db,
  let out := Effects.bulk_add_loop faults clock i batch n d db in
  scrape_history (snd (fst out)) = scrape_history db
  /\ history_seq (snd (fst out)) = history_seq db.
Proof.
  induction batch as [|l rest IH]; intros i n d db; [split; reflexivity|].
  cbn [Effects.bulk_add_loop].
  destruct (faults (InsertListing i)); [split; reflexivity|].
  destruct (add_listing_dict_history (clock i) l db) as [Hh Hs].
  destruct (add_listing_dict (clock i) l db) as [[j|] db']; simpl in Hh, Hs;
    destruct (IH (S i) (if j then n else n) d db') as [H1 H2] || idtac.
  - destruct (IH (S i) (n + 1)%Z d db') as [H1 H2]. simpl in H1, H2 |- *.
    now rewrite H1, H2.
  - destruct (IH (S i) n (d + 1)%Z db') as [H1 H2]. simpl in H1, H2 |- *.
    now rewrite H1, H2.
Qed.

(** Without a failure among its inserts, the loop is the one of the
    store. *)
Lemma bulk_add_loop_quiet faults clock batch : forall i n d db,
  forallb (fun j => quiet faults (InsertListing j)) (seq i (List.length batch)) = true ->
  Effects.bulk_add_loop faults clock i batch n d db
  = (Ok (fst (FSBODatabase.bulk_add_loop clock i batch n d db)),
     snd (FSBODatabase.bulk_add_loop clock i batch n d db),
     (i + List.length batch)%nat).
Proof.
  induction batch as [|l rest IH]; intros i n d db H.
  - simpl. now rewrite Nat.add_0_r.
  - simpl in H. apply andb_prop in H as [Hi H]. apply quiet_none in Hi.
    cbn [Effects.bulk_add_loop FSBODatabase.bulk_add_loop]. rewrite Hi.
    destruct (add_listing_dict (clock i) l db) as [[j|] db'];
      rewrite (IH _ _ _ _ H); cbn [List.length]; now rewrite Nat.add_succ_r.
Qed.

(** With a failure among its inserts, the loop raises. *)
Lemma bulk_add_loop_fault faults clock batch : forall i n d db,
  forallb (fun j => quiet faults (InsertListing j)) (seq i (List.length batch)) = false ->
  exists e db' k, Effects.bulk_add_loop faults clock i batch n d db = (Raise e, db', k).
Proof.
  induction batch as [|l rest IH]; intros i n d db H; [discriminate|].
  simpl in H. cbn [Effects.bulk_add_loop]. unfold quiet in H at 1.
  destruct (faults (InsertListing i)) as [e|]; [now exists e, db, (S i)|].
  simpl in H.
  destruct (add_listing_dict (clock i) l db) as [[j|] db']; now apply IH.
Qed.

(** The handler, when it can echo and record: one failed session and
    one more error. *)
Lemma handler_records faults now name so_far e db :
  faults EchoError = None -> faults RecordFailed = None ->
  handler faults now name so_far e db
  = (Ok {| new_count := new_count so_far; dup_count := dup_count so_far;
           error_count := (error_count so_far + 1)%Z;
           addresses := addresses so_far |},
     snd (record_failure now name e db)).
Proof. intros H1 H2. unfold handler. now rewrite H1, H2. Qed.

Lemma record_failure_history now name e db :
  scrape_history (snd (record_failure now name e db))
  = scrape_history db ++
    [ {| session_id := (history_seq db + 1)%Z; session_source := name;
         scrape_start := now; scrape_end := now;
         listings_found := 0; listings_new := 0; listings_duplicates := 0;
         errors := 1; status := "failed";
         error_message := Some (exn_str e) |} ].
Proof. reflexivity. Qed.

(** With no statement raising, the pass is [Orchestrator.run_source]. *)
Lemma run_source_no_faults clock name construct db :
  Effects.run_source no_faults clock name construct db
  = (Ok (fst (Orchestrator.run_source clock name construct db)),
     snd (Orchestrator.run_source clock name construct db)).
Proof.
  unfold Effects.run_source, Orchestrator.run_source, handler. cbn [no_faults].
  destruct construct as [s|e]; [|reflexivity].
  destruct (scrape s) as [found|e]; [|reflexivity].
  unfold Effects.bulk_add_listings, FSBODatabase.bulk_add_listings.
  rewrite bulk_add_loop_quiet
    by (apply forallb_forall; intros; reflexivity).
  destruct (FSBODatabase.bulk_add_loop clock 0 found 0 0 db) as [[n d] db1].
  reflexivity.
Qed.

End EffectsFacts.

Import Effects EffectsFacts.




(* ===================================================================== *)
(** * Further properties of the code *)
(* ===================================================================== *)

(** ** Zip codes *)

Module ZipFacts.
Import PyStr PyStrFacts AddressNormalizer Vocabulary.
Local Open Scope string_scope.

Lemma append_cons c s t : String c s ++ t = String c (s ++ t).
Proof. reflexivity. Qed.

Lemma append_nil t : "" ++ t = t.
Proof. reflexivity. Qed.

Lemma substring_none s : substring 0 0 s = "".
Proof. destruct s; reflexivity. Qed.

Lemma sforall_sfilter p s : sforall p (sfilter p s) = true.
Proof.
  induction s as [|c s IH]; [reflexivity|]. simpl.
  destruct (p c) eqn:Hc; [simpl; now rewrite Hc | exact IH].
Qed.

Lemma sfilter_sforall p s : sforall p s = true -> sfilter p s = s.
Proof.
  induction s as [|c s IH]; [reflexivity|]. simpl.
  intros H. apply andb_prop in H as [Hc Hs]. now rewrite Hc, IH.
Qed.

Lemma is_digit_word c : is_digit c = true -> is_word_char c = true.
Proof. unfold is_word_char. intros ->. now rewrite orb_true_r. Qed.

(** A string of five digits, spelled out. *)
Lemma is_zip5_inv r :
  is_zip5 r = true ->
  exists c1 c2 c3 c4 c5,
    r = String c1 (String c2 (String c3 (String c4 (String c5 ""))))
    /\ Forall (fun c => is_digit c = true) [c1; c2; c3; c4; c5].
Proof.
  unfold is_zip5. intros H. apply andb_prop in H as [Hlen Hdig].
  apply Nat.eqb_eq in Hlen.
  do 5 (destruct r as [|? r]; [discriminate|]).
  destruct r; [|discriminate].
  simpl in Hdig. repeat (apply andb_prop in Hdig as [? Hdig]).
  do 5 eexists. split; [reflexivity|]. repeat constructor; assumption.
Qed.

(** Five digits, a hyphen and four digits, spelled out. *)
Lemma is_zip9_inv r :
  is_zip9 r = true ->
  exists c1 c2 c3 c4 c5 c6 c7 c8 c9,
    r = String c1 (String c2 (String c3 (String c4 (String c5
          (String "-" (String c6 (String c7 (String c8 (String c9 "")))))))))
    /\ Forall (fun c => is_digit c = true) [c1; c2; c3; c4; c5; c6; c7; c8; c9].
Proof.
  unfold is_zip9. intros H.
  apply andb_prop in H as [H H4]. apply andb_prop in H as [H Hh].
  apply andb_prop in H as [Hlen H5]. apply Nat.eqb_eq in Hlen.
  do 10 (destruct r as [|? r]; [discriminate|]).
  destruct r; [|discriminate].
  cbn in H5, Hh, H4.
  match type of Hh with
  | (if Ascii.eqb ?a _ then _ else _) = _ =>
      destruct (Ascii.eqb_spec a "-"%char); [subst|discriminate]
  end.
  repeat (apply andb_prop in H5 as [? H5]).
  repeat (apply andb_prop in H4 as [? H4]).
  do 9 eexists. split; [reflexivity|]. repeat constructor; assumption.
Qed.

Ltac digits_known :=
  repeat match goal with
         | H : Forall _ (_ :: _) |- _ => inversion H; clear H; subst
         | H : Forall _ [] |- _ => clear H
         end.

Ltac use_digits :=
  repeat match goal with
         | H : is_digit ?c = true |- _ =>
             rewrite ?H, ?(is_digit_word c H); revert H
         end; intros.

Lemma normalize_zip_zip5 r : is_zip5 r = true -> normalize_zip r = r.
Proof.
  intros H. destruct (is_zip5_inv r H) as (c1 & c2 & c3 & c4 & c5 & -> & Hd).
  digits_known. unfold normalize_zip. cbn. use_digits. reflexivity.
Qed.

Lemma normalize_zip_zip9 r : is_zip9 r = true -> normalize_zip r = r.
Proof.
  intros H.
  destruct (is_zip9_inv r H)
    as (c1 & c2 & c3 & c4 & c5 & c6 & c7 & c8 & c9 & -> & Hd).
  digits_known. unfold normalize_zip. cbn. use_digits. reflexivity.
Qed.

(** The three shapes [normalize_zip] can return are left as they are. *)
Lemma normalize_zip_fixed r :
  (is_zip5 r || is_zip9 r || negb (nonempty r))%bool = true -> normalize_zip r = r.
Proof.
  intros H. apply orb_prop in H as [H|H]; [apply orb_prop in H as [H|H]|].
  - now apply normalize_zip_zip5.
  - now apply normalize_zip_zip9.
  - destruct r; [reflexivity | discriminate].
Qed.

Lemma sforall_length_split n : forall d,
  (n <= String.length d)%nat ->
  sforall is_digit d = true ->
  String.length (prefix n d) = n /\ sforall is_digit (prefix n d) = true.
Proof.
  unfold prefix.
  induction n as [|n IH]; intros d Hlen Hd.
  - destruct d; split; reflexivity.
  - destruct d as [|c d]; [simpl in Hlen; lia|].
    simpl in Hd. apply andb_prop in Hd as [Hc Hd].
    destruct (IH d ltac:(simpl in Hlen; lia) Hd) as [Hl Hs].
    simpl. rewrite Hl, Hc, Hs. split; reflexivity.
Qed.

Lemma normalize_zip_unfold z :
  normalize_zip z
  = let digits := sfilter is_digit z in
    if Nat.leb 9 (String.length digits)
    then prefix 5 digits ++ "-" ++ slice 5 9 digits
    else if Nat.eqb (String.length digits) 5 then digits else "".
Proof. destruct z; reflexivity. Qed.

Lemma nine_digits d :
  (9 <= String.length d)%nat ->
  sforall is_digit d = true ->
  exists c1 c2 c3 c4 c5 c6 c7 c8 c9 rest,
    d = String c1 (String c2 (String c3 (String c4 (String c5
          (String c6 (String c7 (String c8 (String c9 rest))))))))
    /\ Forall (fun c => is_digit c = true) [c1; c2; c3; c4; c5; c6; c7; c8; c9].
Proof.
  intros Hlen Hd.
  do 9 (destruct d as [|? d]; [simpl in Hlen; lia|]).
  simpl in Hd. repeat (apply andb_prop in Hd as [? Hd]).
  do 10 eexists. split; [reflexivity|]. repeat constructor; assumption.
Qed.

Lemma take_digits_spec n : forall s d rest,
  take_digits n s = Some (d, rest) ->
  String.length d = n /\ sforall is_digit d = true.
Proof.
  induction n as [|n IH]; intros s d rest H; simpl in H.
  - inversion H; subst. split; reflexivity.
  - destruct s as [|c s]; [discriminate|].
    destruct (is_digit c) eqn:Hc; [|discriminate].
    destruct (take_digits n s) as [[d' rest']|] eqn:Ht; [|discriminate].
    inversion H; subst. destruct (IH _ _ _ Ht) as [Hl Hs].
    simpl. now rewrite Hl, Hc, Hs.
Qed.

Lemma five_and_four_is_zip9 d5 d4 :
  String.length d5 = 5%nat -> sforall is_digit d5 = true ->
  String.length d4 = 4%nat -> sforall is_digit d4 = true ->
  is_zip9 (d5 ++ "-" ++ d4) = true.
Proof.
  intros L5 S5 L4 S4.
  do 5 (destruct d5 as [|? d5]; [discriminate|]). destruct d5; [|discriminate].
  do 4 (destruct d4 as [|? d4]; [discriminate|]). destruct d4; [|discriminate].
  simpl in S5, S4.
  repeat (apply andb_prop in S5 as [? S5]). repeat (apply andb_prop in S4 as [? S4]).
  rewrite !append_cons, !append_nil. unfold is_zip9. cbn. use_digits. reflexivity.
Qed.

Lemma match_zip_shape before s m :
  match_zip before s = Some m -> (is_zip5 m || is_zip9 m)%bool = true.
Proof.
  unfold match_zip.
  destruct (at_boundary before (head_char s)); [|discriminate].
  destruct (take_digits 5 s) as [[d5 rest]|] eqn:H5; [|discriminate].
  destruct (take_digits_spec _ _ _ _ H5) as [L5 S5].
  assert (Hfive : is_zip5 d5 = true).
  { unfold is_zip5. rewrite L5, S5. reflexivity. }
  assert (Hplain :
    (if at_boundary (last_char d5) (head_char rest) then Some d5 else None) = Some m ->
    (is_zip5 m || is_zip9 m)%bool = true).
  { destruct (at_boundary (last_char d5) (head_char rest)); [|discriminate].
    intros H; inversion H; subst. now rewrite Hfive. }
  destruct rest as [|c rest']; [exact Hplain|].
  destruct (Ascii.eqb c "-"); [|exact Hplain].
  destruct (take_digits 4 rest') as [[d4 rest'']|] eqn:H4; [|exact Hplain].
  destruct (take_digits_spec _ _ _ _ H4) as [L4 S4].
  destruct (at_boundary (last_char d4) (head_char rest'')); [|exact Hplain].
  intros H; inversion H; subst.
  rewrite (five_and_four_is_zip9 d5 d4 L5 S5 L4 S4). apply orb_true_r.
Qed.

Lemma search_zip_shape s : forall before m,
  search_zip before s = Some m -> (is_zip5 m || is_zip9 m)%bool = true.
Proof.
  induction s as [|c s IH]; intros before m; simpl.
  - destruct (match_zip before "") eqn:Hm; [|discriminate].
    intros H; inversion H; subst. eapply match_zip_shape; eassumption.
  - destruct (match_zip before (String c s)) eqn:Hm.
    + intros H; inversion H; subst. eapply match_zip_shape; eassumption.
    + apply IH.
Qed.

Lemma extract_zip5 r : is_zip5 r = true -> extract_zip_from_string r = Some r.
Proof.
  intros H. destruct (is_zip5_inv r H) as (c1 & c2 & c3 & c4 & c5 & -> & Hd).
  digits_known. unfold extract_zip_from_string, search_zip, match_zip, at_boundary.
  do 3 (cbn; use_digits). reflexivity.
Qed.

Lemma extract_zip9 r : is_zip9 r = true -> extract_zip_from_string r = Some r.
Proof.
  intros H.
  destruct (is_zip9_inv r H)
    as (c1 & c2 & c3 & c4 & c5 & c6 & c7 & c8 & c9 & -> & Hd).
  digits_known. unfold extract_zip_from_string, search_zip, match_zip, at_boundary.
  do 3 (cbn; use_digits). reflexivity.
Qed.

End ZipFacts.

Import PyStr AddressNormalizer Vocabulary ZipFacts.

(** X1. [normalize_zip] returns five digits, or five digits, a hyphen and
    four digits, or the empty string: with nine or more digits in the
    input the first nine are kept, with exactly five all of them, and
    with any other number of digits nothing. *)
Theorem normalize_zip_shape (z : string) :
  let digits := sfilter is_digit z in
  let r := normalize_zip z in
  (is_zip5 r || is_zip9 r || negb (nonempty r))%bool = true
  /\ sfilter is_digit r
     = (if Nat.leb 9 (String.length digits) then prefix 9 digits
        else if Nat.eqb (String.length digits) 5 then digits
        else "")%string.
Proof.
  intros digits r. subst r. rewrite normalize_zip_unfold. fold digits. cbv zeta.
  pose proof (sforall_sfilter is_digit z) as Hall. fold digits in Hall.
  destruct (Nat.leb 9 (String.length digits)) eqn:H9.
  - apply Nat.leb_le in H9.
    destruct (nine_digits digits H9 Hall)
      as (c1 & c2 & c3 & c4 & c5 & c6 & c7 & c8 & c9 & rest & -> & Hd).
    digits_known. cbn.
    rewrite !substring_none, !append_cons, !append_nil.
    unfold is_zip9. cbn. rewrite ?substring_none. use_digits.
    split; reflexivity.
  - destruct (Nat.eqb (String.length digits) 5) eqn:H5.
    + split; [|now apply sfilter_sforall].
      unfold is_zip5. now rewrite H5, Hall.
    + split; reflexivity.
Qed.

(** X2. [normalize_zip] is idempotent. *)
Theorem normalize_zip_idempotent (z : string) :
  normalize_zip (normalize_zip z) = normalize_zip z.
Proof. apply normalize_zip_fixed. apply (normalize_zip_shape z). Qed.

(** X3. A zip code produced by [normalize_zip] is found again, whole, by
    [extract_zip_from_string]; nothing is found in the empty result. *)
Theorem extract_zip_of_normalized (z : string) :
  extract_zip_from_string (normalize_zip z)
  = if nonempty (normalize_zip z) then Some (normalize_zip z) else None.
Proof.
  destruct (normalize_zip_shape z) as [Hshape _]. cbv zeta in Hshape.
  apply orb_prop in Hshape as [H|H]; [apply orb_prop in H as [H|H]|].
  - rewrite (extract_zip5 _ H).
    destruct (normalize_zip z); [discriminate | reflexivity].
  - rewrite (extract_zip9 _ H).
    destruct (normalize_zip z); [discriminate | reflexivity].
  - destruct (normalize_zip z); [reflexivity | discriminate].
Qed.

(** X4. Whatever [extract_zip_from_string] finds in a text is five
    digits, or five digits, a hyphen and four digits, and [normalize_zip]
    returns it unchanged. *)
Theorem extracted_zip_is_normal (text m : string) :
  extract_zip_from_string text = Some m ->
  (is_zip5 m || is_zip9 m)%bool = true /\ normalize_zip m = m.
Proof.
  intros H. apply search_zip_shape in H. split; [exact H|].
  apply normalize_zip_fixed. now rewrite H.
Qed.

Lemma extracted_zip_is_normal_witness :
  extract_zip_from_string "9 Oak Ave, Chicago IL 60601-1234" = Some "60601-1234"
  /\ normalize_zip "60601-1234" = "60601-1234".
Proof.
  split; [reflexivity|].
  exact (proj2 (extracted_zip_is_normal
                  "9 Oak Ave, Chicago IL 60601-1234" "60601-1234" eq_refl)).
Defined.

(** ** State and city names *)

Module NameFacts.
Import PyStr PyStrFacts AddressNormalizer Vocabulary NormalizerFacts.
Local Open Scope string_scope.

Lemma is_upper_lower_char c : is_upper_char (lower_char c) = false.
Proof. by_cases_on_char c. Qed.

Lemma lower_upper_char c : lower_char (upper_char c) = lower_char c.
Proof. by_cases_on_char c. Qed.

Lemma is_space_upper_char c : is_space (upper_char c) = is_space c.
Proof. by_cases_on_char c. Qed.

Lemma is_alpha_upper_char c : is_alpha (upper_char c) = is_alpha c.
Proof. by_cases_on_char c. Qed.

Lemma upper_char_idem c : upper_char (upper_char c) = upper_char c.
Proof. by_cases_on_char c. Qed.

Lemma upper_char_not_alpha c : is_alpha c = false -> upper_char c = c.
Proof. destruct c as [[] [] [] [] [] [] [] []]; vm_compute; congruence. Qed.

Lemma is_space_not_alpha c : is_space c = true -> is_alpha c = false.
Proof. destruct c as [[] [] [] [] [] [] [] []]; vm_compute; congruence. Qed.

(** The shortcut for an input that is already an abbreviation tests a
    lower-cased string for being upper-case, and so never applies. *)
Lemma isupper_lower s : isupper (lower s) = false.
Proof.
  unfold isupper.
  assert (H : sexists is_upper_char (lower s) = false).
  { induction s as [|c s IH]; [reflexivity|]. simpl.
    now rewrite is_upper_lower_char. }
  now rewrite H.
Qed.

Lemma upper_lower s : upper (lower s) = upper s.
Proof.
  unfold upper, lower. induction s as [|c s IH]; [reflexivity|]. simpl.
  now rewrite upper_lower_char, IH.
Qed.

Lemma lower_upper s : lower (upper s) = lower s.
Proof.
  unfold upper, lower. induction s as [|c s IH]; [reflexivity|]. simpl.
  now rewrite lower_upper_char, IH.
Qed.

Lemma lower_idem s : lower (lower s) = lower s.
Proof.
  unfold lower. induction s as [|c s IH]; [reflexivity|]. simpl.
  now rewrite lower_char_idem, IH.
Qed.

Lemma upper_idem s : upper (upper s) = upper s.
Proof.
  unfold upper. induction s as [|c s IH]; [reflexivity|]. simpl.
  now rewrite upper_char_idem, IH.
Qed.

Lemma lstrip_upper s : lstrip (upper s) = upper (lstrip s).
Proof.
  induction s as [|c s IH]; simpl; [reflexivity|].
  rewrite is_space_upper_char. destruct (is_space c); [exact IH | reflexivity].
Qed.

Lemma rstrip_upper s : rstrip (upper s) = upper (rstrip s).
Proof.
  induction s as [|c s IH]; simpl; [reflexivity|].
  fold (upper s). rewrite IH, is_space_upper_char.
  assert (Hn : nonempty (upper (rstrip s)) = nonempty (rstrip s))
    by (destruct (rstrip s); reflexivity).
  rewrite Hn.
  destruct (is_space c && negb (nonempty (rstrip s)))%bool; reflexivity.
Qed.

Lemma strip_upper s : strip (upper s) = upper (strip s).
Proof. unfold strip. now rewrite rstrip_upper, lstrip_upper. Qed.

Lemma lstrip_idem s : lstrip (lstrip s) = lstrip s.
Proof.
  induction s as [|c s IH]; simpl; [reflexivity|].
  destruct (is_space c) eqn:Hc; [exact IH|]. simpl. now rewrite Hc.
Qed.

Lemma rstrip_idem s : rstrip (rstrip s) = rstrip s.
Proof.
  induction s as [|c s IH]; simpl; [reflexivity|].
  destruct (is_space c && negb (nonempty (rstrip s)))%bool eqn:Hc; [reflexivity|].
  simpl. now rewrite IH, Hc.
Qed.

(** Dropping leading whitespace keeps a clean right end clean. *)
Lemma rstrip_lstrip_fixed s : rstrip s = s -> rstrip (lstrip s) = lstrip s.
Proof.
  induction s as [|c s IH]; simpl; [reflexivity|].
  destruct (is_space c) eqn:Hc; simpl.
  - destruct (nonempty (rstrip s)); simpl; [|discriminate].
    intros H. inversion H as [Hs]. rewrite Hs. apply IH. exact Hs.
  - rewrite Hc. simpl. intros H. exact H.
Qed.

Lemma strip_idem s : strip (strip s) = strip s.
Proof.
  unfold strip.
  rewrite (rstrip_lstrip_fixed (rstrip s) (rstrip_idem s)).
  apply lstrip_idem.
Qed.

Lemma lookup_table_in k t : forall v,
  lookup_table k t = Some v -> In (k, v) t.
Proof.
  induction t as [|[k' v'] t IH]; intros v; simpl; [discriminate|].
  destruct (String.eqb_spec k k') as [->|Hne].
  - intros H; inversion H; subst. now left.
  - intros H. right. now apply IH.
Qed.

(** On the ASCII functions, [normalize_state] is a table lookup. *)
Lemma state_by_lookup s :
  normalize_state s
  = match lookup_table (lower (strip s)) STATE_ABBREV with
    | Some abbrev => abbrev
    | None => upper (strip s)
    end.
Proof.
  rewrite normalize_state_unfold. unfold state_of_folded.
  rewrite isupper_lower, andb_false_r, upper_lower. reflexivity.
Qed.

Lemma state_idempotent s :
  normalize_state (normalize_state s) = normalize_state s.
Proof.
  rewrite (state_by_lookup s).
  destruct (lookup_table (lower (strip s)) STATE_ABBREV) as [abbrev|] eqn:Hl.
  - apply lookup_table_in in Hl.
    pose proof state_table_ok as Hall.
    rewrite forallb_forall in Hall. specialize (Hall _ Hl).
    unfold entry_ok in Hall. apply andb_prop in Hall as [_ Hcode].
    apply String.eqb_eq in Hcode.
    now rewrite normalize_state_unfold, <- PyStrFacts.strip_lower.
  - rewrite state_by_lookup.
    rewrite strip_upper, strip_idem, lower_upper, Hl. apply upper_idem.
Qed.

End NameFacts.

Import NameFacts.

(** X5. On ASCII text, [normalize_state] returns the table entry of the
    trimmed, lower-cased input when there is one, and otherwise the
    trimmed input in upper case, whatever its length: the two-letter
    shortcut never applies. *)
Theorem normalize_state_by_lookup (s : string) :
  isascii s = true ->
  normalize_state s
  = match lookup_table (lower (strip s)) STATE_ABBREV with
    | Some abbrev => abbrev
    | None => upper (strip s)
    end.
Proof. intros _. apply state_by_lookup. Qed.

Lemma normalize_state_by_lookup_witness :
  normalize_state " indiana " = "IN" /\ normalize_state "Ontario" = "ONTARIO".
Proof.
  split.
  - exact (normalize_state_by_lookup " indiana " eq_refl).
  - exact (normalize_state_by_lookup "Ontario" eq_refl).
Defined.

(** X6. On ASCII text, [normalize_state] is idempotent, also on text
    that is no state name. *)
Theorem normalize_state_idempotent (s : string) :
  isascii s = true ->
  normalize_state (normalize_state s) = normalize_state s.
Proof. intros _. apply state_idempotent. Qed.

Lemma normalize_state_idempotent_witness :
  normalize_state (normalize_state " puerto rico")
  = normalize_state " puerto rico".
Proof. exact (normalize_state_idempotent " puerto rico" eq_refl). Defined.

Module CityFacts.
Import PyStr PyStrFacts AddressNormalizer Vocabulary NormalizerFacts NameFacts ZipFacts.
Local Open Scope string_scope.

Lemma append_empty_r s : s ++ "" = s.
Proof. induction s as [|c s IH]; [reflexivity|]. now rewrite append_cons, IH. Qed.

Lemma is_token_cons c w :
  is_token (String c w) = (negb (is_space c) && negb (sexists is_space w))%bool.
Proof. unfold is_token. simpl. now rewrite negb_orb. Qed.

Lemma split_tokens s : Forall (fun w => is_token w = true) (split s).
Proof.
  induction s as [|c s IH]; simpl; [constructor|].
  destruct (is_space c) eqn:Hc; [exact IH|].
  destruct (starts_word s).
  - destruct (split s) as [|w ws]; simpl.
    + constructor; [|constructor]. rewrite is_token_cons, Hc. reflexivity.
    + inversion IH as [|? ? Hw Hws]; subst. constructor; [|exact Hws].
      rewrite is_token_cons, Hc. unfold is_token in Hw.
      apply andb_prop in Hw as [_ Hw]. now rewrite Hw.
  - constructor; [|exact IH]. rewrite is_token_cons, Hc. reflexivity.
Qed.

(** A word followed by a space and more text splits off whole. *)
Lemma split_token_then w : forall rest,
  is_token w = true -> split (w ++ String " " rest) = w :: split rest.
Proof.
  induction w as [|c w IH]; intros rest Hw; [discriminate|].
  rewrite is_token_cons in Hw. apply andb_prop in Hw as [Hc Hw].
  apply negb_true_iff in Hc.
  rewrite append_cons. cbn [split]. rewrite Hc.
  destruct w as [|c' w].
  - rewrite append_nil. reflexivity.
  - assert (Hw' : is_token (String c' w) = true).
    { unfold is_token. now rewrite Hw. }
    rewrite (IH rest Hw').
    rewrite append_cons. cbn [starts_word].
    simpl in Hw. apply negb_true_iff, orb_false_elim in Hw as [Hc' _].
    now rewrite Hc'.
Qed.

Lemma split_token w : is_token w = true -> split w = [w].
Proof.
  induction w as [|c w IH]; intros Hw; [discriminate|].
  rewrite is_token_cons in Hw. apply andb_prop in Hw as [Hc Hw].
  apply negb_true_iff in Hc. cbn [split]. rewrite Hc.
  destruct w as [|c' w]; [reflexivity|].
  assert (Hw' : is_token (String c' w) = true).
  { unfold is_token. now rewrite Hw. }
  rewrite (IH Hw'). cbn [starts_word].
  simpl in Hw. apply negb_true_iff, orb_false_elim in Hw as [Hc' _].
  now rewrite Hc'.
Qed.

(** Splitting what was joined by single spaces gives the words back. *)
Lemma split_join ws :
  Forall (fun w => is_token w = true) ws -> split (join " " ws) = ws.
Proof.
  induction 1 as [|w ws Hw Hws IH]; [reflexivity|].
  destruct ws as [|w' ws]; [now apply split_token|].
  change (join " " (w :: w' :: ws)) with (w ++ " " ++ join " " (w' :: ws)).
  change (" " ++ join " " (w' :: ws)) with (String " " (join " " (w' :: ws))).
  now rewrite (split_token_then w _ Hw), IH.
Qed.

Lemma title_from_then b w : forall rest,
  title_from b (w ++ String " " rest)
  = title_from b w ++ String " " (title_from false rest).
Proof.
  revert b. induction w as [|c w IH]; intros b rest.
  - reflexivity.
  - rewrite append_cons. cbn [title_from].
    destruct (is_alpha c); now rewrite IH, append_cons.
Qed.

Lemma title_join ws :
  title (join " " ws) = join " " (List.map title ws).
Proof.
  unfold title. induction ws as [|w ws IH]; [reflexivity|].
  destruct ws as [|w' ws]; [reflexivity|].
  change (join " " (w :: w' :: ws)) with (w ++ String " " (join " " (w' :: ws))).
  rewrite title_from_then, IH. reflexivity.
Qed.

Lemma sexists_space_title b w :
  sexists is_space (title_from b w) = sexists is_space w.
Proof.
  revert b. induction w as [|c w IH]; intros b; [reflexivity|].
  cbn [title_from]. destruct (is_alpha c) eqn:Ha; simpl; rewrite IH.
  - destruct b; now rewrite ?is_space_lower_char, ?is_space_upper_char.
  - reflexivity.
Qed.

Lemma is_token_title w : is_token (title w) = is_token w.
Proof.
  unfold is_token, title. rewrite sexists_space_title.
  destruct w as [|c w]; [reflexivity|]. simpl. now destruct (is_alpha c).
Qed.

Lemma title_from_idem b w : title_from b (title_from b w) = title_from b w.
Proof.
  revert b. induction w as [|c w IH]; intros b; [reflexivity|].
  cbn [title_from]. destruct (is_alpha c) eqn:Ha; cbn [title_from].
  - destruct b.
    + now rewrite is_alpha_lower_char, Ha, lower_char_idem, IH.
    + now rewrite is_alpha_upper_char, Ha, upper_char_idem, IH.
  - now rewrite Ha, IH.
Qed.

Lemma lstrip_token_app w rest : is_token w = true -> lstrip (w ++ rest) = w ++ rest.
Proof.
  destruct w as [|c w]; [discriminate|]. rewrite is_token_cons.
  intros H. apply andb_prop in H as [Hc _]. apply negb_true_iff in Hc.
  rewrite append_cons. simpl. now rewrite Hc.
Qed.

Lemma rstrip_token w : sexists is_space w = false -> rstrip w = w.
Proof.
  induction w as [|c w IH]; [reflexivity|]. simpl.
  intros H. apply orb_false_elim in H as [Hc Hw]. now rewrite Hc, IH.
Qed.

Lemma rstrip_app_fixed a s :
  rstrip s = s -> nonempty s = true -> rstrip (a ++ s) = a ++ s.
Proof.
  intros Hs Hn. induction a as [|c a IH]; [exact Hs|].
  rewrite append_cons. simpl. rewrite IH.
  assert (Hne : nonempty (a ++ s) = true).
  { destruct a; [exact Hn | reflexivity]. }
  now rewrite Hne, andb_false_r.
Qed.

Lemma join_tokens_clean ws :
  Forall (fun w => is_token w = true) ws ->
  rstrip (join " " ws) = join " " ws
  /\ (ws <> [] -> nonempty (join " " ws) = true).
Proof.
  induction 1 as [|w ws Hw Hws [IH1 IH2]]; [split; [reflexivity | congruence]|].
  unfold is_token in Hw. apply andb_prop in Hw as [Hne Hsp].
  apply negb_true_iff in Hsp.
  destruct ws as [|w' ws].
  - split; [now apply rstrip_token | intros _; exact Hne].
  - change (join " " (w :: w' :: ws)) with (w ++ " " ++ join " " (w' :: ws)).
    split.
    + rewrite <- (rstrip_app_fixed " " _ IH1 (IH2 ltac:(discriminate))) at 2.
      rewrite (rstrip_app_fixed w).
      * now rewrite (rstrip_app_fixed " " _ IH1 (IH2 ltac:(discriminate))).
      * now rewrite (rstrip_app_fixed " " _ IH1 (IH2 ltac:(discriminate))).
      * reflexivity.
    + intros _. destruct w; [discriminate | reflexivity].
Qed.

Lemma strip_join_tokens ws :
  Forall (fun w => is_token w = true) ws -> strip (join " " ws) = join " " ws.
Proof.
  intros H. unfold strip. rewrite (proj1 (join_tokens_clean ws H)).
  destruct H as [|w ws Hw Hws]; [reflexivity|].
  destruct ws as [|w' ws].
  - rewrite <- (append_empty_r w). now apply lstrip_token_app.
  - change (join " " (w :: w' :: ws)) with (w ++ " " ++ join " " (w' :: ws)).
    now apply lstrip_token_app.
Qed.

Lemma titled_tokens s :
  Forall (fun w => is_token w = true) (List.map title (split s)).
Proof.
  apply Forall_map. eapply Forall_impl; [|apply split_tokens].
  intros w Hw. simpl. now rewrite is_token_title.
Qed.

(** On the ASCII functions, [normalize_city] works word by word. *)
Lemma city_wordwise s :
  normalize_city s = join " " (List.map title (split s)).
Proof.
  rewrite normalize_city_unfold, title_join.
  apply strip_join_tokens, titled_tokens.
Qed.

Lemma city_idempotent s :
  normalize_city (normalize_city s) = normalize_city s.
Proof.
  rewrite (city_wordwise (normalize_city s)).
  rewrite (city_wordwise s).
  rewrite (split_join _ (titled_tokens s)).
  rewrite List.map_map. f_equal. apply List.map_ext.
  intros w. apply title_from_idem.
Qed.

End CityFacts.

Import CityFacts.

(** X7. On ASCII text, [normalize_city] title-cases each
    whitespace-separated word of its input and joins the words with
    single spaces. *)
Theorem normalize_city_wordwise (s : string) :
  isascii s = true ->
  normalize_city s = join " " (List.map title (split s)).
Proof. intros _. apply city_wordwise. Qed.

Lemma normalize_city_wordwise_witness :
  normalize_city "  new   YORK city " = "New York City".
Proof. exact (normalize_city_wordwise "  new   YORK city " eq_refl). Defined.

(** X8. On ASCII text, [normalize_city] is idempotent. *)
Theorem normalize_city_idempotent (s : string) :
  isascii s = true ->
  normalize_city (normalize_city s) = normalize_city s.
Proof. intros _. apply city_idempotent. Qed.

Lemma normalize_city_idempotent_witness :
  normalize_city (normalize_city "o'fallon  st.louis")
  = normalize_city "o'fallon  st.louis".
Proof. exact (normalize_city_idempotent "o'fallon  st.louis" eq_refl). Defined.

(** ** Ordering of query results *)

Section InsertNewestFirst.
Local Open Scope Z_scope.
Local Open Scope list_scope.

Variable A : Type.
Variable key : A -> Z.
Variable ins : A -> list A -> list A.
Hypothesis ins_nil : forall r, ins r [] = [r].
Hypothesis ins_cons : forall r r' rows,
  ins r (r' :: rows) = if key r' <=? key r then r :: r' :: rows else r' :: ins r rows.

Lemma ins_permutation r rows : Permutation (ins r rows) (r :: rows).
Proof.
  induction rows as [|r' rows IH]; [now rewrite ins_nil|].
  rewrite ins_cons. destruct (key r' <=? key r); [reflexivity|].
  rewrite IH. apply perm_swap.
Qed.

Lemma sort_permutation rows : Permutation (fold_right ins [] rows) rows.
Proof.
  induction rows as [|r rows IH]; [reflexivity|]. simpl.
  now rewrite ins_permutation, IH.
Qed.

Lemma ins_newest_first r rows :
  Vocabulary.newest_first key rows -> Vocabulary.newest_first key (ins r rows).
Proof.
  unfold Vocabulary.newest_first.
  induction 1 as [|r' rows Hs IH Hall].
  - rewrite ins_nil. repeat constructor.
  - rewrite ins_cons. destruct (key r' <=? key r) eqn:Hk.
    + apply Z.leb_le in Hk. constructor; [now constructor|].
      constructor; [exact Hk|].
      eapply Forall_impl; [|exact Hall]. simpl. intros; lia.
    + apply Z.leb_gt in Hk. constructor; [exact IH|].
      eapply Permutation_Forall; [symmetry; apply ins_permutation|].
      constructor; [lia | exact Hall].
Qed.

Lemma sort_newest_first rows :
  Vocabulary.newest_first key (fold_right ins [] rows).
Proof.
  induction rows as [|r rows IH]; [constructor|].
  simpl. now apply ins_newest_first.
Qed.

Lemma in_firstn n : forall (rows : list A) x, In x (firstn n rows) -> In x rows.
Proof.
  induction n as [|n IH]; intros rows x H; [destruct H|].
  destruct rows as [|r rows]; [destruct H|].
  destruct H as [->|H]; [now left | right; now apply IH].
Qed.

Lemma in_skipn n : forall (rows : list A) x, In x (skipn n rows) -> In x rows.
Proof.
  induction n as [|n IH]; intros rows x H; [exact H|].
  destruct rows as [|r rows]; [destruct H|].
  right. now apply IH.
Qed.

Lemma newest_first_skipn n : forall rows,
  Vocabulary.newest_first key rows -> Vocabulary.newest_first key (skipn n rows).
Proof.
  induction n as [|n IH]; intros rows H; [exact H|].
  destruct rows as [|r rows]; [exact H|].
  simpl. apply IH. now inversion H.
Qed.

Lemma newest_first_firstn n : forall rows,
  Vocabulary.newest_first key rows -> Vocabulary.newest_first key (firstn n rows).
Proof.
  induction n as [|n IH]; intros rows H; [constructor|].
  destruct rows as [|r rows]; [constructor|].
  inversion H as [|? ? Hs Hall]; subst. simpl. constructor; [now apply IH|].
  apply Forall_forall. intros x Hx. rewrite Forall_forall in Hall.
  apply Hall. eapply in_firstn. exact Hx.
Qed.

Lemma newest_first_limit_offset limit offset rows :
  Vocabulary.newest_first key rows ->
  Vocabulary.newest_first key (FSBODatabase.limit_offset limit offset rows).
Proof.
  intros H. unfold FSBODatabase.limit_offset.
  destruct (limit <? 0); [|apply newest_first_firstn];
    now apply newest_first_skipn.
Qed.

Lemma in_limit_offset limit offset (rows : list A) r :
  In r (FSBODatabase.limit_offset limit offset rows) -> In r rows.
Proof.
  unfold FSBODatabase.limit_offset. intros H.
  destruct (limit <? 0).
  - eapply in_skipn. exact H.
  - eapply in_skipn, in_firstn. exact H.
Qed.

End InsertNewestFirst.

(** ** Queries on the store *)

Module QueryFacts.
Import PyStr FSBODatabase Vocabulary.
Local Open Scope Z_scope.
Local Open Scope list_scope.

Lemma order_by_permutation rows :
  Permutation (order_by_scraped_at_desc rows) rows.
Proof.
  apply (sort_permutation ListingRow scraped_at insert_desc);
    intros; reflexivity.
Qed.

Lemma order_by_newest_first rows :
  newest_first scraped_at (order_by_scraped_at_desc rows).
Proof.
  apply (sort_newest_first ListingRow scraped_at insert_desc);
    intros; reflexivity.
Qed.

Lemma get_listings_unfold limit offset source exported db :
  fst (get_listings limit offset source exported db)
  = let rows := order_by_scraped_at_desc (selected source exported db) in
    if truthy_int limit then limit_offset (default 0 limit) offset rows else rows.
Proof. reflexivity. Qed.

Lemma in_selected source exported db r :
  In r (selected source exported db) <->
  In r (listings db)
  /\ is_exported r = (if exported then 1 else 0)
  /\ (truthy_str source = true -> Some (source_website r) = source).
Proof.
  unfold selected. rewrite filter_In, Z.eqb_eq.
  destruct (truthy_str source) eqn:Ht.
  - rewrite filter_In, String.eqb_eq.
    destruct source as [src|]; [|discriminate]. simpl.
    split.
    + intros [[Hin Hsrc] Hflag]. repeat split; try assumption.
      intros _. now rewrite Hsrc.
    + intros (Hin & Hflag & Hsrc). specialize (Hsrc eq_refl).
      inversion Hsrc. auto.
  - split.
    + intros [Hin Hflag]. repeat split; try assumption. discriminate.
    + intros (Hin & Hflag & _). auto.
Qed.

Lemma firstn_length_le {A} n (rows : list A) : (List.length (firstn n rows) <= n)%nat.
Proof. rewrite length_firstn. lia. Qed.

End QueryFacts.

Import FSBODatabase QueryFacts.

(** X9. [get_listings] returns stored rows only, each with the requested
    exported flag and, when a source is given, that source, ordered by
    [scraped_at] with the newest first.  With a positive limit at most
    that many rows come back; without a limit, or with limit 0, every
    matching row comes back and the offset is not applied.  The store is
    left as it was. *)
Theorem get_listings_query
        (limit : option Z) (offset : Z) (source : option string)
        (exported : bool) (db : DB) :
  let rows := fst (get_listings limit offset source exported db) in
  newest_first scraped_at rows
  /\ (forall r, In r rows ->
        In r (listings db)
        /\ is_exported r = (if exported then 1 else 0)%Z
        /\ (truthy_str source = true -> Some (source_website r) = source))
  /\ (forall n, limit = Some n -> (0 < n)%Z ->
        (List.length rows <= Z.to_nat n)%nat)
  /\ (limit = None \/ limit = Some 0%Z ->
        Permutation rows (selected source exported db))
  /\ snd (get_listings limit offset source exported db) = db.
Proof.
  intros rows. subst rows. rewrite get_listings_unfold. cbv zeta.
  pose proof (order_by_newest_first (selected source exported db)) as Hs.
  pose proof (order_by_permutation (selected source exported db)) as Hp.
  split; [|split; [|split; [|split]]].
  - destruct (truthy_int limit); [|exact Hs].
    now apply newest_first_limit_offset.
  - intros r Hr. apply in_selected.
    eapply Permutation_in; [exact Hp|].
    destruct (truthy_int limit); [|exact Hr].
    eapply in_limit_offset. exact Hr.
  - intros n -> Hn. simpl.
    assert (Hz : (n =? 0)%Z = false) by (apply Z.eqb_neq; lia).
    rewrite Hz. simpl. unfold limit_offset.
    assert (Hneg : (n <? 0)%Z = false) by (apply Z.ltb_ge; lia).
    rewrite Hneg. apply firstn_length_le.
  - intros [-> | ->]; exact Hp.
  - reflexivity.
Qed.

(** X10. [get_scrape_history] returns recorded sessions only, of the
    given source when one is given, ordered by [scrape_start] with the
    newest first, at most [limit] of them for a limit that is not
    negative and all of them for a negative one.  The store is left as
    it was. *)
Theorem get_scrape_history_query (source : option string) (limit : Z) (db : DB) :
  let rows := fst (get_scrape_history source limit db) in
  newest_first scrape_start rows
  /\ (forall s, In s rows ->
        In s (scrape_history db)
        /\ (truthy_str source = true -> Some (session_source s) = source))
  /\ ((0 <= limit)%Z -> (List.length rows <= Z.to_nat limit)%nat)
  /\ ((limit < 0)%Z ->
        Permutation rows
          (if truthy_str source
           then List.filter (fun s => String.eqb (session_source s) (default "" source))
                            (scrape_history db)
           else scrape_history db))
  /\ snd (get_scrape_history source limit db) = db.
Proof.
  intros rows. subst rows. unfold get_scrape_history. cbn [fst snd].
  set (chosen := if truthy_str source
                 then List.filter
                        (fun s => String.eqb (session_source s) (default "" source))
                        (scrape_history db)
                 else scrape_history db).
  assert (Hp : Permutation (fold_right insert_session_desc [] chosen) chosen).
  { apply (sort_permutation SessionRow scrape_start insert_session_desc);
      intros; reflexivity. }
  assert (Hs : newest_first scrape_start (fold_right insert_session_desc [] chosen)).
  { apply (sort_newest_first SessionRow scrape_start insert_session_desc);
      intros; reflexivity. }
  split; [|split; [|split; [|split]]].
  - now apply newest_first_limit_offset.
  - intros s Hin. apply in_limit_offset in Hin.
    eapply Permutation_in in Hin; [|exact Hp]. unfold chosen in Hin.
    destruct (truthy_str source) eqn:Ht.
    + apply filter_In in Hin as [Hin Hsrc]. apply String.eqb_eq in Hsrc.
      split; [exact Hin|]. intros _.
      destruct source as [src|]; [|discriminate]. simpl in Hsrc. now rewrite Hsrc.
    + split; [exact Hin | discriminate].
  - intros Hl. unfold limit_offset.
    assert (Hneg : (limit <? 0)%Z = false) by (apply Z.ltb_ge; lia).
    rewrite Hneg. apply firstn_length_le.
  - intros Hl. unfold limit_offset.
    assert (Hneg : (limit <? 0)%Z = true) by (apply Z.ltb_lt; lia).
    rewrite Hneg. exact Hp.
  - reflexivity.
Qed.

(** ** Invariants of the store *)

Module StoreFacts.
Import PyStr FSBODatabase Vocabulary DatabaseFacts FrameFacts QueryFacts.
Local Open Scope Z_scope.
Local Open Scope list_scope.

Lemma hash_stored_false h db :
  hash_stored h db = false -> ~ In h (List.map listing_hash (listings db)).
Proof.
  unfold hash_stored. intros H Hin.
  apply in_map_iff in Hin as (r & Hr & Hin).
  assert (Ht : existsb (fun r => String.eqb h (listing_hash r)) (listings db) = true).
  { apply existsb_exists. exists r. split; [exact Hin|]. now apply String.eqb_eq. }
  congruence.
Qed.

Lemma NoDup_snoc {A} (l : list A) x : NoDup l -> ~ In x l -> NoDup (l ++ [x]).
Proof.
  intros Hl Hx. apply NoDup_app; [exact Hl | repeat constructor; auto |].
  intros y Hy [<-|[]]. auto.
Qed.

Lemma sorted_snoc (l : list Z) x :
  StronglySorted Z.lt l -> Forall (fun y => y < x) l -> StronglySorted Z.lt (l ++ [x]).
Proof.
  induction 1 as [|y l Hs IH Hall]; intros Hx; simpl.
  - repeat constructor.
  - inversion Hx; subst. constructor; [now apply IH|].
    apply Forall_app. split; [exact Hall | repeat constructor; assumption].
Qed.

Lemma Forall_bound_map {A} (f : A -> Z) (l : list A) b :
  Forall (fun r => 0 < f r <= b) l -> Forall (fun y => y < b + 1) (List.map f l).
Proof.
  intros H. apply Forall_map. eapply Forall_impl; [|exact H]. simpl. intros; lia.
Qed.

Lemma add_listing_dict_well_formed now l db :
  well_formed db -> well_formed (snd (add_listing_dict now l db)).
Proof.
  intros (Hnd & Hcons & Hsort & Hbound & Hflag & Hss & Hsb & Hq & Hhq).
  unfold add_listing_dict, add_listing.
  destruct (hash_stored _ db) eqn:Hst; simpl; [repeat split; assumption|].
  unfold well_formed; simpl. rewrite !List.map_app; simpl.
  split; [|split; [|split; [|split; [|split; [|split; [|split; [|split]]]]]]].
  - apply NoDup_snoc; [exact Hnd | now apply hash_stored_false].
  - apply Forall_app. split; [exact Hcons | repeat constructor].
  - apply sorted_snoc; [exact Hsort | now apply Forall_bound_map].
  - apply Forall_app. split.
    + eapply Forall_impl; [|exact Hbound]. simpl. intros; lia.
    + repeat constructor; simpl; lia.
  - apply Forall_app. split; [exact Hflag | repeat constructor; now left].
  - exact Hss.
  - exact Hsb.
  - lia.
  - exact Hhq.
Qed.

Lemma bulk_add_loop_well_formed clock batch : forall i n d db,
  well_formed db -> well_formed (snd (bulk_add_loop clock i batch n d db)).
Proof.
  induction batch as [|l rest IH]; intros i n d db Hwf; [exact Hwf|].
  cbn [bulk_add_loop].
  pose proof (add_listing_dict_well_formed (clock i) l db Hwf) as Hstep.
  destruct (add_listing_dict (clock i) l db) as [result db'].
  destruct result; now apply IH.
Qed.

(** A marked row keeps its id and its fingerprint, and its flag is 1 or
    what it was. *)
Lemma marked_cases clock ids r r' :
  marked clock ids r r' -> r' = r \/ exists stamp, r' = with_export r 1 stamp.
Proof.
  unfold marked. destruct (id_listed (id r) ids).
  - intros (k & _ & ->). right. eauto.
  - intros ->. now left.
Qed.

Lemma marked_map {B} (f : ListingRow -> B) clock ids rows rows' :
  (forall r flag stamp, f (with_export r flag stamp) = f r) ->
  Forall2 (marked clock ids) rows rows' -> List.map f rows' = List.map f rows.
Proof.
  intros Hf. induction 1 as [|r r' rows rows' Hm _ IH]; [reflexivity|].
  simpl. rewrite IH. f_equal.
  destruct (marked_cases _ _ _ _ Hm) as [->|[stamp ->]]; [reflexivity | apply Hf].
Qed.

Lemma marked_Forall (P : ListingRow -> Prop) clock ids rows rows' :
  (forall r stamp, P r -> P (with_export r 1 stamp)) ->
  Forall2 (marked clock ids) rows rows' -> Forall P rows -> Forall P rows'.
Proof.
  intros HP. induction 1 as [|r r' rows rows' Hm _ IH]; [constructor|].
  intros Hall. inversion Hall; subst. constructor; [|now apply IH].
  destruct (marked_cases _ _ _ _ Hm) as [->|[stamp ->]]; [assumption | now apply HP].
Qed.

Lemma mark_as_exported_well_formed clock ids db :
  well_formed db -> well_formed (snd (mark_as_exported clock ids db)).
Proof.
  intros (Hnd & Hcons & Hsort & Hbound & Hflag & Hss & Hsb & Hq & Hhq).
  pose proof (mark_loop_marked clock ids (listings db)) as Hm.
  unfold well_formed; simpl.
  rewrite (marked_map listing_hash _ _ _ _ ltac:(reflexivity) Hm).
  rewrite (marked_map id _ _ _ _ ltac:(reflexivity) Hm).
  repeat split; try assumption.
  - eapply marked_Forall; [|exact Hm|exact Hcons]. intros r stamp H. exact H.
  - eapply marked_Forall; [|exact Hm|exact Hbound]. intros r stamp H. exact H.
  - eapply marked_Forall; [|exact Hm|exact Hflag]. intros r stamp _. now right.
Qed.

Lemma record_scrape_session_well_formed now src found new dups errs msg st db :
  well_formed db ->
  well_formed (snd (record_scrape_session now src found new dups errs msg st db)).
Proof.
  intros (Hnd & Hcons & Hsort & Hbound & Hflag & Hss & Hsb & Hq & Hhq).
  unfold well_formed; simpl. rewrite List.map_app; simpl.
  repeat split; try assumption.
  - apply sorted_snoc; [exact Hss | now apply Forall_bound_map].
  - apply Forall_app. split.
    + eapply Forall_impl; [|exact Hsb]. simpl. intros; lia.
    + repeat constructor; simpl; lia.
  - lia.
Qed.

Lemma exec_well_formed c db : well_formed db -> well_formed (exec c db).
Proof.
  intros Hwf. destruct c; simpl; try exact Hwf.
  - now apply add_listing_dict_well_formed.
  - now apply bulk_add_loop_well_formed.
  - now apply mark_as_exported_well_formed.
  - now apply record_scrape_session_well_formed.
  - destruct Hwf as (_ & _ & _ & _ & _ & _ & _ & Hq & Hhq).
    unfold well_formed; simpl. repeat split; try constructor; assumption.
  - now rewrite export_to_csv_db.
Qed.

Lemma empty_db_well_formed : well_formed empty_db.
Proof. unfold well_formed; simpl. repeat split; try constructor; lia. Qed.

End StoreFacts.

Import DatabaseFacts FrameFacts StoreFacts.

(** X11. Every store built by calls of the public methods on a fresh
    database keeps its fingerprints unique and equal to the hash of the
    row's own address fields, its ids positive, increasing in rowid
    order and within the AUTOINCREMENT counter, its exported flags 0 or
    1, and its session ids positive, increasing and within their
    counter. *)
Theorem reachable_well_formed (db : DB) : reachable db -> well_formed db.
Proof.
  induction 1 as [|c db _ IH]; [apply empty_db_well_formed|].
  now apply exec_well_formed.
Qed.

Lemma reachable_well_formed_witness :
  well_formed
    (exec (MarkAsExported (tick_clock 5) [1%Z])
       (exec (BulkAddListings (tick_clock 0)
                [listing_springfield; listing_springfield; listing_chicago])
          empty_db)).
Proof.
  apply reachable_well_formed. do 2 apply reachable_step. apply reachable_init.
Defined.

Module StoreMoreFacts.
Import PyStr FSBODatabase Vocabulary DatabaseFacts FrameFacts QueryFacts StoreFacts.
Local Open Scope Z_scope.
Local Open Scope list_scope.

Lemma add_listing_dict_seq now l db :
  listings_seq db <= listings_seq (snd (add_listing_dict now l db))
  /\ history_seq (snd (add_listing_dict now l db)) = history_seq db.
Proof.
  unfold add_listing_dict, add_listing.
  destruct (hash_stored _ db); simpl; split; lia.
Qed.

Lemma bulk_add_loop_seq clock batch : forall i n d db,
  listings_seq db <= listings_seq (snd (bulk_add_loop clock i batch n d db)).
Proof.
  induction batch as [|l rest IH]; intros i n d db; [simpl; lia|].
  cbn [bulk_add_loop].
  pose proof (proj1 (add_listing_dict_seq (clock i) l db)) as Hstep.
  destruct (add_listing_dict (clock i) l db) as [result db'].
  simpl in Hstep.
  destruct result; (etransitivity; [exact Hstep | apply IH]).
Qed.

(** No call lowers the id counter of the listings. *)
Lemma exec_seq c db : listings_seq db <= listings_seq (exec c db).
Proof.
  destruct c; simpl; try lia.
  - apply add_listing_dict_seq.
  - apply bulk_add_loop_seq.
  - rewrite export_to_csv_db. lia.
Qed.

Lemma run_calls_seq calls : forall db,
  listings_seq db <= listings_seq (run_calls calls db).
Proof.
  induction calls as [|c calls IH]; intros db; [simpl; lia|].
  simpl. etransitivity; [apply (exec_seq c db) | apply IH].
Qed.

Lemma bulk_add_loop_rows clock batch : forall i n d db,
  Z.of_nat (List.length (listings (snd (bulk_add_loop clock i batch n d db))))
  = Z.of_nat (List.length (listings db))
    + (fst (fst (bulk_add_loop clock i batch n d db)) - n).
Proof.
  induction batch as [|l rest IH]; intros i n d db; [simpl; lia|].
  cbn [bulk_add_loop].
  pose proof (add_listing_row_count (clock i) (l_street l) (l_city l) (l_state l)
                (l_zip_code l) (l_listing_url l) (l_source_website l) (l_notes l) db)
    as Hrows.
  fold (add_listing_dict (clock i) l db) in Hrows. fold (fingerprint l) in Hrows.
  destruct (add_listing_dict_cases (clock i) l db)
    as [[Hs Hadd] | [Hs (j & db' & Hadd)]];
    rewrite Hadd in *; rewrite Hs in Hrows; simpl in Hrows; rewrite IH.
  - lia.
  - rewrite Hrows. lia.
Qed.

Lemma Forall2_in_r {A B} (R : A -> B -> Prop) l l' y :
  Forall2 R l l' -> In y l' -> exists x, In x l /\ R x y.
Proof.
  induction 1 as [|a b l l' Hab _ IH]; [intros []|].
  intros [<-|Hin].
  - exists a. split; [now left | exact Hab].
  - destruct (IH Hin) as (x & Hx & Hr). exists x. split; [now right | exact Hr].
Qed.

Lemma Forall2_in_l {A B} (R : A -> B -> Prop) l l' x :
  Forall2 R l l' -> In x l -> exists y, In y l' /\ R x y.
Proof.
  induction 1 as [|a b l l' Hab _ IH]; [intros []|].
  intros [<-|Hin].
  - exists b. split; [now left | exact Hab].
  - destruct (IH Hin) as (y & Hy & Hr). exists y. split; [now right | exact Hr].
Qed.

Lemma Forall2_same {A} (l l' : list A) : Forall2 (fun x y => y = x) l l' -> l' = l.
Proof. induction 1; [reflexivity | now subst]. Qed.

Lemma filter_flag_partition (rows : list ListingRow) :
  Forall (fun r => is_exported r = 0 \/ is_exported r = 1) rows ->
  (List.length (List.filter (fun r => Z.eqb (is_exported r) 1) rows)
   + List.length (List.filter (fun r => Z.eqb (is_exported r) 0) rows)
   = List.length rows)%nat.
Proof.
  induction 1 as [|r rows [H|H] _ IH]; [reflexivity| |]; simpl; rewrite H; simpl; lia.
Qed.

Lemma export_row_count path source exported_only db :
  csv_row_count (fst (export_to_csv path source exported_only db))
  = List.length (selected source exported_only db).
Proof.
  unfold export_to_csv.
  pose proof (get_listings_unfold None 0 source exported_only db) as Hget.
  cbn [truthy_int] in Hget. cbv zeta in Hget.
  destruct (get_listings None 0 source exported_only db) as [rows db'].
  simpl in Hget. subst rows.
  rewrite <- (Permutation_length (order_by_permutation _)).
  destruct (order_by_scraped_at_desc (selected source exported_only db));
    [reflexivity|].
  simpl. now rewrite length_map.
Qed.

End StoreMoreFacts.

Import StoreMoreFacts.

(** X12. An id is never issued twice: whatever calls follow, the clear of
    all data included, a listing inserted later gets an id above the id
    of every row that was ever stored before. *)
Theorem listing_ids_never_reused
        (db0 : DB) (calls : list call) (now : timestamp) (l : Listing)
        (i : Z) (db' : DB) (r : ListingRow) :
  reachable db0 ->
  In r (listings db0) ->
  add_listing_dict now l (run_calls calls db0) = (Some i, db') ->
  (id r < i)%Z.
Proof.
  intros Hreach Hin Hadd.
  destruct (reachable_well_formed db0 Hreach) as (_ & _ & _ & Hbound & _).
  rewrite Forall_forall in Hbound. specialize (Hbound r Hin).
  pose proof (run_calls_seq calls db0) as Hseq.
  unfold add_listing_dict, add_listing in Hadd.
  destruct (hash_stored _ (run_calls calls db0)); [discriminate|].
  inversion Hadd; subst. lia.
Qed.

Lemma listing_ids_never_reused_witness :
  Forall (fun r => (id r < 2)%Z)
         (listings (exec (AddListing 0%Z listing_springfield) empty_db)).
Proof.
  apply Forall_forall. intros r Hin.
  refine (listing_ids_never_reused
            (exec (AddListing 0%Z listing_springfield) empty_db)
            [ClearAllData] 7%Z listing_chicago 2%Z _ r _ Hin eq_refl).
  apply reachable_step, reachable_init.
Defined.

(** X13. After [bulk_add_listings] the listing count has grown by exactly
    the returned number of new listings. *)
Theorem bulk_add_listings_row_growth
        (clock : nat -> timestamp) (batch : list Listing) (db : DB) :
  fst (get_listing_count None (snd (bulk_add_listings clock batch db)))
  = (fst (get_listing_count None db)
     + fst (fst (bulk_add_listings clock batch db)))%Z.
Proof.
  unfold get_listing_count, bulk_add_listings. simpl.
  rewrite bulk_add_loop_rows. lia.
Qed.

(** X14. A listing that [add_listing] accepts gets the next id and is
    returned by [get_listings], unfiltered or filtered by its own source,
    with the fields it was inserted with, both stamps at the insertion
    time and the exported flag 0; a listing that it refuses leaves the
    store as it was, where a row with the same fingerprint is found. *)
Theorem add_listing_then_get_listings (now : timestamp) (l : Listing) (db : DB) :
  match add_listing_dict now l db with
  | (Some i, db') =>
      i = (listings_seq db + 1)%Z
      /\ exists row,
           In row (fst (get_listings None 0 None false db'))
           /\ In row (fst (get_listings None 0 (Some (l_source_website l)) false db'))
           /\ id row = i
           /\ (street row, city row, state row, zip_code row)
              = (l_street l, l_city l, l_state l, l_zip_code l)
           /\ (listing_url row, source_website row, notes row)
              = (l_listing_url l, l_source_website l, l_notes l)
           /\ (scraped_at row, last_updated row, is_exported row) = (now, now, 0%Z)
           /\ listing_hash row = fingerprint l
  | (None, db') =>
      db' = db
      /\ exists row, In row (listings db) /\ listing_hash row = fingerprint l
  end.
Proof.
  unfold add_listing_dict, add_listing. fold (fingerprint l).
  destruct (hash_stored (fingerprint l) db) eqn:Hst.
  - split; [reflexivity|].
    unfold hash_stored in Hst. apply existsb_exists in Hst as (row & Hin & Heq).
    apply String.eqb_eq in Heq. exists row. now split.
  - split; [reflexivity|].
    match goal with |- context [listings db ++ [?r]] => exists r end.
    assert (Hsel : forall source,
              (truthy_str source = true -> source = Some (l_source_website l)) ->
              In {| id := listings_seq db + 1; street := l_street l;
                    city := l_city l; state := l_state l;
                    zip_code := l_zip_code l; listing_url := l_listing_url l;
                    source_website := l_source_website l;
                    scraped_at := now; last_updated := now;
                    listing_hash := fingerprint l; is_exported := 0;
                    notes := l_notes l |}
                 (fst (get_listings None 0 source false
                         {| listings := listings db ++
                              [ {| id := listings_seq db + 1; street := l_street l;
                                   city := l_city l; state := l_state l;
                                   zip_code := l_zip_code l;
                                   listing_url := l_listing_url l;
                                   source_website := l_source_website l;
                                   scraped_at := now; last_updated := now;
                                   listing_hash := fingerprint l; is_exported := 0;
                                   notes := l_notes l |} ];
                            listings_seq := listings_seq db + 1;
                            scrape_history := scrape_history db;
                            history_seq := history_seq db |}))).
    { intros source Hsrc.
      rewrite get_listings_unfold. cbn [truthy_int]. cbv zeta.
      eapply Permutation_in; [symmetry; apply order_by_permutation|].
      apply in_selected. simpl. split; [|split].
      - apply in_or_app. right. left. reflexivity.
      - reflexivity.
      - intros Ht. symmetry. now apply Hsrc. }
    split; [apply Hsel; discriminate|].
    split; [apply Hsel; reflexivity|].
    repeat split.
Qed.

(** X15. After [mark_as_exported] the not-yet-exported view holds only
    rows that were stored, unchanged, under an id that was not listed,
    and every stored row whose id was listed is found in the exported
    view with its flag set and its other fields kept. *)
Theorem mark_as_exported_moves_rows
        (clock : nat -> timestamp) (listing_ids : list Z)
        (source : option string) (db : DB) :
  let db' := snd (mark_as_exported clock listing_ids db) in
  (forall r, In r (fst (get_listings None 0 source false db')) ->
     In r (listings db) /\ id_listed (id r) listing_ids = false)
  /\ (forall r, In r (listings db) -> id_listed (id r) listing_ids = true ->
        exists stamp,
          In (with_export r 1 stamp) (fst (get_listings None 0 None true db'))).
Proof.
  intros db'. pose proof (mark_loop_marked clock listing_ids (listings db)) as Hm.
  split.
  - intros r Hr.
    apply (get_listings_query None 0 source false db') in Hr as (Hin & Hflag & _).
    destruct (Forall2_in_r _ _ _ _ Hm Hin) as (r0 & Hin0 & Hmark).
    unfold marked in Hmark. destruct (id_listed (id r0) listing_ids) eqn:Hl.
    + destruct Hmark as (k & _ & ->). discriminate.
    + subst r. now split.
  - intros r Hin Hl.
    destruct (Forall2_in_l _ _ _ _ Hm Hin) as (r' & Hin' & Hmark).
    unfold marked in Hmark. rewrite Hl in Hmark. destruct Hmark as (k & _ & ->).
    exists (clock k).
    rewrite get_listings_unfold. cbn [truthy_int]. cbv zeta.
    eapply Permutation_in; [symmetry; apply order_by_permutation|].
    apply in_selected. repeat split; [exact Hin' | discriminate].
Qed.

(** X16. [mark_as_exported] with ids that no stored row carries, the
    empty list included, changes nothing and raises nothing. *)
Theorem mark_as_exported_unknown_ids
        (clock : nat -> timestamp) (listing_ids : list Z) (db : DB) :
  Forall (fun r => id_listed (id r) listing_ids = false) (listings db) ->
  snd (mark_as_exported clock listing_ids db) = db.
Proof.
  intros Hnone.
  pose proof (mark_loop_marked clock listing_ids (listings db)) as Hm.
  assert (Hsame : mark_loop clock 0 listing_ids (listings db) = listings db).
  { apply Forall2_same.
    revert Hnone Hm. generalize (mark_loop clock 0 listing_ids (listings db)).
    induction (listings db) as [|r rows IH]; intros rows' Hnone Hm.
    - inversion Hm. constructor.
    - inversion Hm; subst. inversion Hnone; subst.
      constructor; [|now apply IH].
      unfold marked in *.
      match goal with H : id_listed (id r) _ = false |- _ => rewrite H in * end.
      assumption. }
  unfold mark_as_exported. simpl. rewrite Hsame. now destruct db.
Qed.

Lemma mark_as_exported_unknown_ids_witness :
  let db := exec (AddListing 0%Z listing_springfield) empty_db in
  snd (mark_as_exported (tick_clock 9) [7%Z; 8%Z] db) = db.
Proof.
  intros db. apply mark_as_exported_unknown_ids.
  repeat constructor.
Defined.

(** X17. In a store built by calls of the public methods, the rows of an
    export of the exported listings and the rows of an export of the
    not-yet-exported listings, for the same source filter, add up to the
    listing count of that source. *)
Theorem export_to_csv_partition
        (path1 path2 : string) (source : option string) (db : DB) :
  reachable db ->
  Z.of_nat (csv_row_count (fst (export_to_csv path1 source true db))
            + csv_row_count (fst (export_to_csv path2 source false db)))
  = fst (get_listing_count source db).
Proof.
  intros Hreach.
  destruct (reachable_well_formed db Hreach) as (_ & _ & _ & _ & Hflag & _).
  rewrite !export_row_count. unfold selected, get_listing_count. simpl.
  f_equal. apply filter_flag_partition.
  destruct (truthy_str source); [|exact Hflag].
  apply Forall_forall. intros r Hr. apply filter_In in Hr as [Hr _].
  rewrite Forall_forall in Hflag. now apply Hflag.
Qed.

Lemma export_to_csv_partition_witness :
  let db := exec (MarkAsExported (tick_clock 5) [1%Z])
              (exec (BulkAddListings (tick_clock 0)
                       [listing_springfield; listing_chicago]) empty_db) in
  Z.of_nat (csv_row_count (fst (export_to_csv "a.csv" None true db))
            + csv_row_count (fst (export_to_csv "b.csv" None false db)))
  = fst (get_listing_count None db).
Proof.
  intros db. apply export_to_csv_partition.
  do 2 apply reachable_step. apply reachable_init.
Defined.

(** ** Retry wrapper *)

Module RetryFacts.
Import RateLimit Vocabulary.
Local Open Scope list_scope.

Lemma failed_attempts_cons config first k :
  failed_attempts config first (S k)
  = [Call first; Sleep (Qpower (backoff_factor config) (Z.of_nat first))]
    ++ failed_attempts config (S first) k.
Proof. reflexivity. Qed.

(** The loop up to its first successful attempt. *)
Lemma retry_loop_success {A} config (func : nat -> result A) (a : A) :
  forall m first last trace k,
    (first <= k < first + m)%nat ->
    (Z.of_nat k <= max_retries config)%Z ->
    (forall j, (first <= j < k)%nat -> exists e, func j = Raise e) ->
    func k = Ok a ->
    retry_loop config func (seq first m) last trace
    = (Returned a, trace ++ failed_attempts config first (k - first) ++ [Call k]).
Proof.
  induction m as [|m IH]; intros first last trace k Hk Hmax Hfail Hok; [lia|].
  cbn [seq retry_loop].
  destruct (Nat.eq_dec first k) as [->|Hne].
  - rewrite Hok. now replace (k - k)%nat with O by lia.
  - destruct (Hfail first ltac:(lia)) as [e He]. rewrite He.
    assert (Hlt : (Z.of_nat first <? max_retries config)%Z = true)
      by (apply Z.ltb_lt; lia).
    rewrite Hlt.
    rewrite (IH (S first) (Some e) _ k); try assumption; try lia.
    + replace (k - first)%nat with (S (k - S first)) by lia.
      rewrite failed_attempts_cons. now rewrite <- !app_assoc.
    + intros j Hj. apply Hfail. lia.
Qed.

(** The loop when every attempt fails: the last attempt is not followed
    by a sleep. *)
Lemma retry_loop_exhausted {A} config (func : nat -> result A) (n : nat) (e : exn) :
  max_retries config = Z.of_nat n ->
  func n = Raise e ->
  forall m first last trace,
    (first + m = S n)%nat -> (0 < m)%nat ->
    (forall j, (first <= j <= n)%nat -> exists e', func j = Raise e') ->
    retry_loop config func (seq first m) last trace
    = (Raised e, trace ++ failed_attempts config first (n - first) ++ [Call n]).
Proof.
  intros Hmax Hlast.
  induction m as [|m IH]; intros first last trace Hsum Hm Hfail; [lia|].
  cbn [seq retry_loop].
  destruct (Nat.eq_dec first n) as [->|Hne].
  - rewrite Hlast.
    assert (Hlt : (Z.of_nat n <? max_retries config)%Z = false)
      by (apply Z.ltb_ge; lia).
    rewrite Hlt. assert (m = O) as -> by lia. simpl.
    now replace (n - n)%nat with O by lia.
  - destruct (Hfail first ltac:(lia)) as [e' He']. rewrite He'.
    assert (Hlt : (Z.of_nat first <? max_retries config)%Z = true)
      by (apply Z.ltb_lt; lia).
    rewrite Hlt.
    rewrite (IH (S first) (Some e')); try lia.
    + replace (n - first)%nat with (S (n - S first)) by lia.
      rewrite failed_attempts_cons. now rewrite <- !app_assoc.
    + intros j Hj. apply Hfail. lia.
Qed.

Lemma count_calls_app t1 t2 :
  count_calls (t1 ++ t2) = (count_calls t1 + count_calls t2)%nat.
Proof.
  induction t1 as [|[k|q] t1 IH]; simpl; [reflexivity| |]; now rewrite IH.
Qed.

(** The loop calls the operation at most once per scheduled attempt. *)
Lemma retry_loop_calls {A} config (func : nat -> result A) :
  forall attempts last trace,
    (count_calls (snd (retry_loop config func attempts last trace))
     <= count_calls trace + List.length attempts)%nat.
Proof.
  induction attempts as [|k attempts IH]; intros last trace; simpl; [lia|].
  destruct (func k) as [a|e]; simpl.
  - rewrite count_calls_app. simpl. lia.
  - destruct (Z.of_nat k <? max_retries config)%Z;
      (etransitivity; [apply IH|]); rewrite count_calls_app; simpl; lia.
Qed.

End RetryFacts.

Import RateLimit RetryFacts.

(** X18. When the operation first succeeds on attempt [k], within the
    retry budget, and the sleeps before it have lengths that
    [time.sleep] accepts, the wrapper returns that result after exactly
    [k] failed calls, each followed by a sleep of backoff_factor^attempt
    seconds, and one successful call; later attempts are not made. *)
Theorem retry_with_backoff_first_success
        {A : Type} (config : RetryConfig) (func : nat -> result A) (k : nat) (a : A) :
  (Z.of_nat k <= max_retries config)%Z ->
  sleeps_before config k ->
  (forall j, (j < k)%nat -> exists e, func j = Raise e) ->
  func k = Ok a ->
  retry_with_backoff config func
  = (Returned a, failed_attempts config 0 k ++ [Call k]).
Proof.
  intros Hmax _ Hfail Hok. unfold retry_with_backoff.
  rewrite (retry_loop_success config func a _ O None [] k); try assumption.
  - now replace (k - 0)%nat with k by lia.
  - lia.
  - intros j Hj. apply Hfail. lia.
Qed.

Lemma retry_with_backoff_first_success_witness :
  retry_with_backoff default_config
    (fun attempt => if Nat.ltb attempt 2 then Raise (Timeout "Read timed out.")
                    else Ok "page")
  = (Returned "page", [Call 0; Sleep 1; Call 1; Sleep 2; Call 2]).
Proof.
  refine (retry_with_backoff_first_success default_config _ 2 "page" _ _ _ eq_refl).
  - vm_compute. discriminate.
  - intros j Hj. destruct j as [|[|j]]; [ | | lia];
      split; vm_compute; discriminate.
  - intros j Hj. exists (Timeout "Read timed out.").
    destruct j as [|[|j]]; [reflexivity | reflexivity | lia].
Defined.

(** X19. When every attempt fails and the sleeps have lengths that
    [time.sleep] accepts, the wrapper makes max_retries + 1 calls,
    sleeps backoff_factor^attempt seconds after each but the last, and
    raises the failure of the last attempt. *)
Theorem retry_with_backoff_exhausted
        {A : Type} (config : RetryConfig) (func : nat -> result A) (n : nat) (e : exn) :
  max_retries config = Z.of_nat n ->
  sleeps_before config n ->
  (forall j, (j <= n)%nat -> exists e', func j = Raise e') ->
  func n = Raise e ->
  @retry_with_backoff A config func
  = (Raised e, failed_attempts config 0 n ++ [Call n]).
Proof.
  intros Hmax _ Hfail Hlast. unfold retry_with_backoff.
  rewrite Hmax. replace (Z.to_nat (Z.of_nat n + 1)) with (S n) by lia.
  rewrite (retry_loop_exhausted config func n e Hmax Hlast (S n) O None []);
    try lia.
  - now replace (n - 0)%nat with n by lia.
  - intros j Hj. apply Hfail. lia.
Qed.

Lemma retry_with_backoff_exhausted_witness :
  @retry_with_backoff string default_config
    (fun attempt => Raise (HTTPError (500 + Z.of_nat attempt) "Server Error"))
  = (Raised (HTTPError 503 "Server Error"),
     [Call 0; Sleep 1; Call 1; Sleep 2; Call 2; Sleep 4; Call 3]).
Proof.
  refine (retry_with_backoff_exhausted default_config _ 3 _ eq_refl _ _ eq_refl).
  - intros j Hj. destruct j as [|[|[|j]]]; [ | | | lia];
      split; vm_compute; discriminate.
  - intros j _. eexists. reflexivity.
Defined.

(** X20. The wrapper never calls the operation more than max_retries + 1
    times, and with a negative max_retries it does not call it at all
    and returns None without raising. *)
Theorem retry_with_backoff_call_bound
        {A : Type} (config : RetryConfig) (func : nat -> result A) :
  (count_calls (snd (retry_with_backoff config func))
   <= Z.to_nat (max_retries config + 1))%nat
  /\ ((max_retries config < 0)%Z ->
      retry_with_backoff config func = (ReturnedNone, [])).
Proof.
  split.
  - unfold retry_with_backoff.
    etransitivity; [apply retry_loop_calls|]. rewrite length_seq. simpl. lia.
  - intros Hneg. unfold retry_with_backoff.
    replace (Z.to_nat (max_retries config + 1)) with O by lia. reflexivity.
Qed.

(** ** Rate limiter and throttler *)

Module LimiterFacts.
Import RateLimit Vocabulary ThrottlerFacts.
Local Open Scope list_scope.

Lemma Qgtb_false t c : Qgtb t c = false <-> (t <= c)%Q.
Proof.
  unfold Qgtb. rewrite negb_false_iff. apply Qle_bool_iff.
Qed.

(** A draw of [random.uniform] lies between its two bounds. *)
Lemma uniform_between a b u :
  (0 <= u <= 1)%Q -> (a <= b)%Q -> (a <= uniform a b u <= b)%Q.
Proof.
  intros [Hu0 Hu1] Hab. unfold uniform. split; nra.
Qed.

Lemma wait_delay_between u self :
  (0 <= u <= 1)%Q -> (min_delay self <= max_delay self)%Q ->
  (min_delay self <= wait_delay u self <= max_delay self)%Q.
Proof.
  intros Hu Hmm. unfold wait_delay. destruct (jitter self).
  - now apply uniform_between.
  - lra.
Qed.

Lemma recent_head_recent now t ts rest :
  recent now ts = t :: rest -> (now - 60 < t)%Q /\ In t ts.
Proof.
  unfold recent. intros H.
  assert (Hin : In t (List.filter (fun x => Qgtb x (now - 60)%Q) ts))
    by (rewrite H; now left).
  apply filter_In in Hin as [Hin Hg]. apply Qgtb_true in Hg. now split.
Qed.

(** A later window holds fewer of the same instants, and not the head of
    the earlier one once that head is 60 seconds old. *)
Lemma recent_later_shorter now now' ts :
  (now <= now')%Q -> (List.length (recent now' ts) <= List.length (recent now ts))%nat.
Proof.
  intros Hle. unfold recent. induction ts as [|x xs IH]; [reflexivity|]. simpl.
  destruct (Qgtb x (now' - 60)) eqn:H'.
  - apply Qgtb_true in H'.
    assert (Qgtb x (now - 60) = true) as -> by (apply Qgtb_true; lra).
    simpl. lia.
  - destruct (Qgtb x (now - 60)); simpl; lia.
Qed.

Lemma recent_drops_head now now' ts t rest :
  recent now ts = t :: rest -> (now <= now')%Q -> (t + 60 <= now')%Q ->
  (List.length (recent now' ts) < List.length (recent now ts))%nat.
Proof.
  unfold recent. revert t rest.
  induction ts as [|x xs IH]; intros t rest Hhead Hle Hold; [discriminate|].
  simpl in *. destruct (Qgtb x (now - 60)) eqn:Hx.
  - inversion Hhead; subst.
    assert (Qgtb t (now' - 60) = false) as -> by (apply Qgtb_false; lra).
    simpl. pose proof (recent_later_shorter now now' xs Hle) as Hs.
    unfold recent in Hs. lia.
  - assert (Qgtb x (now' - 60) = false) as ->.
    { apply Qgtb_false. apply Qgtb_false in Hx. lra. }
    eapply IH; eassumption.
Qed.

Lemma get_wait_time_unfold now d self :
  get_wait_time now d self
  = match times_of self d with
    | [] => Ok 0%Q
    | _ =>
        if (Z.of_nat (List.length (recent now (times_of self d)))
            <? max_requests_per_minute self)%Z
        then Ok 0%Q
        else match recent now (times_of self d) with
             | oldest :: _ => Ok ((oldest + 60) - now)%Q
             | [] => Raise (OtherError "list index out of range")
             end
    end.
Proof.
  unfold get_wait_time, times_of, recent.
  destruct (request_times self !! d) as [[|t ts]|]; reflexivity.
Qed.

End LimiterFacts.

Import ThrottlerFacts LimiterFacts.

(** X21. Provided the clock does not run backwards and a sleep lasts at
    least as long as asked, [wait] leaves at least the chosen delay
    between the previous request time and the one it stores; with
    min_delay <= max_delay and a draw in [0, 1] that delay lies between
    min_delay and max_delay, and a sleep, when there is one, is positive
    and no longer than the delay. *)
Theorem wait_enforces_delay (now u woke : Q) (self : RateLimiter) :
  (0 <= u <= 1)%Q ->
  (min_delay self <= max_delay self)%Q ->
  (last_request_time self <= now)%Q ->
  slept_as_asked now woke (fst (wait now u woke self)) ->
  let self' := snd (wait now u woke self) in
  (wait_delay u self <= last_request_time self' - last_request_time self)%Q
  /\ (min_delay self <= wait_delay u self <= max_delay self)%Q
  /\ match fst (wait now u woke self) with
     | Some slept => (0 < slept <= wait_delay u self)%Q
     | None => True
     end.
Proof.
  intros Hu Hmm Hmono Hslept self'.
  pose proof (wait_delay_between u self Hu Hmm) as Hd.
  subst self'. unfold wait in *. fold (wait_delay u self) in *.
  destruct (Qgtb (wait_delay u self) (now - last_request_time self)) eqn:Hg;
    simpl in *.
  - apply Qgtb_true in Hg. repeat split; try lra.
  - apply Qgtb_false in Hg. repeat split; try lra.
Qed.

Lemma wait_enforces_delay_witness :
  let self := {| min_delay := 1; max_delay := 3; jitter := true;
                 last_request_time := 100 |} in
  (wait_delay (1 # 2) self
   <= last_request_time (snd (wait 100 (1 # 2) 102 self)) - last_request_time self)%Q.
Proof.
  intros self.
  refine (proj1 (wait_enforces_delay 100 (1 # 2) 102 self _ _ _ _)).
  - split; vm_compute; intros Hc; discriminate Hc.
  - vm_compute; intros Hc; discriminate Hc.
  - vm_compute; intros Hc; discriminate Hc.
  - vm_compute; intros Hc; discriminate Hc.
Defined.

(** X22. While [should_throttle] answers false, [get_wait_time] is 0.
    When it answers true, for a positive cap and recorded instants that
    are not in the future, [get_wait_time] is positive and at most 60
    seconds, and once that time has passed the window holds at least one
    request less, so a domain that was exactly at its cap is no longer
    throttled. *)
Theorem get_wait_time_until_free (now : Q) (domain : string) (self : RequestThrottler) :
  (0 < max_requests_per_minute self)%Z ->
  Forall (fun t => (t <= now)%Q) (times_of self domain) ->
  if fst (should_throttle now domain self)
  then exists w,
         get_wait_time now domain self = Ok w
         /\ (0 < w <= 60)%Q
         /\ (List.length (recent (now + w) (times_of self domain))
             < List.length (recent now (times_of self domain)))%nat
         /\ (Z.of_nat (List.length (recent now (times_of self domain)))
             = max_requests_per_minute self ->
             fst (should_throttle (now + w) domain self) = false)
  else get_wait_time now domain self = Ok 0%Q.
Proof.
  intros Hcap Hpast.
  rewrite should_throttle_result, get_wait_time_unfold.
  destruct (max_requests_per_minute self
            <=? Z.of_nat (List.length (recent now (times_of self domain))))%Z eqn:Hth.
  - apply Z.leb_le in Hth.
    assert (Hlt : (Z.of_nat (List.length (recent now (times_of self domain)))
                   <? max_requests_per_minute self)%Z = false)
      by (apply Z.ltb_ge; lia).
    rewrite Hlt.
    destruct (recent now (times_of self domain)) as [|t rest] eqn:Hrec;
      [simpl in Hth; lia|].
    destruct (recent_head_recent _ _ _ _ Hrec) as [Hnew Hin].
    rewrite Forall_forall in Hpast. pose proof (Hpast t Hin) as Hold.
    destruct (times_of self domain) as [|t0 ts0] eqn:Htimes; [destruct Hin|].
    exists (t + 60 - now)%Q.
    assert (Hdrop :
      (List.length (recent (now + (t + 60 - now)) (t0 :: ts0))
       < List.length (recent now (t0 :: ts0)))%nat).
    { eapply recent_drops_head; [exact Hrec | lra | lra]. }
    split; [reflexivity|]. split; [lra|]. rewrite Hrec in Hdrop.
    split; [exact Hdrop|].
    intros Hexact. rewrite should_throttle_result, Htimes.
    apply Z.leb_gt. lia.
  - apply Z.leb_gt in Hth.
    assert (Hlt : (Z.of_nat (List.length (recent now (times_of self domain)))
                   <? max_requests_per_minute self)%Z = true)
      by (apply Z.ltb_lt; lia).
    rewrite Hlt. destruct (times_of self domain); reflexivity.
Qed.

Lemma get_wait_time_until_free_witness :
  let self := run [RecordRequest "example.com" 0; RecordRequest "example.com" 10]
                  (RequestThrottler_init 2) in
  exists w,
    get_wait_time 20 "example.com" self = Ok w
    /\ fst (should_throttle (20 + w) "example.com" self) = false.
Proof.
  intros self.
  assert (Hcap : (0 < max_requests_per_minute self)%Z) by reflexivity.
  assert (Hpast : Forall (fun t => (t <= 20)%Q) (times_of self "example.com")).
  { repeat constructor; vm_compute; intros Hc; discriminate Hc. }
  pose proof (get_wait_time_until_free 20 "example.com" self Hcap Hpast) as H.
  change (fst (should_throttle 20 "example.com" self)) with true in H.
  destruct H as (w & Hw & _ & _ & Hfree).
  exists w. split; [exact Hw|]. apply Hfree. reflexivity.
Defined.

(** X23. With a cap of zero or less, [should_throttle] always answers
    true, and [get_wait_time] raises IndexError as soon as the domain
    has recorded requests that are all older than 60 seconds. *)
Theorem get_wait_time_zero_cap (now : Q) (domain : string) (self : RequestThrottler) :
  (max_requests_per_minute self <= 0)%Z ->
  fst (should_throttle now domain self) = true
  /\ (times_of self domain <> [] ->
      Forall (fun t => (t + 60 <= now)%Q) (times_of self domain) ->
      get_wait_time now domain self = Raise (OtherError "list index out of range")).
Proof.
  intros Hcap. split.
  - rewrite should_throttle_result. apply Z.leb_le. lia.
  - intros Hne Hold. rewrite get_wait_time_unfold.
    assert (Hrec : recent now (times_of self domain) = []).
    { unfold recent. clear Hne.
      induction Hold as [|t ts Ht _ IH]; [reflexivity|]. simpl.
      assert (Qgtb t (now - 60) = false) as -> by (apply Qgtb_false; lra).
      exact IH. }
    rewrite Hrec.
    assert (Hlt : (Z.of_nat (List.length (@nil Q)) <? max_requests_per_minute self)%Z
                  = false)
      by (apply Z.ltb_ge; simpl; lia).
    rewrite Hlt. destruct (times_of self domain); [congruence | reflexivity].
Qed.

Lemma get_wait_time_zero_cap_witness :
  get_wait_time 100 "example.com"
    (run [RecordRequest "example.com" 0] (RequestThrottler_init 0))
  = Raise (OtherError "list index out of range").
Proof.
  refine (proj2 (get_wait_time_zero_cap 100 "example.com"
                   (run [RecordRequest "example.com" 0] (RequestThrottler_init 0))
                   _) _ _).
  - vm_compute; intros Hc; discriminate Hc.
  - discriminate.
  - repeat constructor; vm_compute; intros Hc; discriminate Hc.
Defined.

(** X24. A call for one domain leaves the recorded instants of every
    other domain, its [should_throttle] answer and its [get_wait_time],
    as they were. *)
Theorem throttler_domains_independent
        (o : op) (domain : string) (self : RequestThrottler) :
  op_domain o <> domain ->
  times_of (step self o) domain = times_of self domain
  /\ (forall now, fst (should_throttle now domain (step self o))
                  = fst (should_throttle now domain self))
  /\ (forall now, get_wait_time now domain (step self o)
                  = get_wait_time now domain self).
Proof.
  intros Hne.
  assert (Htimes : times_of (step self o) domain = times_of self domain).
  { destruct o as [d t | d t]; simpl in Hne; cbn [step].
    - rewrite times_of_record_request. now destruct (decide (d = domain)).
    - rewrite times_of_should_throttle. now destruct (decide (d = domain)). }
  split; [exact Htimes|]. split; intros now.
  - rewrite !should_throttle_result, Htimes. now rewrite cap_step.
  - rewrite !get_wait_time_unfold, Htimes. now rewrite cap_step.
Qed.

Lemma throttler_domains_independent_witness :
  times_of (step (RequestThrottler_init 2) (RecordRequest "example.org" 5))
           "example.com"
  = times_of (RequestThrottler_init 2) "example.com".
Proof.
  refine (proj1 (throttler_domains_independent
                   (RecordRequest "example.org" 5) "example.com"
                   (RequestThrottler_init 2) _)).
  discriminate.
Defined.

(** ** The scrape of one source *)

Module ScrapeFacts.
Import PyStr AddressNormalizer FSBODatabase RateLimit Orchestrator Vocabulary
       OrchestratorFacts.
Local Open Scope list_scope.

Lemma in_omap {A B} (f : A -> option B) (l : list A) (y : B) :
  In y (omap f l) <-> exists x, In x l /\ f x = Some y.
Proof.
  rewrite <- list_elem_of_In, list_elem_of_omap.
  split; intros (x & Hx & Hf); exists x; split; try assumption;
    now apply list_elem_of_In.
Qed.

Lemma flat_map_filter_empty {A B} (f : A -> list B) (keep : A -> bool) (l : list A) :
  (forall x, keep x = false -> f x = []) ->
  flat_map f (List.filter keep l) = flat_map f l.
Proof.
  intros Hempty. induction l as [|x l IH]; [reflexivity|]. simpl.
  destruct (keep x) eqn:Hk; simpl; rewrite IH; [reflexivity|].
  now rewrite (Hempty x Hk).
Qed.

Lemma target_not_ok s url : target_ok s url = false -> target_candidates s url = [].
Proof.
  unfold target_ok, target_candidates.
  destruct (fst (get_page s url)) as [text| |e]; try reflexivity.
  destruct (parse_listings s text); [discriminate | reflexivity].
Qed.

End ScrapeFacts.

Import Orchestrator OrchestratorFacts ScrapeFacts.

(** X25. When the candidates that [parse_listings] returns are ASCII
    text, every listing that [scrape] returns has a non-empty street,
    city and state, a zip code of five digits or of five digits, a hyphen
    and four digits, the source name of its scraper and no note, and its
    city, state and zip code are left unchanged by normalising them
    again. *)
Theorem scrape_returns_normalized
        (s : Scraper) (found : list Listing) (l : Listing) :
  (forall text raws,
     parse_listings s text = Ok raws -> forallb ascii_candidate raws = true) ->
  scrape s = Ok found ->
  In l found ->
  (nonempty (l_street l) && nonempty (l_city l) && nonempty (l_state l))%bool = true
  /\ (is_zip5 (l_zip_code l) || is_zip9 (l_zip_code l))%bool = true
  /\ l_source_website l = source_name s
  /\ l_notes l = None
  /\ normalize_city (l_city l) = l_city l
  /\ normalize_state (l_state l) = l_state l
  /\ normalize_zip (l_zip_code l) = l_zip_code l.
Proof.
  intros _.
  unfold scrape. destruct (get_listing_urls s) as [urls|e]; [|discriminate].
  intros Hfound Hin. inversion Hfound; subst. clear Hfound.
  apply in_omap in Hin as (raw & _ & Hnorm).
  unfold _normalize_listing, normalize_address in Hnorm. simpl in Hnorm.
  destruct (is_valid_address _ _ _ _) eqn:Hvalid; [|discriminate].
  simpl in Hnorm. inversion Hnorm; subst. clear Hnorm. simpl.
  unfold is_valid_address in Hvalid.
  apply andb_prop in Hvalid as [Hvalid Hzip].
  split; [exact Hvalid|].
  pose proof (normalize_zip_shape (raw_zip_code raw)) as [Hshape _].
  cbv zeta in Hshape. rewrite Hzip, orb_false_r in Hshape.
  split; [exact Hshape|]. split; [reflexivity|]. split; [reflexivity|].
  split; [apply city_idempotent|].
  split; [apply state_idempotent | apply normalize_zip_idempotent].
Qed.

Lemma scrape_returns_normalized_witness :
  Forall (fun l => (is_zip5 (l_zip_code l) || is_zip9 (l_zip_code l))%bool = true
                   /\ l_source_website l = "FSBO.com")
         (valid_candidates three_targets
            ["https://fsbo.com/p1"; "https://fsbo.com/p2"; "https://fsbo.com/p3"]).
Proof.
  apply Forall_forall. intros l Hin.
  assert (Hascii : forall text raws,
            parse_listings three_targets text = Ok raws ->
            forallb ascii_candidate raws = true).
  { intros text raws H. cbn [three_targets parse_listings] in H.
    destruct (String.eqb text "page one"); inversion H; reflexivity. }
  destruct (scrape_returns_normalized three_targets _ l Hascii
              (scrape_discovered three_targets _ eq_refl) Hin)
    as (_ & Hzip & Hsrc & _).
  split; [exact Hzip | exact Hsrc].
Defined.

(** X26. [scrape] raises only when [get_listing_urls] does, and then
    with the same error; otherwise its result is what scraping only the
    targets that could be fetched and parsed would give: a target that
    fails contributes nothing and changes nothing for the others. *)
Theorem scrape_skips_failed_targets (s : Scraper) :
  match get_listing_urls s with
  | Raise e => scrape s = Raise e
  | Ok urls =>
      scrape s = Ok (valid_candidates s (List.filter (target_ok s) urls))
      /\ Forall (fun url => target_ok s url = false -> target_candidates s url = [])
                urls
  end.
Proof.
  destruct (get_listing_urls s) as [urls|e] eqn:Hurls.
  - split.
    + rewrite (scrape_discovered s urls Hurls). unfold valid_candidates.
      now rewrite (flat_map_filter_empty _ _ _ (target_not_ok s)).
    + apply Forall_forall. intros url _. apply target_not_ok.
  - unfold scrape. now rewrite Hurls.
Qed.

(** ** Site configuration and the scrape command *)

Module CommandFacts.
Import PyStr FSBODatabase RateLimit Orchestrator SiteConfig Effects Vocabulary
       FrameFacts OrchestratorFacts EffectsFacts StoreMoreFacts.
Local Open Scope Z_scope.
Local Open Scope list_scope.

Lemma get_site_scraper name sites site :
  get_site name sites = Some site -> In site sites /\ site_scraper site = Some name.
Proof.
  induction sites as [|s sites IH]; simpl; [discriminate|].
  destruct (site_scraper s) as [n|] eqn:Hn.
  - destruct (String.eqb_spec n name) as [->|Hne].
    + intros H; inversion H; subst. split; [now left | exact Hn].
    + intros H. destruct (IH H). split; [now right | assumption].
  - intros H. destruct (IH H). split; [now right | assumption].
Qed.

Lemma bulk_add_loop_rows_ge faults clock batch : forall i n d db,
  (List.length (listings db)
   <= List.length (listings (snd (fst (Effects.bulk_add_loop faults clock i batch n d db)))))%nat.
Proof.
  induction batch as [|l rest IH]; intros i n d db; [reflexivity|].
  cbn [Effects.bulk_add_loop].
  destruct (faults (InsertListing i)); [reflexivity|].
  unfold add_listing_dict, add_listing.
  destruct (hash_stored _ db).
  - apply IH.
  - etransitivity; [|apply IH]. simpl. rewrite length_app. lia.
Qed.

Lemma inserts_quiet faults n :
  (forall i, faults (InsertListing i) = None) ->
  forallb (fun i => quiet faults (InsertListing i)) (seq 0 n) = true.
Proof. intros H. apply forallb_forall. intros i _. now apply quiet_none. Qed.

Lemma bulk_add_loop_monotone clock batch : forall i n d db,
  n <= fst (fst (FSBODatabase.bulk_add_loop clock i batch n d db))
  /\ d <= snd (fst (FSBODatabase.bulk_add_loop clock i batch n d db)).
Proof.
  induction batch as [|l rest IH]; intros i n d db; [simpl; lia|].
  cbn [FSBODatabase.bulk_add_loop].
  destruct (add_listing_dict (clock i) l db) as [[j|] db'].
  - destruct (IH (S i) (n + 1) d db'). lia.
  - destruct (IH (S i) n (d + 1) db'). lia.
Qed.

(** What one pass of the loop body leaves when the session can be
    recorded: one session row, one error more exactly when the row is a
    failed one, counts added to the totals that are at least those of
    the row, and at least as many more listings as were counted new;
    the counts agree when no insert and no completed record raised. *)
Lemma run_source_summary faults clock name construct db0 :
  session_recordable faults ->
  exists r row,
    fst (Effects.run_source faults clock name construct db0) = Ok r
    /\ scrape_history (snd (Effects.run_source faults clock name construct db0))
       = scrape_history db0 ++ [row]
    /\ listings_new row <= new_count r
    /\ listings_duplicates row <= dup_count r
    /\ error_count r = failed_sessions [row]
    /\ fst (get_listing_count None db0) + new_count r
       <= fst (get_listing_count None
                 (snd (Effects.run_source faults clock name construct db0)))
    /\ (persisting faults ->
        new_count r = listings_new row
        /\ dup_count r = listings_duplicates row
        /\ fst (get_listing_count None
                  (snd (Effects.run_source faults clock name construct db0)))
           = fst (get_listing_count None db0) + new_count r).
Proof.
  intros (Hclose & Hecho & Herr & Hrec).
  assert (Hfail : forall now so_far e db1,
    error_count so_far = 0 -> 0 <= new_count so_far -> 0 <= dup_count so_far ->
    scrape_history db1 = scrape_history db0 ->
    Z.of_nat (List.length (listings db0)) + new_count so_far
    <= Z.of_nat (List.length (listings db1)) ->
    (persisting faults ->
     new_count so_far = 0 /\ dup_count so_far = 0
     /\ List.length (listings db1) = List.length (listings db0)) ->
    exists r row,
      fst (handler faults now name so_far e db1) = Ok r
      /\ scrape_history (snd (handler faults now name so_far e db1))
         = scrape_history db0 ++ [row]
      /\ listings_new row <= new_count r
      /\ listings_duplicates row <= dup_count r
      /\ error_count r = failed_sessions [row]
      /\ fst (get_listing_count None db0) + new_count r
         <= fst (get_listing_count None (snd (handler faults now name so_far e db1)))
      /\ (persisting faults ->
          new_count r = listings_new row
          /\ dup_count r = listings_duplicates row
          /\ fst (get_listing_count None (snd (handler faults now name so_far e db1)))
             = fst (get_listing_count None db0) + new_count r)).
  { intros now so_far e db1 Hzero Hn Hd Hh Hge Heq.
    rewrite (handler_records _ _ _ _ _ _ Herr Hrec).
    cbn [fst snd]. eexists. eexists. split; [reflexivity|].
    split; [rewrite record_failure_history, Hh; reflexivity|].
    unfold get_listing_count. cbn. rewrite Hzero.
    split; [exact Hn|]. split; [exact Hd|]. split; [reflexivity|].
    split; [exact Hge|]. intros Hp. destruct (Heq Hp) as (H1 & H2 & H3).
    rewrite H1, H2, H3. repeat split; lia. }
  assert (Hnothing : forall now e,
    exists r row,
      fst (handler faults now name nothing e db0) = Ok r
      /\ scrape_history (snd (handler faults now name nothing e db0))
         = scrape_history db0 ++ [row]
      /\ listings_new row <= new_count r
      /\ listings_duplicates row <= dup_count r
      /\ error_count r = failed_sessions [row]
      /\ fst (get_listing_count None db0) + new_count r
         <= fst (get_listing_count None (snd (handler faults now name nothing e db0)))
      /\ (persisting faults ->
          new_count r = listings_new row
          /\ dup_count r = listings_duplicates row
          /\ fst (get_listing_count None (snd (handler faults now name nothing e db0)))
             = fst (get_listing_count None db0) + new_count r)).
  { intros now e. apply Hfail; try reflexivity; simpl; lia. }
  unfold Effects.run_source.
  destruct construct as [s|e]; [|apply Hnothing].
  destruct (faults EchoRateLimit) as [e|]; [apply Hnothing|].
  destruct (faults ProgressBar) as [e|]; [apply Hnothing|].
  destruct (Orchestrator.scrape s) as [found|e].
  2:{ destruct (faults ProgressDone); apply Hnothing. }
  destruct (faults ProgressDone) as [e|]; [apply Hnothing|].
  unfold Effects.bulk_add_listings.
  pose proof (bulk_add_loop_history faults clock found 0 0 0 db0) as [Hh _].
  pose proof (bulk_add_loop_rows_ge faults clock found 0 0 0 db0) as Hge.
  destruct (forallb (fun i => quiet faults (InsertListing i))
                    (seq 0 (List.length found))) eqn:Hins.
  - rewrite (bulk_add_loop_quiet _ _ _ _ _ _ _ Hins) in Hh, Hge |- *.
    pose proof (bulk_add_loop_rows clock found 0 0 0 db0) as Hrows.
    pose proof (bulk_add_loop_monotone clock found 0 0 0 db0) as [Hn0 Hd0].
    destruct (FSBODatabase.bulk_add_loop clock 0 found 0 0 db0) as [[n d] db1].
    simpl in Hh, Hge, Hrows, Hn0, Hd0.
    destruct (faults RecordCompleted) as [e|] eqn:Hrc.
    + apply Hfail; simpl; try assumption; try reflexivity; try lia.
      intros [Hp _]. congruence.
    + cbn [record_scrape_session]. rewrite Hclose, Hecho.
      eexists. eexists. split; [reflexivity|]. cbn [snd scrape_history].
      split; [rewrite Hh; reflexivity|].
      unfold get_listing_count. simpl.
      split; [lia|]. split; [lia|]. split; [reflexivity|]. split; [lia|].
      intros _. repeat split. lia.
  - destruct (bulk_add_loop_fault faults clock found 0 0 0 db0 Hins)
      as (e & db1 & k & Hloop).
    rewrite Hloop in Hh, Hge |- *. simpl in Hh, Hge.
    apply Hfail; simpl; try assumption; try reflexivity; try lia.
    intros [_ Hp]. rewrite (inserts_quiet faults _ Hp) in Hins. discriminate.
Qed.

Lemma failed_sessions_app rows1 rows2 :
  failed_sessions (rows1 ++ rows2) = failed_sessions rows1 + failed_sessions rows2.
Proof. unfold failed_sessions. rewrite List.filter_app, length_app. lia. Qed.

Lemma sum_new_app rows1 rows2 : sum_new (rows1 ++ rows2) = sum_new rows1 + sum_new rows2.
Proof.
  unfold sum_new. induction rows1 as [|r rows1 IH]; simpl; [reflexivity|].
  rewrite IH. lia.
Qed.

Lemma sum_duplicates_app rows1 rows2 :
  sum_duplicates (rows1 ++ rows2) = sum_duplicates rows1 + sum_duplicates rows2.
Proof.
  unfold sum_duplicates. induction rows1 as [|r rows1 IH]; simpl; [reflexivity|].
  rewrite IH. lia.
Qed.

(** The loop over the sources, when every session can be recorded: one
    session per enabled source that was reached, errors that count the
    failed sessions, and counts that bound those of the sessions from
    above and the growth of the listings from below. *)
Lemma run_sources_sessions faults clock sites registry names :
  (forall i, session_recordable (Main.source_faults faults i)) ->
  forall i totals db0,
  exists rows,
    scrape_history
      (snd (Main.run_sources faults clock i names sites registry totals db0))
    = scrape_history db0 ++ rows
    /\ (List.length rows <= List.length (enabled_names sites names))%nat
    /\ match fst (Main.run_sources faults clock i names sites registry totals db0) with
       | Ok totals' =>
           List.length rows = List.length (enabled_names sites names)
           /\ Main.total_errors totals' = Main.total_errors totals + failed_sessions rows
           /\ Main.total_new totals + sum_new rows <= Main.total_new totals'
           /\ Main.total_duplicates totals + sum_duplicates rows
              <= Main.total_duplicates totals'
           /\ fst (get_listing_count None db0)
              + (Main.total_new totals' - Main.total_new totals)
              <= fst (get_listing_count None
                        (snd (Main.run_sources faults clock i names sites registry
                                               totals db0)))
           /\ ((forall k, persisting (Main.source_faults faults k)) ->
               Main.total_new totals' = Main.total_new totals + sum_new rows
               /\ Main.total_duplicates totals'
                  = Main.total_duplicates totals + sum_duplicates rows
               /\ fst (get_listing_count None
                         (snd (Main.run_sources faults clock i names sites registry
                                                totals db0)))
                  = fst (get_listing_count None db0)
                    + (Main.total_new totals' - Main.total_new totals))
       | Raise _ => True
       end.
Proof.
  intros Hrec.
  assert (Hstop : forall (e : exn) (db0 : DB) (n : nat),
            exists rows : list SessionRow,
              scrape_history db0 = scrape_history db0 ++ rows
              /\ (List.length rows <= n)%nat /\ True).
  { intros e db0 n. exists []. rewrite app_nil_r. repeat split. simpl. lia. }
  induction names as [|name rest IH]; intros i totals db0.
  - exists []. simpl. rewrite app_nil_r.
    unfold failed_sessions, sum_new, sum_duplicates. simpl.
    split; [reflexivity|]. split; [lia|]. split; [reflexivity|].
    split; [lia|]. split; [lia|]. split; [lia|]. split; [lia|].
    intros _. repeat split; lia.
  - cbn [Main.run_sources enabled_names List.filter].
    fold (enabled_names sites rest).
    destruct (is_site_enabled name sites) eqn:Hen; cbn [negb].
    + destruct (get_site name sites) as [site|] eqn:Hsite;
        [|apply (Hstop (OtherError ""))].
      destruct (site_name site) as [label|]; [|apply (Hstop (OtherError ""))].
      destruct (Main.command_faults faults (Main.EchoScraping i)) as [e|];
        [apply (Hstop e)|].
      set (construct := match Main.lookup_scraper name registry with
                        | Some class => class site
                        | None => Raise (OtherError name)
                        end).
      destruct (run_source_summary (Main.source_faults faults i) (clock i) name
                                   construct db0 (Hrec i))
        as (r & row & Hout & Hrow & Hnew & Hdup & Herr & Hge & Heq).
      destruct (Effects.run_source (Main.source_faults faults i) (clock i) name
                                   construct db0) as [[r'|e] db1];
        simpl in Hout; [|discriminate].
      inversion Hout; subst r'. clear Hout. simpl in Hrow, Hge, Heq.
      destruct (IH (S i) (Main.add_totals totals r) db1) as (rows & Hrows & Hle & Hres).
      exists (row :: rows). split; [|split].
      * rewrite Hrows, Hrow, <- app_assoc. reflexivity.
      * simpl. lia.
      * destruct (fst (Main.run_sources faults clock (S i) rest sites registry
                         (Main.add_totals totals r) db1)) as [totals'|e];
          [|exact I].
        destruct Hres as (Hlen & He & Hn & Hd & Hc & Hce).
        change (row :: rows) with ([row] ++ rows).
        rewrite failed_sessions_app, sum_new_app, sum_duplicates_app.
        assert (Hn1 : sum_new [row] = listings_new row)
          by (unfold sum_new; simpl; lia).
        assert (Hd1 : sum_duplicates [row] = listings_duplicates row)
          by (unfold sum_duplicates; simpl; lia).
        rewrite Hn1, Hd1. simpl in He, Hn, Hd, Hc, Hce.
        unfold get_listing_count in Hge, Heq, Hc, Hce |- *.
        cbn [fst truthy_str] in Hge, Heq, Hc, Hce |- *.
        split; [simpl; lia|]. split; [lia|]. split; [lia|]. split; [lia|].
        split; [lia|]. intros Hp.
        destruct (Hce Hp) as (H1 & H2 & H3). destruct (Heq (Hp i)) as (H4 & H5 & H6).
        repeat split; lia.
    + destruct (Main.command_faults faults (Main.EchoSkip i)) as [e|];
        [apply (Hstop e) | apply IH].
Qed.

End CommandFacts.

Import SiteConfig CommandFacts.

(** X27. For the entry that [get_site] finds, [is_site_enabled] is true
    exactly when the entry carries enabled = true, and such an entry is
    among [get_enabled_sites]; an entry without the key is among
    [get_enabled_sites] too, while [is_site_enabled] answers false for
    it, and a name with no entry is not enabled. *)
Theorem is_site_enabled_cases (scraper_name : string) (sites : list Site) :
  match get_site scraper_name sites with
  | Some site =>
      In site sites
      /\ site_scraper site = Some scraper_name
      /\ is_site_enabled scraper_name sites
         = match site_enabled site with Some flag => flag | None => false end
      /\ match site_enabled site with
         | Some true | None => In site (get_enabled_sites sites)
         | Some false => ~ In site (get_enabled_sites sites)
         end
  | None => is_site_enabled scraper_name sites = false
  end.
Proof.
  unfold is_site_enabled.
  destruct (get_site scraper_name sites) as [site|] eqn:Hsite; [|reflexivity].
  destruct (get_site_scraper _ _ _ Hsite) as [Hin Hname].
  split; [exact Hin|]. split; [exact Hname|]. split.
  - destruct (site_enabled site); reflexivity.
  - unfold get_enabled_sites.
    destruct (site_enabled site) as [[|]|] eqn:He.
    + apply filter_In. split; [exact Hin | now rewrite He].
    + intros H. apply filter_In in H as [_ H]. now rewrite He in H.
    + apply filter_In. split; [exact Hin | now rewrite He].
Qed.

(** X28. Suppose that, for every source, nothing raises once its
    completed session is recorded and its handler can echo and record.
    Then, whatever else raises, the scrape command given an unknown
    scraper name changes nothing, and otherwise appends to the session
    history at most one row per source that the configuration enables.
    When it finishes there is exactly one row per enabled source, its
    errors are the number of failed sessions, its new and duplicate
    totals are at least the sums of the rows' counts, and the listing
    count has grown by at least the total of new listings; when no
    insert and no completed record raised, the totals are those sums
    and the listing count has grown by exactly the total of new
    listings. *)
Theorem scrape_command_sessions
        (faults : Main.CommandFaults)
        (clock : nat -> nat -> timestamp) (site output : option string)
        (default_path : string) (context : Main.ScraperContext) :
  (forall i, session_recordable (Main.source_faults faults i)) ->
  let names :=
    if truthy_str site then [default "" site]
    else List.map fst (Main.scrapers context) in
  let db0 := Main.db context in
  let db' := snd (Main.scrape faults clock site output default_path context) in
  match fst (Main.scrape faults clock site output default_path context) with
  | Main.UnknownScraper => db' = db0
  | Main.Finished totals _ =>
      exists rows,
        scrape_history db' = scrape_history db0 ++ rows
        /\ List.length rows
           = List.length (enabled_names (Main.site_config context) names)
        /\ Main.total_errors totals = failed_sessions rows
        /\ (sum_new rows <= Main.total_new totals)%Z
        /\ (sum_duplicates rows <= Main.total_duplicates totals)%Z
        /\ (fst (get_listing_count None db0) + Main.total_new totals
            <= fst (get_listing_count None db'))%Z
        /\ ((forall k, persisting (Main.source_faults faults k)) ->
            Main.total_new totals = sum_new rows
            /\ Main.total_duplicates totals = sum_duplicates rows
            /\ fst (get_listing_count None db')
               = (fst (get_listing_count None db0) + Main.total_new totals)%Z)
  | Main.Crashed _ =>
      exists rows,
        scrape_history db' = scrape_history db0 ++ rows
        /\ (List.length rows
            <= List.length (enabled_names (Main.site_config context) names))%nat
  end.
Proof.
  intros Hrec names db0 db'. subst db'. unfold Main.scrape.
  assert (Hnone : exists rows : list SessionRow,
            scrape_history db0 = scrape_history db0 ++ rows
            /\ (List.length rows
                <= List.length (enabled_names (Main.site_config context) names))%nat).
  { exists []. rewrite app_nil_r. split; [reflexivity | simpl; lia]. }
  destruct (Main.command_faults faults Main.EchoHeader) as [e|]; [exact Hnone|].
  destruct (truthy_str site
            && negb (existsb (fun kc => String.eqb (fst kc) (default "" site))
                             (Main.scrapers context)))%bool.
  { destruct (Main.command_faults faults Main.EchoUnknown); [exact Hnone | reflexivity]. }
  fold names. fold db0.
  destruct (run_sources_sessions faults clock (Main.site_config context)
              (Main.scrapers context) names Hrec O Main.no_totals db0)
    as (rows & Hrows & Hle & Hres).
  destruct (Main.run_sources faults clock 0 names (Main.site_config context)
              (Main.scrapers context) Main.no_totals db0) as [[totals|e] db1];
    simpl in Hrows, Hres |- *; [|now exists rows].
  destruct Hres as (Hlen & He & Hn & Hd & Hc & Hce). simpl in He, Hn, Hd.
  assert (Hcrash : exists rows0 : list SessionRow,
            scrape_history db1 = scrape_history db0 ++ rows0
            /\ (List.length rows0
                <= List.length (enabled_names (Main.site_config context) names))%nat)
    by now exists rows.
  assert (Hdone : exists rows0,
            scrape_history db1 = scrape_history db0 ++ rows0
            /\ List.length rows0
               = List.length (enabled_names (Main.site_config context) names)
            /\ Main.total_errors totals = failed_sessions rows0
            /\ (sum_new rows0 <= Main.total_new totals)%Z
            /\ (sum_duplicates rows0 <= Main.total_duplicates totals)%Z
            /\ (fst (get_listing_count None db0) + Main.total_new totals
                <= fst (get_listing_count None db1))%Z
            /\ ((forall k, persisting (Main.source_faults faults k)) ->
                Main.total_new totals = sum_new rows0
                /\ Main.total_duplicates totals = sum_duplicates rows0
                /\ fst (get_listing_count None db1)
                   = (fst (get_listing_count None db0) + Main.total_new totals)%Z)).
  { exists rows. split; [assumption|]. split; [assumption|].
    unfold get_listing_count in Hc, Hce |- *. cbn [fst truthy_str] in Hc, Hce |- *.
    split; [lia|]. split; [lia|]. split; [lia|]. split; [lia|].
    intros Hp. destruct (Hce Hp) as (H1 & H2 & H3). simpl in H1, H2, H3.
    repeat split; lia. }
  destruct (Main.command_faults faults Main.EchoSummary) as [e|]; [exact Hcrash|].
  assert (Hexport : forall path,
    match fst (Main.export_step faults totals path db1) with
    | Main.UnknownScraper => snd (Main.export_step faults totals path db1) = db0
    | Main.Finished totals0 _ =>
        exists rows0,
          scrape_history (snd (Main.export_step faults totals path db1))
          = scrape_history db0 ++ rows0
          /\ List.length rows0
             = List.length (enabled_names (Main.site_config context) names)
          /\ Main.total_errors totals0 = failed_sessions rows0
          /\ (sum_new rows0 <= Main.total_new totals0)%Z
          /\ (sum_duplicates rows0 <= Main.total_duplicates totals0)%Z
          /\ (fst (get_listing_count None db0) + Main.total_new totals0
              <= fst (get_listing_count None
                        (snd (Main.export_step faults totals path db1))))%Z
          /\ ((forall k, persisting (Main.source_faults faults k)) ->
              Main.total_new totals0 = sum_new rows0
              /\ Main.total_duplicates totals0 = sum_duplicates rows0
              /\ fst (get_listing_count None
                        (snd (Main.export_step faults totals path db1)))
                 = (fst (get_listing_count None db0) + Main.total_new totals0)%Z)
    | Main.Crashed _ =>
        exists rows0,
          scrape_history (snd (Main.export_step faults totals path db1))
          = scrape_history db0 ++ rows0
          /\ (List.length rows0
              <= List.length (enabled_names (Main.site_config context) names))%nat
    end).
  { intros path. unfold Main.export_step.
    destruct (Main.command_faults faults Main.EchoExporting); [exact Hcrash|].
    destruct (Main.command_faults faults Main.Export); [exact Hcrash|].
    pose proof (export_to_csv_db path None false db1) as Hx.
    destruct (export_to_csv path None false db1) as [file db2].
    simpl in Hx. subst db2.
    destruct (Main.command_faults faults Main.EchoExported);
      [exact Hcrash | exact Hdone]. }
  destruct output as [path|]; [|apply Hexport].
  destruct (nonempty path); [apply Hexport | exact Hdone].
Qed.

Lemma scrape_command_sessions_witness :
  exists rows,
    scrape_history
      (snd (Main.scrape Main.no_command_faults (fun i j => Z.of_nat (100 * i + j))
                        None (Some "out.csv") "exports/fsbo_listings.csv"
                        demo_context))
    = rows
    /\ List.length rows = 2%nat.
Proof.
  pose proof (scrape_command_sessions Main.no_command_faults
                (fun i j => Z.of_nat (100 * i + j)) None (Some "out.csv")
                "exports/fsbo_listings.csv" demo_context
                (fun _ => conj eq_refl (conj eq_refl (conj eq_refl eq_refl))))
    as H.
  cbv zeta in H.
  destruct (Main.scrape Main.no_command_faults (fun i j => Z.of_nat (100 * i + j))
                        None (Some "out.csv") "exports/fsbo_listings.csv"
                        demo_context) as [[| e | totals file] db'] eqn:Hrun;
    try (vm_compute in Hrun; discriminate Hrun).
  simpl in H. destruct H as (rows & Hrows & Hlen & _).
  exists rows. split; [exact Hrows | exact Hlen].
Defined.

(** The command on a context with one source that scrapes, one that
    cannot be built and one that is disabled. *)
Example scrape_command_demo :
  let '(ending, db') :=
    Main.scrape Main.no_command_faults (fun i j => Z.of_nat (100 * i + j))
                None (Some "out.csv")
                "exports/fsbo_listings.csv" demo_context in
  List.map (fun row => (session_source row, status row, listings_new row))
           (scrape_history db')
  = [("FSBO.com", "completed", 2%Z); ("zillow_fsbo", "failed", 0%Z)]
  /\ match ending with
     | Main.Finished totals (Some file) =>
         (Main.total_new totals, Main.total_errors totals) = (2%Z, 1%Z)
         /\ List.length (csv_rows file) = 2%nat
     | _ => False
     end.
Proof. vm_compute. repeat split. Qed.

(** ** Whole-word substitution *)

Module WordFacts.
Import PyStr PyStrFacts AddressNormalizer Vocabulary ZipFacts CityFacts.
Local Open Scope string_scope.

Lemma is_alpha_word c : is_alpha c = true -> is_word_char c = true.
Proof. unfold is_word_char. now intros ->. Qed.

(** A character that matches a letter, with or without case, is a letter. *)
Lemma char_eqb_letter ci p c :
  is_alpha p = true -> char_eqb ci p c = true -> is_alpha c = true.
Proof.
  unfold char_eqb. intros Hp H. destruct ci.
  - apply Ascii.eqb_eq in H.
    rewrite <- (is_alpha_lower_char c), <- H, is_alpha_lower_char. exact Hp.
  - apply Ascii.eqb_eq in H. now subst.
Qed.

Lemma char_eqb_not_word ci p c :
  is_alpha p = true -> is_word_char c = false -> char_eqb ci p c = false.
Proof.
  intros Hp Hc. destruct (char_eqb ci p c) eqn:H; [|reflexivity].
  apply (char_eqb_letter ci p c Hp) in H. apply is_alpha_word in H. congruence.
Qed.

(** A literal of letters followed by [\b], tried on a run of word
    characters that ends where the word ends, matches exactly when it is
    the whole run. *)
Lemma match_literal_run ci rest :
  ends_word rest = true ->
  forall a w last,
    sforall is_alpha a = true ->
    sforall is_word_char w = true ->
    (nonempty a = true \/ is_word_opt last = true) ->
    match match_literal ci a (w ++ rest) last with
    | Some (m, l, r) => if at_boundary l (head_char r) then Some m else None
    | None => None
    end
    = if same_word ci a w then Some w else None.
Proof.
  intros Hrest. unfold ends_word in Hrest. apply negb_true_iff in Hrest.
  induction a as [|p a IH]; intros w last Ha Hw Hlast.
  - destruct Hlast as [Hne|Hlast]; [discriminate|].
    cbn [match_literal]. unfold at_boundary. rewrite Hlast.
    destruct w as [|c w].
    + rewrite append_nil, Hrest. reflexivity.
    + rewrite append_cons. simpl in Hw. apply andb_prop in Hw as [Hc _].
      cbn. now rewrite Hc.
  - simpl in Ha. apply andb_prop in Ha as [Hp Ha].
    destruct w as [|c w].
    + rewrite append_nil. cbn [match_literal same_word].
      destruct rest as [|c rest]; [reflexivity|].
      simpl in Hrest. now rewrite (char_eqb_not_word ci p c Hp Hrest).
    + rewrite append_cons. cbn [match_literal same_word].
      simpl in Hw. apply andb_prop in Hw as [Hc Hw].
      destruct (char_eqb ci p c); [|reflexivity]. cbn [andb].
      specialize (IH w (Some c) Ha Hw (or_intror Hc)).
      destruct (match_literal ci a (w ++ rest) (Some c)) as [[[m l] r]|].
      * destruct (at_boundary l (head_char r)), (same_word ci a w);
          try discriminate; [|reflexivity].
        inversion IH; subst. reflexivity.
      * destruct (same_word ci a w); [discriminate | reflexivity].
Qed.

Lemma match_alternatives_run ci alts w rest :
  Forall (fun a => all_letters a = true) alts ->
  sforall is_word_char w = true ->
  ends_word rest = true ->
  match_alternatives ci alts (w ++ rest)
  = if existsb (fun a => same_word ci a w) alts then Some w else None.
Proof.
  intros Halts Hw Hrest. induction Halts as [|a alts Ha _ IH]; [reflexivity|].
  unfold all_letters in Ha. apply andb_prop in Ha as [Hne Hletters].
  cbn [match_alternatives existsb].
  pose proof (match_literal_run ci rest Hrest a w None Hletters Hw (or_introl Hne))
    as Hm.
  destruct (match_literal ci a (w ++ rest) None) as [[[m l] r]|].
  - destruct (at_boundary l (head_char r)).
    + destruct (same_word ci a w); [exact Hm | discriminate].
    + destruct (same_word ci a w); [discriminate | exact IH].
  - destruct (same_word ci a w); [discriminate | exact IH].
Qed.

(** At a character that is not a word character no alternative of
    letters matches. *)
Lemma match_alternatives_not_word ci alts c s :
  Forall (fun a => all_letters a = true) alts ->
  is_word_char c = false ->
  match_alternatives ci alts (String c s) = None.
Proof.
  intros Halts Hc. induction Halts as [|a alts Ha _ IH]; [reflexivity|].
  unfold all_letters in Ha. apply andb_prop in Ha as [Hne Hletters].
  destruct a as [|p a]; [discriminate|].
  simpl in Hletters. apply andb_prop in Hletters as [Hp _].
  cbn [match_alternatives match_literal].
  now rewrite (char_eqb_not_word ci p c Hp Hc).
Qed.

Lemma run_of_cons b c r :
  run_of b (String c r)
  = (Bool.eqb (is_word_char c) b && sforall (fun x => Bool.eqb (is_word_char x) b) r)%bool.
Proof. reflexivity. Qed.

(** Every non-empty string starts with a run that ends where the kind
    of character changes. *)
Lemma first_run c s :
  exists u rest,
    String c s = u ++ rest
    /\ run_of (is_word_char c) u = true
    /\ other_kind_next (is_word_char c) rest = true
    /\ (String.length rest < String.length (String c s))%nat.
Proof.
  revert c. induction s as [|c' s IH]; intros c.
  - exists (String c ""), "". rewrite run_of_cons, eqb_reflx.
    repeat split. simpl. lia.
  - destruct (Bool.eqb (is_word_char c') (is_word_char c)) eqn:Hk.
    + apply eqb_prop in Hk.
      destruct (IH c') as (u & rest & Heq & Hu & Hnext & Hlen).
      exists (String c u), rest. rewrite append_cons, <- Heq.
      rewrite run_of_cons, eqb_reflx. rewrite <- Hk.
      unfold run_of in Hu. apply andb_prop in Hu as [_ Hu]. rewrite Hu.
      rewrite Hk in Hnext |- *. repeat split; try assumption. simpl in *. lia.
    + exists (String c ""), (String c' s). rewrite run_of_cons, eqb_reflx.
      repeat split.
      * unfold other_kind_next. simpl.
        destruct (is_word_char c'), (is_word_char c); try discriminate; reflexivity.
      * simpl. lia.
Qed.

Lemma runs_app_run b u rest :
  run_of b u = true -> other_kind_next b rest = true ->
  runs (u ++ rest) = u :: runs rest.
Proof.
  intros Hu Hnext. unfold run_of in Hu. apply andb_prop in Hu as [Hne Hu].
  induction u as [|c u IH]; [discriminate|]. clear Hne.
  simpl in Hu. apply andb_prop in Hu as [Hc Hu]. apply eqb_prop in Hc.
  rewrite append_cons. cbn [runs].
  destruct u as [|c' u].
  - rewrite append_nil. destruct rest as [|c' rest]; [reflexivity|].
    unfold other_kind_next in Hnext. simpl in Hnext. apply eqb_prop in Hnext.
    rewrite Hc, Hnext. now destruct b.
  - rewrite append_cons. rewrite <- append_cons. rewrite (IH eq_refl Hu).
    simpl in Hu. apply andb_prop in Hu as [Hc' _]. apply eqb_prop in Hc'.
    rewrite Hc, Hc', eqb_reflx. reflexivity.
Qed.

Lemma last_or_word w before :
  run_of true w = true -> is_word_opt (last_or w before) = true.
Proof.
  unfold run_of, last_or. intros H. apply andb_prop in H as [Hne H].
  induction w as [|c w IH]; [discriminate|].
  simpl in H. apply andb_prop in H as [Hc H]. apply eqb_prop in Hc.
  destruct w as [|c' w]; [exact Hc|].
  change (last_char (String c (String c' w))) with (last_char (String c' w)).
  now apply IH.
Qed.

Lemma last_or_not_word u before :
  run_of false u = true -> is_word_opt (last_or u before) = false.
Proof.
  unfold run_of, last_or. intros H. apply andb_prop in H as [Hne H].
  induction u as [|c u IH]; [discriminate|].
  simpl in H. apply andb_prop in H as [Hc H]. apply eqb_prop in Hc.
  destruct u as [|c' u]; [exact Hc|].
  change (last_char (String c (String c' u))) with (last_char (String c' u)).
  now apply IH.
Qed.

Lemma last_char_some c u : exists x, last_char (String c u) = Some x.
Proof.
  revert c. induction u as [|a u IH]; intros c; [now exists c|].
  destruct (IH a) as [x Hx]. exists x.
  change (last_char (String c (String a u))) with (last_char (String a u)).
  exact Hx.
Qed.

Lemma last_or_cons c u before :
  last_or (String c u) before = last_or u (Some c).
Proof.
  unfold last_or. destruct u as [|a u]; [reflexivity|].
  change (last_char (String c (String a u))) with (last_char (String a u)).
  destruct (last_char_some a u) as [x ->]. reflexivity.
Qed.

Section Scan.
Variable ci : bool.
Variable alts : list string.
Variable repl : string -> string.
Hypothesis alts_letters : Forall (fun a => all_letters a = true) alts.

(** Inside a word nothing is replaced. *)
Lemma sub_from_in_word w : forall rest before,
  is_word_opt before = true ->
  sforall (fun c => Bool.eqb (is_word_char c) true) w = true ->
  sub_from ci alts repl before 0 (w ++ rest)
  = w ++ sub_from ci alts repl (last_or w before) 0 rest.
Proof.
  induction w as [|c w IH]; intros rest before Hb Hw; [reflexivity|].
  simpl in Hw. apply andb_prop in Hw as [Hc Hw]. apply eqb_prop in Hc.
  rewrite append_cons, last_or_cons. cbn [sub_from].
  unfold at_boundary. cbn [is_word_opt]. rewrite Hb, Hc. cbn [xorb].
  now rewrite (IH rest (Some c) Hc Hw), append_cons.
Qed.

(** Characters that are not word characters are kept. *)
Lemma sub_from_not_word u : forall rest before,
  sforall (fun c => Bool.eqb (is_word_char c) false) u = true ->
  sub_from ci alts repl before 0 (u ++ rest)
  = u ++ sub_from ci alts repl (last_or u before) 0 rest.
Proof.
  induction u as [|c u IH]; intros rest before Hu; [reflexivity|].
  simpl in Hu. apply andb_prop in Hu as [Hc Hu]. apply eqb_prop in Hc.
  rewrite append_cons, last_or_cons. cbn [sub_from].
  rewrite (match_alternatives_not_word ci alts c (u ++ rest) alts_letters Hc).
  destruct (at_boundary before (Some c));
    now rewrite (IH rest (Some c) Hu), append_cons.
Qed.

(** The characters of a match are passed over. *)
Lemma sub_from_skip u : forall rest before,
  sub_from ci alts repl before (String.length u) (u ++ rest)
  = sub_from ci alts repl (last_or u before) 0 rest.
Proof.
  induction u as [|c u IH]; intros rest before; [reflexivity|].
  rewrite append_cons, last_or_cons. cbn [sub_from String.length]. apply IH.
Qed.

Lemma rewrite_run_not_word u :
  run_of false u = true -> rewrite_run ci alts repl u = u.
Proof.
  intros Hu. unfold rewrite_run.
  assert (H : existsb (fun a => same_word ci a u) alts = false).
  { destruct u as [|c u]; [discriminate|]. rewrite run_of_cons in Hu.
    apply andb_prop in Hu as [Hc _]. apply eqb_prop in Hc.
    generalize alts alts_letters. intros l HF.
    induction HF as [|a l Ha _ IH]; [reflexivity|].
    simpl. rewrite IH, orb_false_r.
    unfold all_letters in Ha. apply andb_prop in Ha as [Hne Hl].
    destruct a as [|p a]; [discriminate|]. simpl in Hl.
    apply andb_prop in Hl as [Hp _]. simpl.
    now rewrite (char_eqb_not_word ci p c Hp Hc). }
  now rewrite H.
Qed.

(** The scan, run by run: a run that continues a word on its left is
    kept, any other run is rewritten. *)
Lemma sub_from_runs : forall n s before,
  (String.length s <= n)%nat ->
  sub_from ci alts repl before 0 s
  = match runs s with
    | [] => ""
    | r :: rs =>
        (if is_word_opt before then r else rewrite_run ci alts repl r)
        ++ sconcat (List.map (rewrite_run ci alts repl) rs)
    end.
Proof.
  induction n as [|n IH]; intros s before Hlen.
  - destruct s; [reflexivity | simpl in Hlen; lia].
  - destruct s as [|c s]; [reflexivity|].
    destruct (first_run c s) as (u & rest & Heq & Hu & Hnext & Hshort).
    rewrite Heq, (runs_app_run _ u rest Hu Hnext).
    assert (Hrest : forall before',
      is_word_opt before' = is_word_char c ->
      sub_from ci alts repl before' 0 rest
      = sconcat (List.map (rewrite_run ci alts repl) (runs rest))).
    { intros before' Hb. rewrite (IH rest before') by (simpl in *; lia).
      destruct rest as [|c' rest']; [reflexivity|].
      destruct (first_run c' rest') as (u' & rest'' & Heq' & Hu' & Hnext' & _).
      rewrite Heq', (runs_app_run _ u' rest'' Hu' Hnext'). cbn [List.map sconcat fold_right].
      unfold other_kind_next in Hnext. simpl in Hnext. apply eqb_prop in Hnext.
      rewrite Hb. destruct (is_word_char c) eqn:Hc; [|reflexivity].
      simpl in Hnext. rewrite Hnext in Hu'.
      now rewrite (rewrite_run_not_word u' Hu'). }
    pose proof Hu as Hu2. unfold run_of in Hu2. apply andb_prop in Hu2 as [Hne Hall].
    destruct (is_word_char c) eqn:Hc.
    + (* a run of word characters *)
      destruct (is_word_opt before) eqn:Hb.
      * rewrite (sub_from_in_word u rest before Hb Hall).
        now rewrite (Hrest _ (last_or_word u before Hu)).
      * destruct u as [|c0 u]; [discriminate|].
        assert (c0 = c) as -> by (rewrite append_cons in Heq; now inversion Heq).
        rewrite append_cons. cbn [sub_from].
        unfold at_boundary. cbn [is_word_opt]. rewrite Hb, Hc. cbn [xorb].
        rewrite <- append_cons.
        assert (Hends : ends_word rest = true).
        { unfold ends_word, other_kind_next in *.
          destruct (head_char rest) as [x|]; [|reflexivity].
          simpl in *. apply eqb_prop in Hnext. now rewrite Hnext. }
        assert (Hw : sforall is_word_char (String c u) = true).
        { clear - Hall. revert Hall. generalize (String c u).
          induction s as [|x s IHs]; [reflexivity|]. simpl.
          intros H. apply andb_prop in H as [Hx Hs]. apply eqb_prop in Hx.
          now rewrite Hx, IHs. }
        rewrite (match_alternatives_run ci alts (String c u) rest alts_letters Hw Hends).
        unfold rewrite_run.
        destruct (existsb (fun a => same_word ci a (String c u)) alts).
        -- cbn [String.length].
           replace (S (String.length u) - 1)%nat with (String.length u) by lia.
           rewrite (sub_from_skip u rest (Some c)), <- last_or_cons with (before := before).
           now rewrite (Hrest _ (last_or_word (String c u) before Hu)).
        -- simpl in Hall. apply andb_prop in Hall as [_ Hall'].
           rewrite (sub_from_in_word u rest (Some c) Hc Hall').
           rewrite <- last_or_cons with (before := before).
           rewrite (Hrest _ (last_or_word (String c u) before Hu)).
           now rewrite append_cons.
    + (* a run of other characters *)
      rewrite (sub_from_not_word u rest before Hall).
      rewrite (Hrest _ (last_or_not_word u before Hu)).
      rewrite (rewrite_run_not_word u Hu). now destruct (is_word_opt before).
Qed.

(** [re.sub] with a whole-word pattern rewrites the runs of the text one
    by one. *)
Lemma re_sub_words_runs s :
  re_sub_words ci alts repl s
  = sconcat (List.map (rewrite_run ci alts repl) (runs s)).
Proof.
  unfold re_sub_words. rewrite (sub_from_runs (String.length s) s None (le_n _)).
  destruct (runs s); reflexivity.
Qed.

(** A rewritten run keeps its kind when the replacement is a word. *)
Lemma rewrite_run_kind b r :
  (forall w, run_of true w = true -> run_of true (repl w) = true) ->
  run_of b r = true -> run_of b (rewrite_run ci alts repl r) = true.
Proof.
  intros Hrepl Hr. destruct b; [|now rewrite rewrite_run_not_word].
  unfold rewrite_run. destruct (existsb _ alts); [now apply Hrepl | exact Hr].
Qed.

Lemma rewrite_run_alternating rs :
  (forall w, run_of true w = true -> run_of true (repl w) = true) ->
  forall b, alternating b rs = true ->
  alternating b (List.map (rewrite_run ci alts repl) rs) = true.
Proof.
  intros Hrepl. induction rs as [|r rs IH]; intros b H; [reflexivity|].
  simpl in H. apply andb_prop in H as [Hr Hrs]. cbn [List.map alternating].
  now rewrite (rewrite_run_kind b r Hrepl Hr), (IH _ Hrs).
Qed.

End Scan.

(** The runs of a string alternate in kind. *)
Lemma runs_alternating : forall n s,
  (String.length s <= n)%nat ->
  alternating (match head_char s with Some c => is_word_char c | None => true end)
              (runs s) = true.
Proof.
  induction n as [|n IH]; intros s Hlen.
  - destruct s; [reflexivity | simpl in Hlen; lia].
  - destruct s as [|c s]; [reflexivity|].
    destruct (first_run c s) as (u & rest & Heq & Hu & Hnext & Hshort).
    rewrite Heq, (runs_app_run _ u rest Hu Hnext).
    assert (Hhead : head_char (u ++ rest) = Some c) by now rewrite <- Heq.
    rewrite Hhead. cbn [alternating]. rewrite Hu. cbn [andb].
    specialize (IH rest ltac:(simpl in *; lia)).
    unfold other_kind_next in Hnext.
    destruct rest as [|c' rest']; [reflexivity|].
    simpl in Hnext, IH. apply eqb_prop in Hnext. now rewrite <- Hnext.
Qed.

(** Alternating runs are the runs of their concatenation. *)
Lemma runs_sconcat rs : forall b,
  alternating b rs = true -> runs (sconcat rs) = rs.
Proof.
  induction rs as [|r rs IH]; intros b H; [reflexivity|].
  simpl in H. apply andb_prop in H as [Hr Hrs].
  change (sconcat (r :: rs)) with (r ++ sconcat rs).
  rewrite (runs_app_run b r (sconcat rs) Hr), (IH _ Hrs); [reflexivity|].
  unfold other_kind_next. destruct rs as [|r' rs']; [reflexivity|].
  simpl in Hrs. apply andb_prop in Hrs as [Hr' _].
  unfold run_of in Hr'. apply andb_prop in Hr' as [Hne Hall].
  destruct r' as [|c' r']; [discriminate|].
  simpl in Hall. apply andb_prop in Hall as [Hc' _].
  change (sconcat (String c' r' :: rs')) with (String c' r' ++ sconcat rs').
  rewrite append_cons. exact Hc'.
Qed.

(** One pass over a text given by its runs. *)
Lemma re_sub_words_sconcat ci alts repl b rs :
  Forall (fun a => all_letters a = true) alts ->
  alternating b rs = true ->
  re_sub_words ci alts repl (sconcat rs)
  = sconcat (List.map (rewrite_run ci alts repl) rs).
Proof.
  intros Halts Hrs.
  now rewrite (re_sub_words_runs ci alts repl Halts), (runs_sconcat rs b Hrs).
Qed.

(** The passes of the street types, one after the other, act on each
    run by itself. *)
Lemma street_type_passes types :
  Forall (fun fa : string * string =>
            all_letters (fst fa) = true /\ run_of true (snd fa) = true) types ->
  forall b rs, alternating b rs = true ->
  fold_left (fun acc (fa : string * string) =>
               re_sub_words true [fst fa] (fun _ => snd fa) acc)
            types (sconcat rs)
  = sconcat (List.map
      (fun r => fold_left (fun acc (fa : string * string) =>
                             rewrite_run true [fst fa] (fun _ => snd fa) acc)
                          types r) rs).
Proof.
  induction 1 as [|fa types [Hk Hv] _ IH]; intros b rs Hrs.
  - cbn [fold_left]. now rewrite map_id.
  - cbn [fold_left].
    rewrite (re_sub_words_sconcat true [fst fa] (fun _ => snd fa) b rs)
      by (try assumption; now constructor).
    rewrite (IH b); [now rewrite map_map|].
    apply rewrite_run_alternating; [now constructor | now intros | exact Hrs].
Qed.

Lemma same_word_exact a : forall w, same_word false a w = String.eqb w a.
Proof.
  induction a as [|p a IH]; intros [|c w]; try reflexivity.
  simpl. rewrite IH. unfold char_eqb. now rewrite Ascii.eqb_sym.
Qed.

Lemma same_word_lower a : forall w,
  lower a = a -> same_word true a w = String.eqb (lower w) a.
Proof.
  induction a as [|p a IH]; intros [|c w] Ha; try reflexivity.
  unfold lower in Ha. simpl in Ha. injection Ha as Hp Ha'.
  cbn [same_word]. rewrite (IH w Ha'). unfold char_eqb, lower.
  cbn [smap String.eqb]. rewrite Hp. now rewrite Ascii.eqb_sym.
Qed.

Lemma fold_stable : forall t v,
  stable v t = true ->
  fold_left (fun acc (fa : string * string) =>
               rewrite_run true [fst fa] (fun _ => snd fa) acc) t v = v.
Proof.
  induction t as [|[k v'] t IH]; intros v H; [reflexivity|].
  simpl in H. apply andb_prop in H as [Hkv Ht].
  cbn [fold_left fst snd]. unfold rewrite_run at 2. cbn [existsb].
  rewrite orb_false_r.
  destruct (same_word true k v); [|now apply IH].
  simpl in Hkv. apply String.eqb_eq in Hkv. subst v'. now apply IH.
Qed.

(** On a table in good order the passes give the entry of the
    lower-cased run. *)
Lemma fold_lookup : forall t w,
  table_ok t = true ->
  fold_left (fun acc (fa : string * string) =>
               rewrite_run true [fst fa] (fun _ => snd fa) acc) t w
  = match lookup_table (lower w) t with Some v => v | None => w end.
Proof.
  induction t as [|[k v] t IH]; intros w H; [reflexivity|].
  simpl in H. apply andb_prop in H as [H Ht]. apply andb_prop in H as [Hk Hv].
  apply String.eqb_eq in Hk.
  cbn [fold_left fst snd lookup_table]. unfold rewrite_run at 2. cbn [existsb].
  rewrite orb_false_r, (same_word_lower k w Hk).
  destruct (String.eqb (lower w) k); [now apply fold_stable | now apply IH].
Qed.

(** The direction pass and the street type passes on one run. *)
Lemma street_pass_word w :
  fold_left (fun acc (fa : string * string) =>
               rewrite_run true [fst fa] (fun _ => snd fa) acc)
            STREET_TYPES
            (rewrite_run false DIRECTIONS (fun m => prefix 1 m) w)
  = street_word w.
Proof.
  unfold street_word, rewrite_run at 2.
  assert (Hd : existsb (fun a => same_word false a w) DIRECTIONS
               = existsb (String.eqb w) DIRECTIONS).
  { generalize DIRECTIONS. induction l as [|a l IH]; [reflexivity|].
    simpl. now rewrite IH, same_word_exact. }
  rewrite Hd. destruct (existsb (String.eqb w) DIRECTIONS) eqn:Hw.
  - apply existsb_exists in Hw as (a & Ha & Hwa).
    apply String.eqb_eq in Hwa. subst a.
    simpl in Ha.
    repeat (destruct Ha as [<- | Ha]; [vm_compute; reflexivity|]).
    destruct Ha.
  - apply fold_lookup. vm_compute. reflexivity.
Qed.

Lemma street_tables_ok :
  Forall (fun a => all_letters a = true) DIRECTIONS
  /\ Forall (fun fa : string * string =>
               all_letters (fst fa) = true /\ run_of true (snd fa) = true)
            STREET_TYPES.
Proof. split; repeat constructor. Qed.

Lemma prefix_one_word w : run_of true w = true -> run_of true (prefix 1 w) = true.
Proof.
  destruct w as [|c w]; [discriminate|]. rewrite run_of_cons.
  intros H. apply andb_prop in H as [Hc _].
  unfold prefix. cbn [substring]. rewrite substring_none, run_of_cons, Hc.
  reflexivity.
Qed.

(** The direction pass followed by the passes of a table of street
    types acts on each run of the text by itself. *)
Lemma street_passes_runs dirs types t :
  Forall (fun a => all_letters a = true) dirs ->
  Forall (fun fa : string * string =>
            all_letters (fst fa) = true /\ run_of true (snd fa) = true) types ->
  fold_left (fun acc (fa : string * string) =>
               re_sub_words true [fst fa] (fun _ => snd fa) acc)
            types (re_sub_words false dirs (fun m => prefix 1 m) t)
  = sconcat (List.map
      (fun r => fold_left (fun acc (fa : string * string) =>
                             rewrite_run true [fst fa] (fun _ => snd fa) acc)
                          types (rewrite_run false dirs (fun m => prefix 1 m) r))
      (runs t)).
Proof.
  intros Hdir Htypes.
  rewrite (re_sub_words_runs false dirs (fun m => prefix 1 m) Hdir t).
  pose proof (runs_alternating (String.length t) t (le_n _)) as Halt.
  rewrite (street_type_passes types Htypes _ _
             (rewrite_run_alternating false dirs (fun m => prefix 1 m)
                Hdir (runs t) prefix_one_word _ Halt)).
  now rewrite map_map.
Qed.

End WordFacts.

Import NormalizerFacts WordFacts.

(** X29. On ASCII text, in [normalize_street], after white space is
    collapsed and the text is title-cased, the street is rewritten one
    run of word characters at a time: a run that is a direction name
    becomes its first letter, any other run whose lower-cased text is a
    key of STREET_TYPES becomes that key's abbreviation, and every other
    run, every space and every punctuation mark is kept; the result is
    then stripped. *)
Theorem normalize_street_wordwise (street : string) :
  isascii street = true ->
  normalize_street street
  = strip (sconcat (List.map street_word
                             (runs (title (join " " (split street)))))).
Proof.
  intros _.
  rewrite normalize_street_unfold. unfold abbreviate_street.
  destruct street_tables_ok as [Hdir Htypes].
  rewrite (street_passes_runs DIRECTIONS STREET_TYPES _ Hdir Htypes).
  apply (f_equal strip). apply (f_equal sconcat). apply map_ext.
  exact street_pass_word.
Qed.

Lemma normalize_street_wordwise_witness :
  normalize_street "12  north  MAIN street, apt-4" = "12 N Main St, Apt-4".
Proof.
  rewrite (normalize_street_wordwise "12  north  MAIN street, apt-4" eq_refl).
  reflexivity.
Defined.
